(** * Smriti demo: the WebSocket <-> realtime proxy and its client hooks

    A shallow embedding of the parts of the repository that carry protocol
    logic, and the properties of them that the design document states.

    Server ([apps/ws-server/src]):
    - [services/session.ts]                     modules [SessionService],
                                                [SessionSweep]
    - [services/auth.ts]                        modules [Gateway],
                                                [AuthService]
    - [services/openai-realtime.ts]             modules [OpenAIRealtimeService],
                                                [UpstreamEvents]
    - [handlers/connection.ts], [handlers/connection-utils.ts],
      [handlers/openai-proxy.ts]                modules [Gateway],
                                                [UpstreamEvents]
    - [handlers/message-handlers.ts]            module [Router]

    Client ([apps/web/hooks]):
    - [useWebSocket.ts]                         modules [UseWebSocket],
                                                [HookEvents]
    - [useOpenAIMessages.ts]                    module [UseOpenAIMessages]
    - [useRealTimeAudio.ts], [useAudioPlayer.ts] module [Audio]

    The first part of the properties follows the design document (C1 to
    C10); the second part (X1 onwards) covers code that the document leaves
    aside.

    Conventions.  Handlers are state transformers; those that can throw, or
    that sit under a [try]/[catch], live in the monad [Js.M].  Wall-clock
    readings ([Date.now()], [new Date()]) are arguments named [now], in
    milliseconds, of type [Z]; generated identifiers and what the
    surroundings answer (a callback that throws, a send that is refused,
    an upstream link that does not come up) are arguments too.  Logging is
    dropped: the logger only writes to the console. *)

From Stdlib Require Import ZArith Lia List.
From Stdlib Require Import QArith Qminmax Qabs Lqa.
From Stdlib Require Import String Ascii.
From stdpp Require Import gmap strings pretty.

Local Set Warnings "-register-all".
Local Open Scope string_scope.
Local Open Scope list_scope.
Local Open Scope Z_scope.

(* ===================================================================== *)
(** * JavaScript values, exceptions                                       *)
(* ===================================================================== *)

Module Js.

(** A handler either returns or throws; what it did to the state before
    throwing stays done. *)
Inductive outcome (A : Type) :=
| Return (a : A)
| Throw (e : string).
Arguments Return {A} a.
Arguments Throw {A} e.

Definition M (S A : Type) : Type := S -> S * outcome A.

Definition ret {S A} (a : A) : M S A := fun s => (s, Return a).
Definition throw {S A} (e : string) : M S A := fun s => (s, Throw e).
Definition bind {S A B} (m : M S A) (k : A -> M S B) : M S B :=
  fun s => match m s with
           | (s', Return a) => k a s'
           | (s', Throw e) => (s', Throw e)
           end.
Definition try_catch {S A} (m : M S A) (h : string -> M S A) : M S A :=
  fun s => match m s with
           | (s', Return a) => (s', Return a)
           | (s', Throw e) => h e s'
           end.
Definition modify {S} (f : S -> S) : M S unit := fun s => (f s, Return tt).
Definition gets {S A} (f : S -> A) : M S A := fun s => (s, Return (f s)).
(** Lift a pure computation that may throw. *)
Definition lift {S A} (o : outcome A) : M S A := fun s => (s, o).
Definition when {S} (b : bool) (m : M S unit) : M S unit :=
  if b then m else ret tt.

Declare Scope js_scope.
Delimit Scope js_scope with js.
Notation "x <- m ;; k" := (bind m (fun x => k))
  (at level 100, m at next level, right associativity) : js_scope.
Notation "m ;; k" := (bind m (fun _ => k))
  (at level 100, right associativity) : js_scope.

(** The values [JSON.parse] produces, and [undefined] for absent
    properties.  Numbers are the integers: the handlers never compute with
    the numbers of a frame, they only test them for truthiness and print
    them. *)
Inductive Value :=
| Undefined
| Null
| Bool (b : bool)
| Num (n : Z)
| Str (s : string)
| Arr (items : list Value)
| Obj (fields : list (string * Value)).

Fixpoint assoc (k : string) (fields : list (string * Value)) : option Value :=
  match fields with
  | [] => None
  | (k', v) :: rest => if String.eqb k k' then Some v else assoc k rest
  end.

Fixpoint assoc_set (k : string) (v : Value) (fields : list (string * Value))
    : list (string * Value) :=
  match fields with
  | [] => [(k, v)]
  | (k', v') :: rest =>
      if String.eqb k k' then (k, v) :: rest
      else (k', v') :: assoc_set k v rest
  end.

(** [v.k] for the property names the handlers read ([type], [payload],
    [text], [audio], [event_id]); none of them is a built-in property of a
    string, number, boolean or array. *)
Definition get (v : Value) (k : string) : outcome Value :=
  match v with
  | Undefined | Null =>
      Throw ("TypeError: Cannot read properties of null or undefined (reading '"
             +:+ k +:+ "')")
  | Obj fields => Return (default Undefined (assoc k fields))
  | _ => Return Undefined
  end.

(** [v?.k] *)
Definition get_opt (v : Value) (k : string) : Value :=
  match v with
  | Obj fields => default Undefined (assoc k fields)
  | _ => Undefined
  end.

(** [v.k = x] in strict mode (the compiled modules are strict): assigning a
    property of a primitive throws.  A property put on an array is not an
    index, and [JSON.stringify] does not print it. *)
Definition set (v : Value) (k : string) (x : Value) : outcome Value :=
  match v with
  | Obj fields => Return (Obj (assoc_set k x fields))
  | Arr items => Return (Arr items)
  | Undefined | Null =>
      Throw ("TypeError: Cannot set properties of null or undefined (setting '"
             +:+ k +:+ "')")
  | _ => Throw ("TypeError: Cannot create property '" +:+ k +:+ "'")
  end.

Definition truthy (v : Value) : bool :=
  match v with
  | Undefined | Null => false
  | Bool b => b
  | Num n => negb (n =? 0)
  | Str s => negb (String.eqb s "")
  | Arr _ | Obj _ => true
  end.

(** [v === 'lit'] *)
Definition is_str (v : Value) (lit : string) : bool :=
  match v with
  | Str s => String.eqb s lit
  | _ => false
  end.

Fixpoint join (sep : string) (l : list string) : string :=
  match l with
  | [] => ""
  | [x] => x
  | x :: rest => x +:+ sep +:+ join sep rest
  end.

(** [`${v}`] *)
Fixpoint toString (v : Value) : string :=
  match v with
  | Undefined => "undefined"
  | Null => "null"
  | Bool true => "true"
  | Bool false => "false"
  | Num n => pretty n
  | Str s => s
  | Arr items =>
      join "," (List.map (fun x => match x with
                                   | Undefined | Null => ""
                                   | _ => toString x
                                   end) items)
  | Obj _ => "[object Object]"
  end.

End Js.

(* ===================================================================== *)
(** * Session registry: [services/session.ts]                             *)
(* ===================================================================== *)

Module SessionService.

Inductive SessionStatus := active | inactive | ended.

Record Session := mkSession {
  id : string;
  userId : string;
  connectionId : string;
  createdAt : Z;
  lastActivity : Z;
  status : SessionStatus;
}.

(** [private sessions: Map<string, Session>] *)
Abbreviation Registry := (gmap string Session).

(** [private readonly sessionTimeout = 30 * 60 * 1000] *)
Definition sessionTimeout : Z := 30 * 60 * 1000.

Definition generateSessionId (now : Z) (rnd : string) : string :=
  "sess_" +:+ pretty now +:+ "_" +:+ rnd.

Definition createSession (now : Z) (rnd : string)
    (uid cid : string) (reg : Registry) : string * Registry :=
  let sessionId := generateSessionId now rnd in
  let session := {| id := sessionId; userId := uid; connectionId := cid;
                    createdAt := now; lastActivity := now;
                    status := active |} in
  (sessionId, <[sessionId := session]> reg).

Definition isSessionExpired (now : Z) (session : Session) : bool :=
  sessionTimeout <? now - lastActivity session.

(** [endSession]: the object is marked ['ended'] and dropped from the map;
    nothing keeps a reference to it afterwards. *)
Definition endSession (sessionId : string) (reg : Registry) : Registry :=
  match reg !! sessionId with
  | Some _ => delete sessionId reg
  | None => reg
  end.

Definition getSession (now : Z) (sessionId : string) (reg : Registry)
    : option Session * Registry :=
  match reg !! sessionId with
  | None => (None, reg)
  | Some session =>
      if isSessionExpired now session
      then (None, endSession sessionId reg)
      else (Some session, reg)
  end.

Definition touch (now : Z) (s : Session) : Session :=
  {| id := id s; userId := userId s; connectionId := connectionId s;
     createdAt := createdAt s; lastActivity := now; status := status s |}.

Definition updateActivity (now : Z) (sessionId : string) (reg : Registry)
    : Registry :=
  match reg !! sessionId with
  | Some session => <[sessionId := touch now session]> reg
  | None => reg
  end.

End SessionService.

(* ===================================================================== *)
(** * Upstream realtime client: [services/openai-realtime.ts]             *)
(* ===================================================================== *)

Module OpenAIRealtimeService.
Import Js.
Local Open Scope js_scope.

Inductive ReadyState := CONNECTING | OPEN | CLOSING | CLOSED.

(** The socket of the [ws] package that carries the upstream link; [sent]
    are the events written to it, oldest first. *)
Record Transport := mkTransport {
  readyState : ReadyState;
  sent : list Value;
}.

(** [private ws], [private sessionId], [private isConnected] *)
Record Service := mkService {
  ws : option Transport;
  sessionId : option string;
  isConnected : bool;
}.

(** [new OpenAIRealtimeService()] *)
Definition create : Service :=
  {| ws := None; sessionId := None; isConnected := false |}.

(** [WebSocket.prototype.send] of the [ws] package: it throws while the
    socket is still connecting, writes when open, and drops the data once
    the socket is closing or closed. *)
Definition transport_send (data : Value) (t : Transport) : outcome Transport :=
  match readyState t with
  | CONNECTING => Throw "WebSocket is not open: readyState 0 (CONNECTING)"
  | OPEN => Return {| readyState := OPEN; sent := sent t ++ [data] |}
  | CLOSING | CLOSED => Return t
  end.

Definition set_ws (w : option Transport) (svc : Service) : Service :=
  {| ws := w; sessionId := sessionId svc; isConnected := isConnected svc |}.

(** [sendEvent(event)]; [eid] is the identifier [`event_${Date.now()}_...`]
    drawn for this call. *)
Definition sendEvent (eid : string) (event : Value) : M Service unit :=
  connected <- gets isConnected ;;
  sock <- gets ws ;;
  match connected, sock with
  | true, Some t =>
      try_catch
        (present <- lift (get event "event_id") ;;
         event' <- (if truthy present then ret event
                    else lift (set event "event_id" (Str eid))) ;;
         t' <- lift (transport_send event' t) ;;
         modify (set_ws (Some t')))
        (fun error => throw error)
  | _, _ => throw "Not connected to OpenAI Realtime API"
  end.

(** [createResponse()] with no configuration. *)
Definition createResponse (eid : string) : M Service unit :=
  sendEvent eid (Obj [("type", Str "response.create")]).

(** [sendTextMessage(text)]: create the item, then ask for a response. *)
Definition sendTextMessage (eids : nat -> string) (text : Value)
    : M Service unit :=
  sendEvent (eids 0%nat)
    (Obj [("type", Str "conversation.item.create");
          ("item", Obj [("type", Str "message");
                        ("role", Str "user");
                        ("content",
                         Arr [Obj [("type", Str "input_text");
                                   ("text", text)]])])]) ;;
  createResponse (eids 1%nat).

(** [typeof audioData === 'string' ? audioData : audioData.toString('base64')];
    a number rejects the radix. *)
Definition base64Audio (audioData : Value) : outcome string :=
  match audioData with
  | Str s => Return s
  | Num _ => Throw "RangeError: toString() radix must be between 2 and 36"
  | Undefined | Null =>
      Throw "TypeError: Cannot read properties of null or undefined (reading 'toString')"
  | v => Return (toString v)
  end.

Definition sendAudioData (eid : string) (audioData : Value) : M Service unit :=
  b64 <- lift (base64Audio audioData) ;;
  if String.eqb b64 "" then throw "Audio data is empty"
  else sendEvent eid (Obj [("type", Str "input_audio_buffer.append");
                           ("audio", Str b64)]).

Definition commitAudioBuffer (eids : nat -> string) : M Service unit :=
  sendEvent (eids 0%nat) (Obj [("type", Str "input_audio_buffer.commit")]) ;;
  createResponse (eids 1%nat).

Definition clearAudioBuffer (eid : string) : M Service unit :=
  sendEvent eid (Obj [("type", Str "input_audio_buffer.clear")]).

(** [disconnect()]: [ws.close()] of the [ws] package does not throw. *)
Definition disconnect : M Service unit :=
  sock <- gets ws ;;
  match sock with
  | Some _ =>
      modify (fun _ => {| ws := None; sessionId := None;
                          isConnected := false |})
  | None => ret tt
  end.

(** How the environment answers [connect()]. *)
Inductive ConnectAnswer :=
| InvalidApiKey        (* the key check throws before a socket is made *)
| TransportError       (* the socket emits [error] before [open]       *)
| ConnectionTimeout    (* no [open] within [CONNECTION_TIMEOUT_MS]     *)
| Opened.              (* [open]; the session is then configured       *)

(** The [session.update] event of [initializeSession].  Its [session]
    member (modalities, instructions, voice, audio formats, turn detection,
    tools, temperature, token limit) is left out: nothing below reads it. *)
Definition sessionUpdate : Value :=
  Obj [("type", Str "session.update")].

(** [connect()], run to the point where its promise settles. *)
Definition connect (answer : ConnectAnswer) (eid : string) : M Service unit :=
  connected <- gets isConnected ;;
  if connected then ret tt
  else match answer with
       | InvalidApiKey => throw "Invalid or missing OpenAI API key"
       | TransportError =>
           modify (set_ws (Some {| readyState := CLOSED; sent := [] |})) ;;
           throw "upstream transport error"
       | ConnectionTimeout =>
           modify (set_ws (Some {| readyState := CONNECTING; sent := [] |})) ;;
           throw "Connection timeout"
       | Opened =>
           modify (fun svc => {| ws := Some {| readyState := OPEN; sent := [] |};
                                 sessionId := sessionId svc;
                                 isConnected := true |}) ;;
           sendEvent eid sessionUpdate
       end.

End OpenAIRealtimeService.

(* ===================================================================== *)
(** * Connection gateway: [handlers/connection.ts], [connection-utils.ts],
      [openai-proxy.ts]                                                   *)
(* ===================================================================== *)

Module Gateway.
Import Js.
Local Open Scope js_scope.

Record ConnectionContext := mkContext {
  sessionId : string;
  userId : string;
  authenticated : bool;
  connectionTime : Z;
}.

(** A frame written to the inbound socket:
    [{type, payload, timestamp, sessionId}]. *)
Record Frame := mkFrame {
  ftype : string;
  payload : Value;
  timestamp : Z;
  fsession : string;
}.

(** The inbound socket as the server sees it.  [outbox] are the frames
    written, oldest first; [closed] the code and reason of [ws.close];
    [listeners] what [setupWebSocketHandlers] registered: the context and
    the service object its closures hold. *)
Record Socket := mkSocket {
  outbox : list Frame;
  closed : option (Z * string);
  listeners : option (ConnectionContext * nat);
}.

Definition newSocket : Socket :=
  {| outbox := []; closed := None; listeners := None |}.

(** Process-wide state.  Service objects live in [heap] and are referred
    to by address, from the map [openaiServices] and from the closures of
    the socket listeners alike; sockets are named by a number. *)
Record Server := mkServer {
  sessions : gmap string SessionService.Session;
  heap : gmap nat OpenAIRealtimeService.Service;
  openaiServices : gmap string nat;
  connectionContexts : gmap nat ConnectionContext;
  sockets : gmap nat Socket;
}.

Definition empty : Server :=
  {| sessions := ∅; heap := ∅; openaiServices := ∅;
     connectionContexts := ∅; sockets := ∅ |}.

Definition with_sessions (f : gmap string SessionService.Session ->
                              gmap string SessionService.Session)
    (srv : Server) : Server :=
  {| sessions := f (sessions srv); heap := heap srv;
     openaiServices := openaiServices srv;
     connectionContexts := connectionContexts srv;
     sockets := sockets srv |}.
Definition with_heap (f : gmap nat OpenAIRealtimeService.Service ->
                          gmap nat OpenAIRealtimeService.Service)
    (srv : Server) : Server :=
  {| sessions := sessions srv; heap := f (heap srv);
     openaiServices := openaiServices srv;
     connectionContexts := connectionContexts srv;
     sockets := sockets srv |}.
Definition with_openaiServices (f : gmap string nat -> gmap string nat)
    (srv : Server) : Server :=
  {| sessions := sessions srv; heap := heap srv;
     openaiServices := f (openaiServices srv);
     connectionContexts := connectionContexts srv;
     sockets := sockets srv |}.
Definition with_connectionContexts
    (f : gmap nat ConnectionContext -> gmap nat ConnectionContext)
    (srv : Server) : Server :=
  {| sessions := sessions srv; heap := heap srv;
     openaiServices := openaiServices srv;
     connectionContexts := f (connectionContexts srv);
     sockets := sockets srv |}.
Definition with_sockets (f : gmap nat Socket -> gmap nat Socket)
    (srv : Server) : Server :=
  {| sessions := sessions srv; heap := heap srv;
     openaiServices := openaiServices srv;
     connectionContexts := connectionContexts srv;
     sockets := f (sockets srv) |}.

(** [ws.send(JSON.stringify(frame))] on the inbound socket: written while
    the socket is open, dropped after [close]. *)
Definition socket_send (f : Frame) (sock : Socket) : Socket :=
  match closed sock with
  | None => {| outbox := outbox sock ++ [f]; closed := None;
               listeners := listeners sock |}
  | Some _ => sock
  end.

(** [ws.close(code, reason)]; a second close changes nothing. *)
Definition socket_close (code : Z) (reason : string) (sock : Socket) : Socket :=
  match closed sock with
  | None => {| outbox := outbox sock; closed := Some (code, reason);
               listeners := listeners sock |}
  | Some _ => sock
  end.

Definition ws_send (ws : nat) (f : Frame) : M Server unit :=
  modify (with_sockets (alter (socket_send f) ws)).

Definition ws_close (ws : nat) (code : Z) (reason : string) : M Server unit :=
  modify (with_sockets (alter (socket_close code reason) ws)).

(** Run a method of the service object at address [r]. *)
Definition on_service {A} (r : nat) (m : M OpenAIRealtimeService.Service A)
    : M Server A :=
  fun srv =>
    match heap srv !! r with
    | Some svc =>
        let '(svc', o) := m svc in (with_heap (<[r := svc']>) srv, o)
    | None => (srv, Throw "TypeError: service is undefined")
    end.

Definition errorFrame (now : Z) (context : ConnectionContext) (message : string)
    : Frame :=
  {| ftype := "error"; payload := Obj [("message", Str message)];
     timestamp := now; fsession := sessionId context |}.

(** The request, as far as [extractTokenFromRequest] reads it. *)
Record Request := mkRequest {
  tokenFromQuery : option string;
  authorization : option string;
}.

Definition nonempty (o : option string) : option string :=
  match o with
  | Some s => if String.eqb s "" then None else Some s
  | None => None
  end.

Definition extractTokenFromRequest (req : Request) : option string :=
  match nonempty (tokenFromQuery req) with
  | Some t => Some t
  | None =>
      match nonempty (authorization req) with
      | Some h =>
          if String.prefix "Bearer " h
          then Some (String.substring 7 (String.length h - 7) h)
          else None
      | None => None
      end
  end.

(** [token.replace('demo_', '')]: the first occurrence is removed. *)
Fixpoint remove_first (pat s : string) : string :=
  if String.prefix pat s
  then String.substring (String.length pat) (String.length s - String.length pat) s
  else match s with
       | EmptyString => EmptyString
       | String c rest => String c (remove_first pat rest)
       end.

(** [authService.validateToken] *)
Definition validateToken (token : string) : option string :=
  if (String.eqb token "" || (String.length token <? 10)%nat)%bool then None
  else Some (remove_first "demo_" token).

(** [authenticateConnection]: [None] is the rejected connection. *)
Definition authenticateConnection (now : Z) (rnd : string) (req : Request)
    (connectionId : string) (srv : Server) : option ConnectionContext * Server :=
  match nonempty (extractTokenFromRequest req) with
  | None =>
      let demoUserId := "demo_user_" +:+ pretty now in
      let '(sid, reg) :=
        SessionService.createSession now rnd demoUserId connectionId
          (sessions srv) in
      (Some {| sessionId := sid; userId := demoUserId;
               authenticated := false; connectionTime := now |},
       with_sessions (fun _ => reg) srv)
  | Some token =>
      match validateToken token with
      | None => (None, srv)
      | Some uid =>
          let '(sid, reg) :=
            SessionService.createSession now rnd uid connectionId
              (sessions srv) in
          (Some {| sessionId := sid; userId := uid;
                   authenticated := true; connectionTime := now |},
           with_sessions (fun _ => reg) srv)
      end
  end.

Definition welcomeFrame (now : Z) (context : ConnectionContext) : Frame :=
  {| ftype := "welcome";
     payload := Obj [("message", Str "Connected to Smriti AI Guidance");
                     ("sessionId", Str (sessionId context));
                     ("userId", Str (userId context));
                     ("authenticated", Bool (authenticated context));
                     ("features", Arr [Str "text_chat"; Str "voice_chat";
                                       Str "spiritual_guidance"])];
     timestamp := now; fsession := sessionId context |}.

(** [handleDisconnection] *)
Definition handleDisconnection (ws : nat) (context : ConnectionContext)
    : M Server unit :=
  known <- gets (fun srv => openaiServices srv !! sessionId context) ;;
  match known with
  | Some r =>
      on_service r OpenAIRealtimeService.disconnect ;;
      modify (with_openaiServices (delete (sessionId context)))
  | None => ret tt
  end ;;
  modify (with_sessions (SessionService.endSession (sessionId context))) ;;
  modify (with_connectionContexts (delete ws)).

(** How the environment answers the construction of the upstream link. *)
Inductive UpstreamAnswer :=
| ConstructorThrows
| Connect (a : OpenAIRealtimeService.ConnectAnswer).

Definition setupWebSocketHandlers (ws : nat) (context : ConnectionContext)
    (service : nat) : M Server unit :=
  modify (with_sockets (alter (fun sock =>
    {| outbox := outbox sock; closed := closed sock;
       listeners := Some (context, service) |}) ws)).

(** The [error] listener that the service puts on its socket relays the
    error to the client through [onOpenAIError] of the proxy, before the
    promise of [connect] is rejected. *)
Definition relayTransportError (now : Z) (ws : nat)
    (context : ConnectionContext) (a : OpenAIRealtimeService.ConnectAnswer)
    : M Server unit :=
  match a with
  | OpenAIRealtimeService.TransportError =>
      ws_send ws {| ftype := "openai_error";
                    payload := Obj [("error", Obj [])];
                    timestamp := now; fsession := sessionId context |}
  | _ => ret tt
  end.

(** [setupAuthenticatedConnection]; [r] is the address the new service
    object gets. *)
Definition setupAuthenticatedConnection (now : Z) (eid : string) (r : nat)
    (answer : UpstreamAnswer) (ws : nat) (context : ConnectionContext)
    : M Server unit :=
  modify (with_connectionContexts (<[ws := context]>)) ;;
  try_catch
    (match answer with
     | ConstructorThrows => throw "The OPENAI_API_KEY environment variable is missing"
     | Connect a =>
         modify (with_heap (<[r := OpenAIRealtimeService.create]>)) ;;
         modify (with_openaiServices (<[sessionId context := r]>)) ;;
         relayTransportError now ws context a ;;
         on_service r (OpenAIRealtimeService.connect a eid) ;;
         setupWebSocketHandlers ws context r ;;
         ws_send ws (welcomeFrame now context)
     end)
    (fun _ =>
       ws_send ws (errorFrame now context "Failed to initialize AI service") ;;
       ws_close ws 1011 "Service initialization failed").

(** [handleConnection]: a new socket [ws], authenticated and set up. *)
Definition handleConnection (now : Z) (rnd eid : string) (r : nat)
    (answer : UpstreamAnswer) (ws : nat) (req : Request)
    (connectionId : string) (srv : Server) : Server :=
  let srv0 := with_sockets (<[ws := newSocket]>) srv in
  match authenticateConnection now rnd req connectionId srv0 with
  | (Some context, srv1) =>
      fst (setupAuthenticatedConnection now eid r answer ws context srv1)
  | (None, srv1) =>
      fst (ws_close ws 1008 "Authentication failed" srv1)
  end.

(** The [close] event of the inbound socket reaches the listener that
    [setupWebSocketHandlers] registered, if it did. *)
Definition emitClose (ws : nat) (srv : Server) : Server :=
  match sockets srv !! ws with
  | Some sock =>
      match listeners sock with
      | Some (context, _) => fst (handleDisconnection ws context srv)
      | None => srv
      end
  | None => srv
  end.

End Gateway.

(* ===================================================================== *)
(** * Message router: [handlers/message-handlers.ts]                      *)
(* ===================================================================== *)

Module Router.
Import Js Gateway.
Local Open Scope js_scope.

(** What [data.toString()] is to [JSON.parse]: text that is not JSON, or
    the text of a value. *)
Inductive Inbound :=
| Malformed (text : string)
| WellFormed (v : Value).

Definition JSON_parse (data : Inbound) : outcome Value :=
  match data with
  | Malformed _ => Throw "SyntaxError: Unexpected token in JSON"
  | WellFormed v => Return v
  end.

Definition updateActivity (now : Z) (context : ConnectionContext)
    : M Server unit :=
  modify (with_sessions (SessionService.updateActivity now (sessionId context))).

(** [handleLegacyMessage]; [ty] and [body] are [message.type] and
    [message.payload] of a message that is neither [null] nor [undefined]. *)
Definition handleLegacyMessage (now : Z) (eids : nat -> string) (ws : nat)
    (ty body : Value) (context : ConnectionContext) (service : nat)
    : M Server unit :=
  try_catch
    (if is_str ty "text_message" then
       when (truthy (get_opt body "text"))
         (on_service service
            (OpenAIRealtimeService.sendTextMessage eids (get_opt body "text")))
     else if is_str ty "audio_data" then
       when (truthy (get_opt body "audio"))
         (on_service service
            (OpenAIRealtimeService.sendAudioData (eids 0%nat)
               (get_opt body "audio")))
     else if is_str ty "audio_commit" then
       on_service service (OpenAIRealtimeService.commitAudioBuffer eids)
     else if is_str ty "audio_clear" then
       on_service service (OpenAIRealtimeService.clearAudioBuffer (eids 0%nat))
     else
       ws_send ws (errorFrame now context
                     ("Unknown message type: " +:+ toString ty)))
    (fun _ =>
       ws_send ws (errorFrame now context
                     ("Failed to process " +:+ toString ty))).

Definition pongFrame (now : Z) (context : ConnectionContext) : Frame :=
  {| ftype := "pong"; payload := Undefined; timestamp := now;
     fsession := sessionId context |}.

(** [handleMessage] *)
Definition handleMessage (now : Z) (eids : nat -> string) (ws : nat)
    (data : Inbound) (context : ConnectionContext) (service : nat)
    : M Server unit :=
  try_catch
    (message <- lift (JSON_parse data) ;;
     ty <- lift (get message "type") ;;
     updateActivity now context ;;
     if is_str ty "ping" then ws_send ws (pongFrame now context)
     else
       body <- lift (get message "payload") ;;
       if (is_str ty "openai_event" && truthy body)%bool then
         on_service service (OpenAIRealtimeService.sendEvent (eids 0%nat) body)
       else
         handleLegacyMessage now eids ws ty body context service)
    (fun _ => ws_send ws (errorFrame now context "Invalid message format")).

(** The [message] event of the inbound socket reaches the listener that
    [setupWebSocketHandlers] registered, if it did. *)
Definition emitMessage (now : Z) (eids : nat -> string) (ws : nat)
    (data : Inbound) (srv : Server) : Server :=
  match sockets srv !! ws with
  | Some sock =>
      match listeners sock with
      | Some (context, service) =>
          fst (handleMessage now eids ws data context service srv)
      | None => srv
      end
  | None => srv
  end.

(** The types the router knows: its own, the proxy envelope, the legacy
    ones. *)
Definition recognised : list string :=
  ["ping"; "openai_event"; "text_message"; "audio_data"; "audio_commit";
   "audio_clear"].

End Router.

(* ===================================================================== *)
(** * Client connection hook: [apps/web/hooks/useWebSocket.ts]            *)
(* ===================================================================== *)

Module UseWebSocket.

(** [CONNECTION_CONFIG] of [packages/shared/constants]. *)
Definition RECONNECT_ATTEMPTS : nat := 5.
Definition RECONNECT_INTERVAL : Z := 2000.

Inductive WSConnectionStatus :=
  connecting | connected | disconnected | reconnecting | error.

Inductive ReadyState := CONNECTING | OPEN | CLOSING | CLOSED.

(** What a handler does to the outside world, in order. *)
Inductive Effect :=
| SetTimeout (delay : Z)          (* [setTimeout(() => connect(), delay)] *)
| ClearTimeout
| SocketClose (code : option Z)
| NewWebSocket
| CallOnOpen
| CallOnClose.

(** The refs and state cells of the hook. *)
Record Hook := mkHook {
  connectionStatus : WSConnectionStatus;
  error_ : option string;
  wsRef : option ReadyState;
  reconnectTimeoutRef : option Z;
  reconnectAttemptsRef : nat;
  isManualDisconnectRef : bool;
}.

Definition initial : Hook :=
  {| connectionStatus := disconnected; error_ := None; wsRef := None;
     reconnectTimeoutRef := None; reconnectAttemptsRef := 0%nat;
     isManualDisconnectRef := false |}.

Definition clearReconnectTimeout (h : Hook) : Hook * list Effect :=
  match reconnectTimeoutRef h with
  | Some _ =>
      ({| connectionStatus := connectionStatus h; error_ := error_ h;
          wsRef := wsRef h; reconnectTimeoutRef := None;
          reconnectAttemptsRef := reconnectAttemptsRef h;
          isManualDisconnectRef := isManualDisconnectRef h |},
       [ClearTimeout])
  | None => (h, [])
  end.

(** [ws.onopen] *)
Definition onopen (h : Hook) : Hook * list Effect :=
  let h1 := {| connectionStatus := connected; error_ := None;
               wsRef := wsRef h;
               reconnectTimeoutRef := reconnectTimeoutRef h;
               reconnectAttemptsRef := 0%nat;
               isManualDisconnectRef := isManualDisconnectRef h |} in
  let '(h2, fx) := clearReconnectTimeout h1 in
  (h2, fx ++ [CallOnOpen]).

Definition permanentErrorCodes : list Z := [1002; 1003; 1005].

(** [Array.prototype.includes] on a list of integers. *)
Definition includes (l : list Z) (x : Z) : bool := existsb (Z.eqb x) l.

Definition shouldReconnect (h : Hook) (code : Z) : bool :=
  negb (isManualDisconnectRef h)
  && (reconnectAttemptsRef h <? RECONNECT_ATTEMPTS)%nat
  && negb (includes permanentErrorCodes code).

(** [Math.min(RECONNECT_INTERVAL * Math.pow(2, attempts - 1), 30000)];
    [attempts] is the counter after its increment, so it is at least 1 and
    the power is a whole number. *)
Definition backoffDelay (attempts : nat) : Z :=
  Z.min (RECONNECT_INTERVAL * 2 ^ (Z.of_nat attempts - 1)) 30000.

(** [ws.onclose] with [event.code = code] *)
Definition onclose (h : Hook) (code : Z) : Hook * list Effect :=
  if shouldReconnect h code then
    let attempts := S (reconnectAttemptsRef h) in
    ({| connectionStatus := reconnecting; error_ := error_ h;
        wsRef := None;
        reconnectTimeoutRef := Some (backoffDelay attempts);
        reconnectAttemptsRef := attempts;
        isManualDisconnectRef := isManualDisconnectRef h |},
     [CallOnClose; SetTimeout (backoffDelay attempts)])
  else if (RECONNECT_ATTEMPTS <=? reconnectAttemptsRef h)%nat then
    ({| connectionStatus := disconnected;
        error_ := Some "Connection failed after multiple attempts";
        wsRef := None;
        reconnectTimeoutRef := reconnectTimeoutRef h;
        reconnectAttemptsRef := reconnectAttemptsRef h;
        isManualDisconnectRef := isManualDisconnectRef h |},
     [CallOnClose])
  else
    ({| connectionStatus := disconnected; error_ := error_ h;
        wsRef := None;
        reconnectTimeoutRef := reconnectTimeoutRef h;
        reconnectAttemptsRef := reconnectAttemptsRef h;
        isManualDisconnectRef := isManualDisconnectRef h |},
     [CallOnClose]).

(** [connect()]; [failure] is the exception of [new WebSocket(url)], if it
    throws one. *)
Definition connect (failure : option string) (h : Hook) : Hook * list Effect :=
  match wsRef h with
  | Some OPEN => (h, [])
  | _ =>
      let fx := match wsRef h with
                | Some _ => [SocketClose None]
                | None => []
                end in
      match failure with
      | None =>
          ({| connectionStatus := connecting; error_ := None;
              wsRef := Some CONNECTING;
              reconnectTimeoutRef := reconnectTimeoutRef h;
              reconnectAttemptsRef := reconnectAttemptsRef h;
              isManualDisconnectRef := false |},
           fx ++ [NewWebSocket])
      | Some e =>
          ({| connectionStatus := error;
              error_ := Some ("Failed to initialize connection: " +:+ e);
              wsRef := None;
              reconnectTimeoutRef := reconnectTimeoutRef h;
              reconnectAttemptsRef := reconnectAttemptsRef h;
              isManualDisconnectRef := false |},
           fx ++ [NewWebSocket])
      end
  end.

(** [disconnect()] *)
Definition disconnect (h : Hook) : Hook * list Effect :=
  let '(h1, fx) :=
    clearReconnectTimeout
      {| connectionStatus := connectionStatus h; error_ := error_ h;
         wsRef := wsRef h; reconnectTimeoutRef := reconnectTimeoutRef h;
         reconnectAttemptsRef := reconnectAttemptsRef h;
         isManualDisconnectRef := true |} in
  ({| connectionStatus := disconnected; error_ := None; wsRef := None;
      reconnectTimeoutRef := reconnectTimeoutRef h1;
      reconnectAttemptsRef := reconnectAttemptsRef h1;
      isManualDisconnectRef := true |},
   fx ++ match wsRef h with
         | Some _ => [SocketClose (Some 1000)]
         | None => []
         end).

(** Did the handler arm a reconnect timer? *)
Definition schedulesReconnect (fx : list Effect) : bool :=
  existsb (fun e => match e with SetTimeout _ => true | _ => false end) fx.

(** Close codes by their RFC 6455 names.  The server rejects a failed
    authentication with [ws.close(1008, 'Authentication failed')]
    ([handlers/connection.ts]). *)
Definition CLOSE_PROTOCOL_ERROR : Z := 1002.
Definition CLOSE_UNSUPPORTED_DATA : Z := 1003.
Definition CLOSE_NO_STATUS : Z := 1005.
Definition CLOSE_POLICY_VIOLATION : Z := 1008.

End UseWebSocket.

(* ===================================================================== *)
(** * Conversation state: [apps/web/hooks/useOpenAIMessages.ts]           *)
(* ===================================================================== *)

Module UseOpenAIMessages.
Import Js.
Local Open Scope js_scope.

Inductive Sender := user | ai.
Inductive Status := sending | sent | receiving | completed | error.

Record OpenAIMessage := mkMessage {
  id : string;
  content : string;
  sender : Sender;
  timestamp : Z;
  status : Status;
}.

(** The members of an [OpenAIEvent] that the hook reads. *)
Record Item := mkItem { item_id : option string; role : option string }.
Record OpenAIEvent := mkEvent {
  etype : string;
  response_id : option string;
  delta : option string;
  text : option string;
  transcript : option string;
  item : option Item;
  error_message : option string;      (* [event.error?.message] *)
}.

(** [currentAIResponseRef.current] *)
Record CurrentResponse := mkCurrent {
  cur_id : string;
  cur_content : string;
  responseId : string;
  itemId : string;
}.

(** A frame handed to [sendWebSocketMessage]. *)
Record WebSocketMessage := mkWsMessage {
  wtype : string;
  wpayload : Value;
  wtimestamp : Z;
}.

(** The optional callbacks of the hook, by call. *)
Inductive CallbackCall :=
| OnMessage (m : OpenAIMessage)
| OnError (e : string)
| OnResponseStateChange (responding : bool)
| OnAudioChunk (audio : string)
| OnAudioTranscript (t messageId : string)
| OnResponseStart.

(** What a handler does, in order. *)
Inductive Effect :=
| Appended (m : OpenAIMessage)
| Updated (id : string) (s : option Status)
| FrameSent (f : WebSocketMessage)
| Called (c : CallbackCall).

Record Hook := mkHook {
  messages : list OpenAIMessage;
  isAIResponding : bool;
  currentAIResponseRef : option CurrentResponse;
  trace : list Effect;
}.

Definition initial : Hook :=
  {| messages := []; isAIResponding := false;
     currentAIResponseRef := None; trace := [] |}.

(** The surroundings of the hook: whether a callback throws when called
    (an absent callback does not), and what [sendWebSocketMessage] answers
    to a frame. *)
Inductive SendAnswer := Accepted | Refused | SendThrows (e : string).
Record Env := mkEnv {
  throws : CallbackCall -> bool;
  send : WebSocketMessage -> SendAnswer;
}.

Definition log (e : Effect) (h : Hook) : Hook :=
  {| messages := messages h; isAIResponding := isAIResponding h;
     currentAIResponseRef := currentAIResponseRef h;
     trace := trace h ++ [e] |}.
Definition with_messages (f : list OpenAIMessage -> list OpenAIMessage)
    (h : Hook) : Hook :=
  {| messages := f (messages h); isAIResponding := isAIResponding h;
     currentAIResponseRef := currentAIResponseRef h; trace := trace h |}.
Definition set_current (c : option CurrentResponse) (h : Hook) : Hook :=
  {| messages := messages h; isAIResponding := isAIResponding h;
     currentAIResponseRef := c; trace := trace h |}.
Definition set_responding (b : bool) (h : Hook) : Hook :=
  {| messages := messages h; isAIResponding := b;
     currentAIResponseRef := currentAIResponseRef h; trace := trace h |}.

(** [ref.current?.(args)] *)
Definition call (env : Env) (c : CallbackCall) : M Hook unit :=
  modify (log (Called c)) ;;
  if throws env c then throw "callback failed" else ret tt.

Definition addMessage (env : Env) (m : OpenAIMessage) : M Hook unit :=
  modify (with_messages (fun prev => prev ++ [m])) ;;
  modify (log (Appended m)) ;;
  call env (OnMessage m).

(** [Partial<OpenAIMessage>], as far as the hook uses it. *)
Record Updates := mkUpdates {
  new_content : option string;
  new_status : option Status;
}.

Definition apply_updates (u : Updates) (m : OpenAIMessage) : OpenAIMessage :=
  {| id := id m;
     content := default (content m) (new_content u);
     sender := sender m;
     timestamp := timestamp m;
     status := default (status m) (new_status u) |}.

Definition updateMessage (mid : string) (u : Updates) : M Hook unit :=
  modify (with_messages (List.map (fun m =>
    if String.eqb (id m) mid then apply_updates u m else m))) ;;
  modify (log (Updated mid (new_status u))).

Definition updateAIRespondingState (env : Env) (responding : bool)
    : M Hook unit :=
  modify (set_responding responding) ;;
  call env (OnResponseStateChange responding).

(** A string is a sequence of code units below 256; of these,
    [String.prototype.trim] strips tab, line feed, vertical tab, form feed,
    carriage return, space and no-break space. *)
Definition is_space (c : ascii) : bool :=
  let n := nat_of_ascii c in
  ((9 <=? n) && (n <=? 13) || (n =? 32) || (n =? 160))%nat.

Fixpoint trimStart (s : string) : string :=
  match s with
  | String c rest => if is_space c then trimStart rest else s
  | EmptyString => EmptyString
  end.

Fixpoint trimEnd (s : string) : string :=
  match s with
  | String c rest =>
      match trimEnd rest with
      | EmptyString => if is_space c then EmptyString else String c EmptyString
      | t => String c t
      end
  | EmptyString => EmptyString
  end.

Definition trim (s : string) : string := trimEnd (trimStart s).

Definition conversationEvent (now : Z) (txt : string) : WebSocketMessage :=
  {| wtype := "openai_event";
     wpayload :=
       Obj [("type", Str "conversation.item.create");
            ("item", Obj [("type", Str "message");
                          ("role", Str "user");
                          ("content",
                           Arr [Obj [("type", Str "input_text");
                                     ("text", Str (trim txt))]])])];
     wtimestamp := now |}.

Definition responseEvent (now : Z) : WebSocketMessage :=
  {| wtype := "openai_event";
     wpayload :=
       Obj [("type", Str "response.create");
            ("response", Obj [("modalities", Arr [Str "text"])])];
     wtimestamp := now |}.

(** [sendWebSocketMessage(frame)] *)
Definition sendWebSocketMessage (env : Env) (f : WebSocketMessage)
    : M Hook bool :=
  modify (log (FrameSent f)) ;;
  match send env f with
  | Accepted => ret true
  | Refused => ret false
  | SendThrows e => throw e
  end.

Definition status_only (s : Status) : Updates :=
  {| new_content := None; new_status := Some s |}.

(** [sendTextMessage(text)]; [mid] is the identifier that
    [generateMessageId('user')] draws. *)
Definition sendTextMessage (env : Env) (now : Z) (mid : string) (txt : string)
    : M Hook unit :=
  if String.eqb (trim txt) "" then
    call env (OnError "Message cannot be empty")
  else if (1000 <? String.length txt)%nat then
    call env (OnError "Message is too long. Please keep it under 1000 characters.")
  else
    addMessage env {| id := mid; content := trim txt; sender := user;
                      timestamp := now; status := sending |} ;;
    try_catch
      (conversationSent <- sendWebSocketMessage env (conversationEvent now txt) ;;
       if conversationSent : bool then
         updateMessage mid (status_only sent) ;;
         responseSent <- sendWebSocketMessage env (responseEvent now) ;;
         if responseSent : bool then updateAIRespondingState env true
         else
           updateMessage mid (status_only error) ;;
           call env (OnError "Failed to request AI response")
       else
         updateMessage mid (status_only error) ;;
         call env (OnError "Failed to send message to server"))
      (fun e =>
         updateMessage mid (status_only error) ;;
         call env (OnError ("Failed to send message: " +:+ e))).

(** [x] where the code tests [if (x)] on an optional string. *)
Definition present (o : option string) : option string :=
  match o with
  | Some s => if String.eqb s "" then None else Some s
  | None => None
  end.

(** A streaming delta of text or of the audio transcript. *)
Definition onDelta (ev : OpenAIEvent) : M Hook unit :=
  cur <- gets currentAIResponseRef ;;
  match cur, present (delta ev) with
  | Some r, Some d =>
      let r' := {| cur_id := cur_id r; cur_content := cur_content r +:+ d;
                   responseId := responseId r; itemId := itemId r |} in
      modify (set_current (Some r')) ;;
      updateMessage (cur_id r')
        {| new_content := Some (cur_content r'); new_status := Some receiving |}
  | _, _ => ret tt
  end.

Definition clearCurrent (u : CurrentResponse -> Updates) : M Hook unit :=
  cur <- gets currentAIResponseRef ;;
  match cur with
  | Some r => updateMessage (cur_id r) (u r) ;; modify (set_current None)
  | None => ret tt
  end.

(** [handleOpenAIEvent(event)]; [mid] is the identifier that
    [generateMessageId('ai')] draws if the event announces a new item. *)
Definition handleOpenAIEvent (env : Env) (now : Z) (mid : string)
    (ev : OpenAIEvent) : M Hook unit :=
  let ty := etype ev in
  try_catch
    (if String.eqb ty "response.created" then
       updateAIRespondingState env true ;;
       call env OnResponseStart
     else if String.eqb ty "response.output_item.added" then
       match item ev with
       | Some it =>
           if bool_decide (role it = Some "assistant") then
             modify (set_current (Some
               {| cur_id := mid; cur_content := "";
                  responseId := default "" (response_id ev);
                  itemId := default "" (item_id it) |})) ;;
             addMessage env {| id := mid; content := ""; sender := ai;
                               timestamp := now; status := receiving |}
           else ret tt
       | None => ret tt
       end
     else if String.eqb ty "response.text.delta" then onDelta ev
     else if String.eqb ty "response.text.done" then
       cur <- gets currentAIResponseRef ;;
       match cur, present (text ev) with
       | Some r, Some t =>
           updateMessage (cur_id r)
             {| new_content := Some t; new_status := Some completed |}
       | _, _ => ret tt
       end
     else if String.eqb ty "response.audio.delta" then
       match present (delta ev) with
       | Some d => call env (OnAudioChunk d)
       | None => ret tt
       end
     else if String.eqb ty "response.audio_transcript.delta" then onDelta ev
     else if String.eqb ty "response.audio_transcript.done" then
       cur <- gets currentAIResponseRef ;;
       match cur, present (transcript ev) with
       | Some r, Some t =>
           updateMessage (cur_id r)
             {| new_content := Some t; new_status := Some completed |} ;;
           call env (OnAudioTranscript t (cur_id r))
       | _, _ => ret tt
       end
     else if String.eqb ty "response.done" then
       updateAIRespondingState env false ;;
       clearCurrent (fun _ => status_only completed)
     else if String.eqb ty "error" then
       updateAIRespondingState env false ;;
       call env (OnError (default "Unknown OpenAI error occurred"
                            (present (error_message ev)))) ;;
       clearCurrent (fun r =>
         {| new_content :=
              Some (default "Error generating response"
                      (present (Some (cur_content r))));
            new_status := Some error |})
     else ret tt)
    (fun e =>
       call env (OnError ("Event processing error: " +:+ e)) ;;
       clearCurrent (fun _ => status_only error) ;;
       updateAIRespondingState env false).

(** [clearMessages()] *)
Definition clearMessages (env : Env) : M Hook unit :=
  modify (with_messages (fun _ => [])) ;;
  modify (set_current None) ;;
  updateAIRespondingState env false.

End UseOpenAIMessages.

(* ===================================================================== *)
(** * Audio chunks: [useRealTimeAudio.ts] (capture), [useAudioPlayer.ts]
      (playback)                                                          *)
(* ===================================================================== *)

Module Audio.
Import Js.
Local Open Scope js_scope.

(** ** Samples

    A finite [Float32Array] element is a rational number, and the
    arithmetic of the encoder on it is exact in double precision (a
    24-bit significand times a 15- or 16-bit integer).  Samples are
    therefore rationals.  The decoder divides two integers in double
    precision and stores the quotient into a [Float32Array]; both
    roundings (to the nearest, ties to even) are written out below. *)

(** A binary floating-point number, [significand * 2 ^ exponent].  The
    range of the exponent is left open: the quotients of the decoder are
    zero or lie between 2^-15 and 1, far from overflow and underflow. *)
Record Float := mkFloat { significand : Z; exponent : Z }.

Definition value (f : Float) : Q :=
  if 0 <=? exponent f then inject_Z (significand f * 2 ^ exponent f)
  else significand f # Z.to_pos (2 ^ (- exponent f)).


(** The integer nearest to [q + r / d], ties to the even one. *)
Definition nearest_even (q r d : Z) : Z :=
  match 2 * r ?= d with
  | Lt => q
  | Gt => q + 1
  | Eq => if Z.even q then q else q + 1
  end.

(** The binary order of magnitude of [n / d], for positive [n] and [d]:
    the [k] with [2 ^ k <= n / d < 2 ^ (k + 1)]. *)
Definition magnitude (n d : Z) : Z :=
  let k := Z.log2 n - Z.log2 d in
  if (if 0 <=? k then d * 2 ^ k <=? n else d <=? n * 2 ^ (- k))
  then k else k - 1.

(** [n / d] on two integers, [d] positive, rounded to [prec] bits. *)
Definition divide (prec : Z) (n d : Z) : Float :=
  if n =? 0 then mkFloat 0 0
  else
    let e := magnitude (Z.abs n) d - (prec - 1) in
    let (N, D) := if 0 <=? e then (Z.abs n, Z.shiftl d e)
                  else (Z.shiftl (Z.abs n) (- e), d) in
    let (q, r) := Z.div_eucl N D in
    mkFloat (Z.sgn n * nearest_even q r D) e.

(** A number rounded to [prec] bits of significand: the low bits beyond
    them are dropped and the rest rounded. *)
Definition narrow (prec : Z) (f : Float) : Float :=
  let m := Z.abs (significand f) in
  let s := Z.log2 m + 1 - prec in
  if s <=? 0 then f
  else
    let q := Z.shiftr m s in
    mkFloat (Z.sgn (significand f) * nearest_even q (m - Z.shiftl q s) (2 ^ s))
            (exponent f + s).

(** [Math.max(-1, Math.min(1, x))] *)
Definition clamp (x : Q) : Q := Qmax (-1) (Qmin 1 x).

(** [sample < 0 ? sample * 0x8000 : sample * 0x7FFF] *)
Definition scale (sample : Q) : Q :=
  if Qle_bool 0 sample then (sample * 32767)%Q else (sample * 32768)%Q.

(** The conversion that [DataView.prototype.setInt16] applies to its
    argument: drop the fraction, wrap modulo 2^16. *)
Definition truncate (v : Q) : Z := Z.quot (Qnum v) (Zpos (Qden v)).
Definition toUint16 (v : Q) : Z := truncate v mod 65536.

(** [view.setInt16(i * 2, pcmSample, true)]: low byte first. *)
Definition setInt16_le (v : Q) : list Z :=
  let u := toUint16 v in [u mod 256; u / 256].

Definition pcm16_bytes (audioData : list Q) : list Z :=
  flat_map (fun x => setInt16_le (scale (clamp x))) audioData.

(** The loop that builds the binary string from [chunkSize] bytes at a
    time; [fuel] bounds its passes. *)
Definition chunkSize : nat := Z.to_nat 32768.

Fixpoint binary_of_chunks (fuel : nat) (bytes : list Z) : list Z :=
  match fuel with
  | O => []
  | S fuel' =>
      match bytes with
      | [] => []
      | _ => firstn chunkSize bytes
             ++ binary_of_chunks fuel' (skipn chunkSize bytes)
      end
  end.

(** ** Base64: [btoa], [atob] *)

Definition alphabet : string :=
  "ABCDEFGHIJKLMNOPQRSTUVWXYZabcdefghijklmnopqrstuvwxyz0123456789+/".

Definition pad : ascii := "="%char.

Definition b64char (i : Z) : ascii :=
  default pad (String.get (Z.to_nat i) alphabet).

Fixpoint index_of (c : ascii) (s : string) (i : Z) : option Z :=
  match s with
  | EmptyString => None
  | String c' rest =>
      if Ascii.eqb c c' then Some i else index_of c rest (i + 1)
  end.

Definition b64index (c : ascii) : option Z := index_of c alphabet 0.

Fixpoint encode_groups (bytes : list Z) : list ascii :=
  match bytes with
  | a :: b :: c :: rest =>
      b64char (a / 4) :: b64char (a mod 4 * 16 + b / 16)
      :: b64char (b mod 16 * 4 + c / 64) :: b64char (c mod 64)
      :: encode_groups rest
  | [a; b] =>
      [b64char (a / 4); b64char (a mod 4 * 16 + b / 16);
       b64char (b mod 16 * 4); pad]
  | [a] => [b64char (a / 4); b64char (a mod 4 * 16); pad; pad]
  | [] => []
  end.

(** [btoa(binary)]: a code unit above 255 is an error. *)
Definition btoa (binary : list Z) : outcome string :=
  if forallb (fun b => (0 <=? b) && (b <? 256)) binary
  then Return (string_of_list_ascii (encode_groups binary))
  else Throw "InvalidCharacterError".

(** [convertToPCM16] *)
Definition convertToPCM16 (audioData : list Q) : outcome string :=
  let bytes := pcm16_bytes audioData in
  btoa (binary_of_chunks (List.length bytes) bytes).

Definition is_ascii_whitespace (c : ascii) : bool :=
  let n := nat_of_ascii c in
  ((n =? 9) || (n =? 10) || (n =? 12) || (n =? 13) || (n =? 32))%nat.

(** Drop one or two trailing [=] of a text whose length is a multiple of
    four. *)
Definition strip_padding (l : list ascii) : list ascii :=
  if (List.length l mod 4 =? 0)%nat then
    match rev l with
    | p1 :: p2 :: r =>
        if Ascii.eqb p1 pad then
          if Ascii.eqb p2 pad then rev r else rev (p2 :: r)
        else l
    | [p1] => if Ascii.eqb p1 pad then [] else l
    | [] => l
    end
  else l.

Fixpoint sextets (l : list ascii) : option (list Z) :=
  match l with
  | [] => Some []
  | c :: rest =>
      match b64index c, sextets rest with
      | Some i, Some tl => Some (i :: tl)
      | _, _ => None
      end
  end.

Fixpoint decode_groups (s : list Z) : list Z :=
  match s with
  | a :: b :: c :: d :: rest =>
      (a * 4 + b / 16) :: (b mod 16 * 16 + c / 4) :: (c mod 4 * 64 + d)
      :: decode_groups rest
  | [a; b; c] => [a * 4 + b / 16; b mod 16 * 16 + c / 4]
  | [a; b] => [a * 4 + b / 16]
  | _ => []
  end.

(** [atob(text)], the forgiving decoding of the HTML standard. *)
Definition atob (text : string) : outcome (list Z) :=
  let l := List.filter (fun c => negb (is_ascii_whitespace c))
             (list_ascii_of_string text) in
  let l := strip_padding l in
  if (List.length l mod 4 =? 1)%nat then Throw "InvalidCharacterError"
  else match sextets l with
       | Some s => Return (decode_groups s)
       | None => Throw "InvalidCharacterError"
       end.

(** [view.getInt16(i * 2, true)] *)
Definition getInt16_le (lo hi : Z) : Z :=
  let u := lo + 256 * hi in
  if u <? 32768 then u else u - 65536.

(** [channelData[i] = sample / (sample < 0 ? 0x8000 : 0x7FFF)]: the
    quotient is a double, and the store keeps the nearest float. *)
Definition unscale (sample : Z) : Q :=
  value (narrow 24 (divide 53 sample (if sample <? 0 then 32768 else 32767))).

(** The loop over [channelData]; a last odd byte has no sample. *)
Fixpoint samples_of_bytes (bytes : list Z) : list Q :=
  match bytes with
  | lo :: hi :: rest => unscale (getInt16_le lo hi) :: samples_of_bytes rest
  | _ => []
  end.

(** [decodeAudioData]: [createBuffer] rejects a length of zero frames, and
    every failure is rethrown under one message. *)
Definition decodeAudioData (base64Audio : string) : outcome (list Q) :=
  match atob base64Audio with
  | Throw _ => Throw "Failed to decode audio data"
  | Return bytes =>
      if (List.length bytes / 2 =? 0)%nat
      then Throw "Failed to decode audio data"
      else Return (samples_of_bytes bytes)
  end.

(** ** Capture: [stopCapture] *)

Inductive AudioState := idle | requesting_permission | capturing | error.

Inductive Effect :=
| CancelAnimationFrame (handle : Z)
| TrackStop
| AudioContextClose
| CalledOnCaptureStop.

(** State cells and refs of the capture hook; [trace] lists what was done
    to the browser. *)
Record Capture := mkCapture {
  audioState : AudioState;
  hasPermission : option bool;
  audioLevel : Z;
  error_ : option string;
  streamRef : bool;              (* a [MediaStream] is held *)
  audioContextRef : bool;        (* an [AudioContext] is held *)
  analyserRef : bool;
  processorRef : bool;
  animationFrameRef : option Z;
  audioStateRef : AudioState;
  trace : list Effect;
}.

Definition cleanup (c : Capture) : Capture :=
  let frame := match animationFrameRef c with
               | Some n => negb (n =? 0)
               | None => false
               end in
  {| audioState := audioState c;
     hasPermission := hasPermission c;
     audioLevel := 0;
     error_ := error_ c;
     streamRef := false;
     audioContextRef := false;
     analyserRef := false;
     processorRef := false;
     animationFrameRef := if frame then None else animationFrameRef c;
     audioStateRef := audioStateRef c;
     trace := trace c
              ++ (if frame
                  then [CancelAnimationFrame (default 0 (animationFrameRef c))]
                  else [])
              ++ (if streamRef c then [TrackStop] else [])
              ++ (if audioContextRef c then [AudioContextClose] else []) |}.

Definition setAudioState (a : AudioState) (c : Capture) : Capture :=
  {| audioState := a; hasPermission := hasPermission c;
     audioLevel := audioLevel c; error_ := error_ c;
     streamRef := streamRef c; audioContextRef := audioContextRef c;
     analyserRef := analyserRef c; processorRef := processorRef c;
     animationFrameRef := animationFrameRef c;
     audioStateRef := audioStateRef c; trace := trace c |}.

Definition logEffect (e : Effect) (c : Capture) : Capture :=
  {| audioState := audioState c; hasPermission := hasPermission c;
     audioLevel := audioLevel c; error_ := error_ c;
     streamRef := streamRef c; audioContextRef := audioContextRef c;
     analyserRef := analyserRef c; processorRef := processorRef c;
     animationFrameRef := animationFrameRef c;
     audioStateRef := audioStateRef c; trace := trace c ++ [e] |}.

(** The effect that copies the state into [audioStateRef] after a render. *)
Definition render (c : Capture) : Capture :=
  {| audioState := audioState c; hasPermission := hasPermission c;
     audioLevel := audioLevel c; error_ := error_ c;
     streamRef := streamRef c; audioContextRef := audioContextRef c;
     analyserRef := analyserRef c; processorRef := processorRef c;
     animationFrameRef := animationFrameRef c;
     audioStateRef := audioState c; trace := trace c |}.

(** [stopCapture()].  The callback closes over the [audioState] of the
    render that made it, [seen]; [onCaptureStopThrows] says whether the
    optional callback throws. *)
Definition stopCapture (onCaptureStopThrows : bool) (seen : AudioState)
    : M Capture unit :=
  match seen with
  | capturing =>
      modify cleanup ;;
      modify (setAudioState idle) ;;
      modify (logEffect CalledOnCaptureStop) ;;
      if onCaptureStopThrows then throw "onCaptureStop failed" else ret tt
  | _ => ret tt
  end.

(** What the hook holds, apart from the log. *)
Definition cells (c : Capture) :=
  (audioState c, hasPermission c, audioLevel c, error_ c,
   (streamRef c, audioContextRef c, analyserRef c, processorRef c),
   animationFrameRef c, audioStateRef c).

End Audio.

(* ===================================================================== *)
(** * Properties                                                          *)
(* ===================================================================== *)

(** ** Session registry *)

Section SessionRegistry.
Import SessionService.

Lemma endSession_delete (sid : string) (reg : gmap string Session) :
  endSession sid reg = delete sid reg.
Proof.
  unfold endSession. destruct (reg !! sid) eqn:E; [reflexivity|].
  symmetry. apply delete_id. exact E.
Qed.

Lemma updateActivity_dom (now : Z) (sid : string) (reg : gmap string Session) :
  dom (updateActivity now sid reg) = dom reg.
Proof.
  unfold updateActivity. destruct (reg !! sid) eqn:E; [|done].
  rewrite dom_insert_L. apply elem_of_dom_2 in E.
  apply subseteq_union_1_L, singleton_subseteq_l, E.
Qed.

(** C6.  [getSession] on a stored session whose inactivity exceeds the
    thirty minutes answers [null] and takes the session out of the map, so
    that the session is gone for every later [getSession]; on a stored
    session that has not expired it answers that very session and leaves
    the registry as it was; whatever session it answers has not expired. *)
Theorem getSession_timeout (now : Z) (sid : string)
    (reg : gmap string Session) :
  (forall s, reg !! sid = Some s -> 30 * 60 * 1000 < now - lastActivity s ->
     getSession now sid reg = (None, delete sid reg)
     /\ (forall later, fst (getSession later sid (delete sid reg)) = None))
  /\ (forall s, reg !! sid = Some s -> now - lastActivity s <= 30 * 60 * 1000 ->
        getSession now sid reg = (Some s, reg))
  /\ (forall s, fst (getSession now sid reg) = Some s ->
        reg !! sid = Some s /\ now - lastActivity s <= 30 * 60 * 1000).
Proof.
  unfold getSession, isSessionExpired, sessionTimeout.
  split; [|split].
  - intros s Hs Hexp. rewrite Hs.
    destruct (Z.ltb_spec (30 * 60 * 1000) (now - lastActivity s)); [|lia].
    rewrite endSession_delete. split; [reflexivity|].
    intros later. by rewrite lookup_delete_eq.
  - intros s Hs Hlive. rewrite Hs.
    destruct (Z.ltb_spec (30 * 60 * 1000) (now - lastActivity s));
      [lia|reflexivity].
  - intros s Hget. destruct (reg !! sid) as [s'|] eqn:E; [|discriminate].
    destruct (Z.ltb_spec (30 * 60 * 1000) (now - lastActivity s'));
      simpl in Hget; [discriminate|].
    injection Hget as <-. split; [reflexivity|lia].
Qed.

Definition sampleSession : Session :=
  {| id := "sess_1"; userId := "u"; connectionId := "conn_1";
     createdAt := 0; lastActivity := 1000; status := active |}.

Lemma getSession_timeout_witness :
  getSession 1801001 "sess_1" {["sess_1" := sampleSession]}
    = (None, delete "sess_1" {["sess_1" := sampleSession]})
  /\ getSession 1801000 "sess_1" {["sess_1" := sampleSession]}
    = (Some sampleSession, {["sess_1" := sampleSession]})
  /\ 1801000 - lastActivity sampleSession <= 30 * 60 * 1000.
Proof.
  split; [|split].
  - apply (proj1 (getSession_timeout 1801001 "sess_1"
                    {["sess_1" := sampleSession]}) sampleSession).
    + apply lookup_singleton_eq.
    + simpl. lia.
  - apply (proj1 (proj2 (getSession_timeout 1801000 "sess_1"
                           {["sess_1" := sampleSession]})) sampleSession).
    + apply lookup_singleton_eq.
    + simpl. lia.
  - apply (proj2 (proj2 (getSession_timeout 1801000 "sess_1"
                           {["sess_1" := sampleSession]})) sampleSession).
    unfold getSession. rewrite lookup_singleton_eq. reflexivity.
Defined.

End SessionRegistry.

(** ** Client connection hook *)

Section Reconnect.
Import UseWebSocket.

Lemma onclose_schedules (h : Hook) (code : Z) :
  schedulesReconnect (snd (onclose h code)) = shouldReconnect h code.
Proof.
  unfold onclose. destruct (shouldReconnect h code); [done|].
  by destruct (RECONNECT_ATTEMPTS <=? reconnectAttemptsRef h)%nat.
Qed.

(** C1 as the design document words it fails: a close with the
    policy-violation code, on a hook that was not closed by hand and has
    attempts left, arms the reconnect timer. *)
Lemma onclose_policy_violation_reconnects :
  isManualDisconnectRef initial = false
  /\ (reconnectAttemptsRef initial < RECONNECT_ATTEMPTS)%nat
  /\ schedulesReconnect (snd (onclose initial CLOSE_POLICY_VIOLATION)) = true
  /\ ~ (forall h, schedulesReconnect
                    (snd (onclose h CLOSE_POLICY_VIOLATION)) = false).
Proof.
  repeat split; try (cbv; lia).
  intros H. specialize (H initial). discriminate H.
Qed.

(** C1, amended.  A close event arms the reconnect timer exactly when the
    closure was not manual, the attempt counter is below the maximum, and
    the close code is none of 1002 (protocol error), 1003 (unsupported
    data), 1005 (no status). *)
Theorem onclose_reconnect_iff (h : Hook) (code : Z) :
  schedulesReconnect (snd (onclose h code)) = true
  <-> isManualDisconnectRef h = false
      /\ (reconnectAttemptsRef h < RECONNECT_ATTEMPTS)%nat
      /\ code <> CLOSE_PROTOCOL_ERROR
      /\ code <> CLOSE_UNSUPPORTED_DATA
      /\ code <> CLOSE_NO_STATUS.
Proof.
  rewrite onclose_schedules. unfold shouldReconnect, includes,
    permanentErrorCodes, CLOSE_PROTOCOL_ERROR, CLOSE_UNSUPPORTED_DATA,
    CLOSE_NO_STATUS. simpl.
  destruct (isManualDisconnectRef h); simpl.
  - split; [discriminate|]. intros [? _]. discriminate.
  - destruct (Nat.ltb_spec (reconnectAttemptsRef h) RECONNECT_ATTEMPTS);
      simpl.
    + destruct (Z.eqb_spec code 1002), (Z.eqb_spec code 1003),
        (Z.eqb_spec code 1005); simpl; split; try discriminate;
        try (intros (_ & _ & ? & ? & ?); congruence); intros _;
        repeat split; assumption.
    + split; [discriminate|]. intros (_ & ? & _). lia.
Qed.

Lemma onclose_reconnect_iff_witness :
  schedulesReconnect (snd (onclose initial 1006)) = true.
Proof.
  apply (proj2 (onclose_reconnect_iff initial 1006)).
  repeat split; try discriminate. unfold RECONNECT_ATTEMPTS. simpl. lia.
Defined.

(** C4.  The [n]-th reconnection attempt in a row, for [n] from 1 to the
    maximum, is scheduled after [min(base * 2^(n-1), 30000)] milliseconds
    and brings the counter to [n]; an [open] event puts the counter back
    to 0, whatever it was. *)
Theorem backoff_delay (h : Hook) (code : Z) (n : nat) :
  (1 <= n <= RECONNECT_ATTEMPTS)%nat ->
  reconnectAttemptsRef h = (n - 1)%nat ->
  shouldReconnect h code = true ->
  snd (onclose h code)
    = [CallOnClose;
       SetTimeout (Z.min (RECONNECT_INTERVAL * 2 ^ (Z.of_nat n - 1)) 30000)]
  /\ reconnectAttemptsRef (fst (onclose h code)) = n
  /\ forall h', reconnectAttemptsRef (fst (onopen h')) = 0%nat.
Proof.
  intros Hn Hc Hs. unfold onclose. rewrite Hs. cbn [fst snd].
  rewrite Hc. replace (S (n - 1)) with n by lia.
  split; [reflexivity|]. split; [reflexivity|].
  intros h'. unfold onopen, clearReconnectTimeout. cbn.
  by destruct (reconnectTimeoutRef h').
Qed.

Lemma backoff_delay_witness :
  snd (onclose initial 1006) = [CallOnClose; SetTimeout 2000]
  /\ reconnectAttemptsRef (fst (onclose initial 1006)) = 1%nat
  /\ forall h', reconnectAttemptsRef (fst (onopen h')) = 0%nat.
Proof.
  apply (backoff_delay initial 1006 1).
  - unfold RECONNECT_ATTEMPTS. lia.
  - reflexivity.
  - reflexivity.
Defined.

(** The delays of the five attempts. *)
Example backoff_delays :
  List.map backoffDelay [1; 2; 3; 4; 5]%nat
  = [2000; 4000; 8000; 16000; 30000].
Proof. reflexivity. Qed.

End Reconnect.

(** ** Message router *)

Section MessageRouter.
Import Js Gateway Router.

Lemma not_recognised (t : string) :
  t ∉ recognised ->
  String.eqb t "ping" = false /\ String.eqb t "openai_event" = false
  /\ String.eqb t "text_message" = false /\ String.eqb t "audio_data" = false
  /\ String.eqb t "audio_commit" = false /\ String.eqb t "audio_clear" = false.
Proof.
  unfold recognised. intros H.
  repeat (apply not_elem_of_cons in H; destruct H as [?%String.eqb_neq H]).
  repeat split; assumption.
Qed.

Lemma socket_send_open (f : Frame) (sock : Socket) :
  closed sock = None ->
  socket_send f sock
    = {| outbox := outbox sock ++ [f]; closed := None;
         listeners := listeners sock |}.
Proof. intros H. unfold socket_send. by rewrite H. Qed.

Lemma updateActivity_status (now : Z) (sid k : string)
    (reg : gmap string SessionService.Session) (s : SessionService.Session) :
  reg !! k = Some s ->
  exists s', SessionService.updateActivity now sid reg !! k = Some s'
             /\ SessionService.status s' = SessionService.status s.
Proof.
  intros Hk. unfold SessionService.updateActivity.
  destruct (reg !! sid) as [s0|] eqn:E; [|eauto].
  destruct (decide (sid = k)) as [->|Hne].
  - rewrite lookup_insert_eq. eexists; split; [reflexivity|].
    rewrite Hk in E. by injection E as ->.
  - rewrite lookup_insert_ne by done. eauto.
Qed.

(** C7.  A frame that is not JSON is answered with the error frame
    "Invalid message format"; a frame that is a JSON object whose [type] is a
    string other than the recognised ones is answered with the error frame
    "Unknown message type: <type>".  In both cases the handler returns, the
    inbound socket is not closed, and every session of the registry is still
    there with its status. *)
Theorem handleMessage_error_replies (now : Z) (eids : nat -> string) (ws : nat)
    (context : ConnectionContext) (service : nat) (srv : Server)
    (sock : Socket) :
  sockets srv !! ws = Some sock ->
  closed sock = None ->
  (forall text,
     let r := handleMessage now eids ws (Malformed text) context service srv in
     snd r = Return tt
     /\ sockets (fst r) !! ws
        = Some {| outbox := outbox sock
                    ++ [{| ftype := "error";
                           payload :=
                             Obj [("message", Str "Invalid message format")];
                           timestamp := now;
                           fsession := sessionId context |}];
                  closed := None; listeners := listeners sock |}
     /\ sessions (fst r) = sessions srv)
  /\ (forall fields t,
        assoc "type" fields = Some (Str t) ->
        t ∉ recognised ->
        let r := handleMessage now eids ws (WellFormed (Obj fields)) context
                   service srv in
        snd r = Return tt
        /\ sockets (fst r) !! ws
           = Some {| outbox := outbox sock
                       ++ [{| ftype := "error";
                              payload :=
                                Obj [("message",
                                      Str ("Unknown message type: " +:+ t))];
                              timestamp := now;
                              fsession := sessionId context |}];
                     closed := None; listeners := listeners sock |}
        /\ dom (sessions (fst r)) = dom (sessions srv)
        /\ (forall k s, sessions srv !! k = Some s ->
              exists s', sessions (fst r) !! k = Some s'
                         /\ SessionService.status s' = SessionService.status s)).
Proof.
  intros Hsock Hopen. split.
  - intros text r. subst r. cbn.
    rewrite lookup_alter_eq, Hsock. cbn. rewrite socket_send_open by done.
    done.
  - intros fields t Hty Hnot r. subst r.
    destruct (not_recognised t Hnot) as (E1 & E2 & E3 & E4 & E5 & E6).
    unfold handleMessage, try_catch, bind, lift, JSON_parse, get.
    rewrite Hty. cbn -[String.eqb]. rewrite E1. cbn -[String.eqb].
    rewrite E2. cbn -[String.eqb].
    unfold handleLegacyMessage, try_catch. cbn -[String.eqb].
    rewrite E3, E4, E5, E6. cbn.
    rewrite lookup_alter_eq, Hsock. cbn. rewrite socket_send_open by done.
    split; [done|]. split; [done|]. split.
    + apply updateActivity_dom.
    + intros k s Hk. by apply updateActivity_status.
Qed.

Definition openSocket : Socket :=
  {| outbox := []; closed := None; listeners := None |}.
Definition sampleContext : ConnectionContext :=
  {| sessionId := "sess_1"; userId := "u"; authenticated := false;
     connectionTime := 0 |}.
Definition sampleServer : Server :=
  {| sessions := {["sess_1" := sampleSession]};
     heap := {[0%nat := OpenAIRealtimeService.create]};
     openaiServices := {["sess_1" := 0%nat]};
     connectionContexts := {[7%nat := sampleContext]};
     sockets := {[7%nat := openSocket]} |}.

Lemma handleMessage_error_replies_witness :
  sockets (fst (handleMessage 5 (fun _ => "e") 7 (Malformed "{") sampleContext
                  0 sampleServer)) !! 7%nat
    = Some {| outbox := [{| ftype := "error";
                            payload :=
                              Obj [("message", Str "Invalid message format")];
                            timestamp := 5; fsession := "sess_1" |}];
              closed := None; listeners := None |}
  /\ sockets (fst (handleMessage 5 (fun _ => "e") 7
                     (WellFormed (Obj [("type", Str "hello")])) sampleContext
                     0 sampleServer)) !! 7%nat
     = Some {| outbox := [{| ftype := "error";
                             payload :=
                               Obj [("message",
                                     Str "Unknown message type: hello")];
                             timestamp := 5; fsession := "sess_1" |}];
               closed := None; listeners := None |}.
Proof.
  pose proof (handleMessage_error_replies 5 (fun _ => "e") 7 sampleContext 0
                sampleServer openSocket (lookup_singleton_eq _ _) eq_refl)
    as [Hbad Hunknown].
  split.
  - exact (proj1 (proj2 (Hbad "{"))).
  - refine (proj1 (proj2 (Hunknown [("type", Str "hello")] "hello" eq_refl _))).
    unfold recognised. intros H.
    repeat (apply elem_of_cons in H; destruct H as [H|H]; [discriminate H|]).
    by apply elem_of_nil in H.
Defined.

Lemma sendEvent_not_connected (eid : string) (event : Value)
    (svc : OpenAIRealtimeService.Service) :
  OpenAIRealtimeService.isConnected svc = false ->
  OpenAIRealtimeService.sendEvent eid event svc
    = (svc, Throw "Not connected to OpenAI Realtime API").
Proof.
  intros H. unfold OpenAIRealtimeService.sendEvent, bind, gets. cbn.
  rewrite H. reflexivity.
Qed.

(** C10.  A JSON object of type [openai_event] with a truthy payload, whose
    forwarding to the upstream client throws, is answered with the error
    frame "Invalid message format", the frame that a text which is not JSON
    gets; the handler returns, the inbound socket stays open and the
    registry keeps its sessions. *)
Theorem forwarding_failure_reply (now : Z) (eids : nat -> string) (ws : nat)
    (context : ConnectionContext) (service : nat) (srv : Server)
    (sock : Socket) (svc : OpenAIRealtimeService.Service)
    (fields : list (string * Value)) (body : Value) (e : string) :
  sockets srv !! ws = Some sock ->
  closed sock = None ->
  heap srv !! service = Some svc ->
  assoc "type" fields = Some (Str "openai_event") ->
  assoc "payload" fields = Some body ->
  truthy body = true ->
  snd (OpenAIRealtimeService.sendEvent (eids 0%nat) body svc) = Throw e ->
  let r := handleMessage now eids ws (WellFormed (Obj fields)) context
             service srv in
  snd r = Return tt
  /\ sockets (fst r) !! ws
     = Some {| outbox := outbox sock
                 ++ [{| ftype := "error";
                        payload :=
                          Obj [("message", Str "Invalid message format")];
                        timestamp := now;
                        fsession := sessionId context |}];
               closed := None; listeners := listeners sock |}
  /\ (forall text,
        sockets (fst (handleMessage now eids ws (Malformed text) context
                        service srv)) !! ws
        = sockets (fst r) !! ws)
  /\ dom (sessions (fst r)) = dom (sessions srv).
Proof.
  intros Hsock Hopen Hheap Hty Hbody Htruthy Hthrow r.
  assert (Hr : r = (with_sockets
                      (alter (socket_send
                                (errorFrame now context "Invalid message format"))
                         ws)
                      (with_heap (<[service :=
                         fst (OpenAIRealtimeService.sendEvent (eids 0%nat) body
                                svc)]>)
                         (with_sessions
                            (SessionService.updateActivity now
                               (sessionId context)) srv)),
                    Return tt)).
  { subst r. unfold handleMessage, try_catch, bind, lift, JSON_parse, get.
    rewrite Hty, Hbody. cbn -[OpenAIRealtimeService.sendEvent].
    rewrite Htruthy. unfold on_service.
    cbn -[OpenAIRealtimeService.sendEvent]. rewrite Hheap.
    destruct (OpenAIRealtimeService.sendEvent (eids 0%nat) body svc)
      as [svc' o] eqn:E.
    cbn in Hthrow. subst o. reflexivity. }
  rewrite Hr. cbn [fst snd with_sockets with_heap with_sessions sockets
                   sessions].
  rewrite lookup_alter_eq, Hsock. cbn [fmap option_fmap option_map].
  rewrite socket_send_open by done.
  split; [done|]. split; [done|]. split.
  - intros text. cbn. rewrite lookup_alter_eq, Hsock. cbn.
    by rewrite socket_send_open.
  - apply updateActivity_dom.
Qed.

Lemma forwarding_failure_reply_witness :
  sockets (fst (handleMessage 5 (fun _ => "e") 7
                  (WellFormed (Obj [("type", Str "openai_event");
                                    ("payload",
                                     Obj [("type", Str "response.create")])]))
                  sampleContext 0 sampleServer)) !! 7%nat
  = Some {| outbox := [{| ftype := "error";
                          payload :=
                            Obj [("message", Str "Invalid message format")];
                          timestamp := 5; fsession := "sess_1" |}];
            closed := None; listeners := None |}.
Proof.
  refine (proj1 (proj2 (forwarding_failure_reply 5 (fun _ => "e") 7
            sampleContext 0 sampleServer openSocket
            OpenAIRealtimeService.create
            [("type", Str "openai_event");
             ("payload", Obj [("type", Str "response.create")])]
            (Obj [("type", Str "response.create")])
            "Not connected to OpenAI Realtime API"
            (lookup_singleton_eq _ _) eq_refl (lookup_singleton_eq _ _)
            eq_refl eq_refl eq_refl _))).
  rewrite sendEvent_not_connected; reflexivity.
Defined.

End MessageRouter.

(** ** Connection gateway *)

Section ConnectionGateway.
Import Js Gateway.

(** The answers of the environment under which the upstream link is not
    brought up. *)
Definition fails (answer : UpstreamAnswer) : bool :=
  match answer with
  | Connect OpenAIRealtimeService.Opened => false
  | _ => true
  end.

(** C2, as the code has it.  When the upstream link fails to come up, the
    error frame is the last frame written to the inbound socket and the
    socket is closed with code 1011; but no listener was registered on the
    socket, so its [close] event reaches nobody, and the session made for
    the connection is still in the registry afterwards. *)
Theorem setup_failure_keeps_session (now : Z) (eid : string) (r : nat)
    (answer : UpstreamAnswer) (ws : nat) (context : ConnectionContext)
    (srv : Server) (sock : Socket) (s : SessionService.Session) :
  fails answer = true ->
  sockets srv !! ws = Some sock ->
  closed sock = None ->
  listeners sock = None ->
  sessions srv !! sessionId context = Some s ->
  let srv1 := fst (setupAuthenticatedConnection now eid r answer ws context
                     srv) in
  (exists sock',
     sockets srv1 !! ws = Some sock'
     /\ closed sock' = Some (1011, "Service initialization failed")
     /\ last (outbox sock')
        = Some {| ftype := "error";
                  payload :=
                    Obj [("message", Str "Failed to initialize AI service")];
                  timestamp := now; fsession := sessionId context |})
  /\ sessions (emitClose ws srv1) !! sessionId context = Some s.
Proof.
  intros Hfail Hsock Hopen Hnone Hsess srv1.
  assert (Hfinal : forall (srv0 : Server) (sock0 : Socket),
            sockets srv0 !! ws = Some sock0 -> closed sock0 = None ->
            listeners sock0 = None ->
            sessions srv0 = sessions srv ->
            let srv' :=
              with_sockets (alter (socket_close 1011
                                     "Service initialization failed") ws)
                (with_sockets (alter (socket_send
                   (errorFrame now context "Failed to initialize AI service"))
                   ws) srv0) in
            (exists sock',
               sockets srv' !! ws = Some sock'
               /\ closed sock' = Some (1011, "Service initialization failed")
               /\ last (outbox sock')
                  = Some (errorFrame now context
                            "Failed to initialize AI service"))
            /\ sessions (emitClose ws srv') !! sessionId context = Some s).
  { intros srv0 sock0 H0 Hc0 Hl0 Hs0 srv'.
    assert (Hlook : sockets srv' !! ws
                    = Some {| outbox := outbox sock0
                                ++ [errorFrame now context
                                      "Failed to initialize AI service"];
                              closed := Some (1011,
                                              "Service initialization failed");
                              listeners := None |}).
    { subst srv'. cbn. rewrite !lookup_alter_eq, H0. cbn.
      rewrite socket_send_open by done. unfold socket_close. cbn.
      by rewrite Hl0. }
    split.
    - eexists. split; [exact Hlook|]. cbn. split; [done|].
      apply last_snoc.
    - unfold emitClose. rewrite Hlook. cbn. by rewrite Hs0. }
  destruct answer as [|a].
  - exact (Hfinal (with_connectionContexts (<[ws := context]>) srv) sock
             Hsock Hopen Hnone eq_refl).
  - pose (srv0 := with_openaiServices (<[sessionId context := r]>)
                    (with_heap (<[r := OpenAIRealtimeService.create]>)
                       (with_connectionContexts (<[ws := context]>) srv))).
    assert (Hr : heap srv0 !! r = Some OpenAIRealtimeService.create)
      by apply lookup_insert_eq.
    destruct a; try discriminate Hfail; subst srv1;
      unfold setupAuthenticatedConnection, try_catch, bind, modify,
        relayTransportError, on_service, ret;
      cbn [fst snd]; fold srv0.
    + rewrite Hr.
      exact (Hfinal (with_heap (<[r := OpenAIRealtimeService.create]>) srv0)
               sock Hsock Hopen Hnone eq_refl).
    + cbn [ws_send modify fst snd heap with_sockets]. rewrite Hr.
      refine (Hfinal
                (with_heap
                   (<[r := OpenAIRealtimeService.set_ws
                             (Some {| OpenAIRealtimeService.readyState :=
                                        OpenAIRealtimeService.CLOSED;
                                      OpenAIRealtimeService.sent := [] |})
                             OpenAIRealtimeService.create]>)
                   (with_sockets
                      (alter (socket_send
                                {| ftype := "openai_error";
                                   payload := Obj [("error", Obj [])];
                                   timestamp := now;
                                   fsession := sessionId context |}) ws)
                      srv0))
                (socket_send {| ftype := "openai_error";
                                payload := Obj [("error", Obj [])];
                                timestamp := now;
                                fsession := sessionId context |} sock)
                _ _ _ eq_refl).
      * cbn. by rewrite lookup_alter_eq, Hsock.
      * by rewrite socket_send_open.
      * by rewrite socket_send_open.
    + rewrite Hr.
      exact (Hfinal
               (with_heap
                  (<[r := OpenAIRealtimeService.set_ws
                            (Some {| OpenAIRealtimeService.readyState :=
                                       OpenAIRealtimeService.CONNECTING;
                                     OpenAIRealtimeService.sent := [] |})
                            OpenAIRealtimeService.create]>) srv0)
               sock Hsock Hopen Hnone eq_refl).
Qed.

Lemma setup_failure_keeps_session_witness :
  sessions (emitClose 7
              (fst (setupAuthenticatedConnection 5 "e" 1
                      (Connect OpenAIRealtimeService.InvalidApiKey) 7
                      sampleContext
                      {| sessions := {["sess_1" := sampleSession]};
                         heap := ∅; openaiServices := ∅;
                         connectionContexts := ∅;
                         sockets := {[7%nat := newSocket]} |})))
    !! "sess_1" = Some sampleSession.
Proof.
  exact (proj2 (setup_failure_keeps_session 5 "e" 1
                  (Connect OpenAIRealtimeService.InvalidApiKey) 7
                  sampleContext
                  {| sessions := {["sess_1" := sampleSession]};
                     heap := ∅; openaiServices := ∅;
                     connectionContexts := ∅;
                     sockets := {[7%nat := newSocket]} |}
                  newSocket sampleSession eq_refl (lookup_singleton_eq _ _)
                  eq_refl eq_refl (lookup_singleton_eq _ _))).
Defined.

End ConnectionGateway.

(** ** Stopping twice *)

Section Idempotence.
Import Js.

(** Nothing is held: no stream, no audio graph, no animation frame. *)
Definition released (c : Audio.Capture) : Prop :=
  Audio.streamRef c = false /\ Audio.audioContextRef c = false
  /\ Audio.analyserRef c = false /\ Audio.processorRef c = false
  /\ Audio.audioLevel c = 0
  /\ match Audio.animationFrameRef c with
     | Some n => n = 0
     | None => True
     end.

Lemma cleanup_released (c : Audio.Capture) : released (Audio.cleanup c).
Proof.
  destruct c as [a p l e st ac an pr [n|] ar tr]; unfold released; cbn;
    [|tauto]. destruct (Z.eqb_spec n 0); cbn; tauto.
Qed.

Lemma cleanup_of_released (c : Audio.Capture) :
  released c -> Audio.cleanup c = c.
Proof.
  destruct c as [a p l e st ac an pr fr ar tr]. unfold released. cbn.
  intros (-> & -> & -> & -> & -> & Hfr). unfold Audio.cleanup. cbn.
  destruct fr as [n|]; [subst n|]; cbn; by rewrite app_nil_r.
Qed.

Lemma stopped_released (c : Audio.Capture) :
  released (Audio.logEffect Audio.CalledOnCaptureStop
              (Audio.setAudioState Audio.idle (Audio.cleanup c))).
Proof. exact (cleanup_released c). Qed.

Lemma stop_again_cells (c : Audio.Capture) :
  Audio.audioState c = Audio.idle ->
  Audio.cells (Audio.logEffect Audio.CalledOnCaptureStop
                 (Audio.setAudioState Audio.idle c))
  = Audio.cells c.
Proof. destruct c. cbn. by intros ->. Qed.

Definition capturingHook : Audio.Capture :=
  {| Audio.audioState := Audio.capturing; Audio.hasPermission := Some true;
     Audio.audioLevel := 40; Audio.error_ := None;
     Audio.streamRef := true; Audio.audioContextRef := true;
     Audio.analyserRef := true; Audio.processorRef := true;
     Audio.animationFrameRef := Some 12;
     Audio.audioStateRef := Audio.capturing; Audio.trace := [] |}.

(** What a call of [stopCapture()] does when its closure saw [seen]: it is
    skipped unless the closure saw [capturing]. *)
Definition runs_body (seen : Audio.AudioState) : bool :=
  match seen with
  | Audio.capturing => true
  | _ => false
  end.

Lemma stopCapture_run (onCaptureStopThrows : bool) (seen : Audio.AudioState)
    (c : Audio.Capture) :
  Audio.stopCapture onCaptureStopThrows seen c
  = if runs_body seen
    then (Audio.logEffect Audio.CalledOnCaptureStop
            (Audio.setAudioState Audio.idle (Audio.cleanup c)),
          if onCaptureStopThrows then Throw "onCaptureStop failed"
          else Return tt)
    else (c, Return tt).
Proof. by destruct seen, onCaptureStopThrows. Qed.

(** C8 as the design document words it fails: a second [stopCapture()]
    through the callback of the same render, whose guard still reads
    [capturing], is not a no-op.  It notifies [onCaptureStop] once more, and
    it throws if that callback throws this time. *)
Lemma stop_twice_notifies_twice :
  let c1 := fst (Audio.stopCapture false Audio.capturing capturingHook) in
  Audio.trace c1
  = [Audio.CancelAnimationFrame 12; Audio.TrackStop; Audio.AudioContextClose;
     Audio.CalledOnCaptureStop]
  /\ Audio.stopCapture false Audio.capturing c1 <> (c1, Return tt)
  /\ Audio.trace (fst (Audio.stopCapture false Audio.capturing c1))
     = Audio.trace c1 ++ [Audio.CalledOnCaptureStop]
  /\ snd (Audio.stopCapture true Audio.capturing c1)
     = Throw "onCaptureStop failed".
Proof.
  split; [reflexivity|]. split; [|split; reflexivity].
  intros H. apply (f_equal (fun r => List.length (Audio.trace (fst r)))) in H.
  vm_compute in H. discriminate H.
Qed.

(** C8, amended.  A second [stopCapture()] right after a first one, whether
    or not the first one's callback threw, leaves every state cell and ref
    as the first call left them and releases nothing again.  Called through
    the callback of the same render it runs its body again when that render
    saw [capturing]: it notifies [onCaptureStop] once more, and it throws
    exactly when that callback throws this time.  Called through the
    callback of the next render it does nothing at all and returns.  A
    second [disconnect()] of the upstream client returns without changing
    anything, as does the first without throwing. *)
Theorem stop_twice_same_state (first second : bool)
    (seen : Audio.AudioState) (c : Audio.Capture)
    (svc : OpenAIRealtimeService.Service) :
  let c1 := fst (Audio.stopCapture first seen c) in
  let again := Audio.stopCapture second seen c1 in
  Audio.cells (fst again) = Audio.cells c1
  /\ Audio.trace (fst again)
     = Audio.trace c1
       ++ (if runs_body seen then [Audio.CalledOnCaptureStop] else [])
  /\ snd again
     = (if (runs_body seen && second)%bool
        then Throw "onCaptureStop failed" else Return tt)
  /\ (seen = Audio.audioState c ->
      Audio.stopCapture second (Audio.audioState c1) (Audio.render c1)
      = (Audio.render c1, Return tt))
  /\ snd (OpenAIRealtimeService.disconnect svc) = Return tt
  /\ OpenAIRealtimeService.disconnect
       (fst (OpenAIRealtimeService.disconnect svc))
     = (fst (OpenAIRealtimeService.disconnect svc), Return tt).
Proof.
  intros c1 again.
  assert (Hdisc : snd (OpenAIRealtimeService.disconnect svc) = Return tt
                  /\ OpenAIRealtimeService.disconnect
                       (fst (OpenAIRealtimeService.disconnect svc))
                     = (fst (OpenAIRealtimeService.disconnect svc), Return tt)).
  { destruct svc as [[t|] sid conn]; cbn; split; reflexivity. }
  subst again c1. rewrite !stopCapture_run.
  destruct (runs_body seen) eqn:Hbody; cbn [fst snd andb].
  - set (c1 := Audio.logEffect Audio.CalledOnCaptureStop
                 (Audio.setAudioState Audio.idle (Audio.cleanup c))).
    assert (Hreleased : released c1) by apply stopped_released.
    assert (Hidle : Audio.audioState c1 = Audio.idle) by reflexivity.
    rewrite (cleanup_of_released c1 Hreleased).
    split; [by apply stop_again_cells|].
    split; [reflexivity|].
    split; [by destruct second|].
    split; [|exact Hdisc].
    intros _. change (Audio.audioState c1) with Audio.idle. reflexivity.
  - split; [reflexivity|]. split; [by rewrite app_nil_r|].
    split; [reflexivity|]. split; [|exact Hdisc].
    intros <-. by rewrite Hbody.
Qed.

Lemma stop_twice_same_state_witness :
  Audio.stopCapture false
    (Audio.audioState
       (fst (Audio.stopCapture false Audio.capturing capturingHook)))
    (Audio.render (fst (Audio.stopCapture false Audio.capturing capturingHook)))
  = (Audio.render (fst (Audio.stopCapture false Audio.capturing capturingHook)),
     Return tt).
Proof.
  apply (proj1 (proj2 (proj2 (proj2
           (stop_twice_same_state false false Audio.capturing capturingHook
              OpenAIRealtimeService.create))))).
  reflexivity.
Defined.

End Idempotence.

(** ** Reasoning about handlers *)

Section Handlers.
Import Js.
Context {S : Type}.

(** [P] holds after [m] whenever it held before, whether [m] returns or
    throws. *)
Definition preserves {A} (P : S -> Prop) (m : M S A) : Prop :=
  forall s, P s -> P (fst (m s)).

Lemma preserves_ret {A} (P : S -> Prop) (a : A) : preserves P (ret a).
Proof. intros s H. exact H. Qed.

Lemma preserves_throw {A} (P : S -> Prop) (e : string) :
  preserves P (throw (A := A) e).
Proof. intros s H. exact H. Qed.

Lemma preserves_lift {A} (P : S -> Prop) (o : outcome A) :
  preserves P (lift o).
Proof. intros s H. exact H. Qed.

Lemma preserves_modify (P : S -> Prop) (f : S -> S) :
  (forall s, P s -> P (f s)) -> preserves P (modify f).
Proof. intros Hf s H. apply Hf, H. Qed.

Lemma preserves_bind {A B} (P : S -> Prop) (m : M S A) (k : A -> M S B) :
  preserves P m -> (forall a, preserves P (k a)) -> preserves P (bind m k).
Proof.
  intros Hm Hk s H. unfold bind. specialize (Hm s H).
  destruct (m s) as [s' [a|e]]; cbn in *; [apply Hk|]; exact Hm.
Qed.

Lemma preserves_gets {A B} (P : S -> Prop) (f : S -> A) (k : A -> M S B) :
  (forall s, P s -> P (fst (k (f s) s))) -> preserves P (bind (gets f) k).
Proof. intros Hk s H. unfold bind, gets. apply Hk, H. Qed.

Lemma preserves_try_catch {A} (P : S -> Prop) (m : M S A)
    (h : string -> M S A) :
  preserves P m -> (forall e, preserves P (h e)) ->
  preserves P (try_catch m h).
Proof.
  intros Hm Hh s H. unfold try_catch. specialize (Hm s H).
  destruct (m s) as [s' [a|e]]; cbn in *; [|apply Hh]; exact Hm.
Qed.

Lemma try_catch_post {A} (P : S -> Prop) (m : M S A) (h : string -> M S A)
    (s : S) :
  P (fst (m s)) -> (forall e, preserves P (h e)) -> P (fst (try_catch m h s)).
Proof.
  intros Hm Hh. unfold try_catch.
  destruct (m s) as [s' [a|e]]; cbn in *; [|apply Hh]; exact Hm.
Qed.

End Handlers.

(** ** Conversation state *)

Section Conversation.
Import Js UseOpenAIMessages.

(** The messages that a stretch of the log appended. *)
Definition appended (fx : list Effect) : list OpenAIMessage :=
  omap (fun e => match e with Appended m => Some m | _ => None end) fx.

(** [updateMessage] on one message. *)
Definition upd (mid : string) (u : Updates) (m : OpenAIMessage)
    : OpenAIMessage :=
  if String.eqb (id m) mid then apply_updates u m else m.

Lemma upd_id (mid : string) (u : Updates) (m : OpenAIMessage) :
  id (upd mid u m) = id m.
Proof. unfold upd. by destruct (String.eqb (id m) mid). Qed.

Lemma upd_sender (mid : string) (u : Updates) (m : OpenAIMessage) :
  sender (upd mid u m) = sender m.
Proof. unfold upd. by destruct (String.eqb (id m) mid). Qed.

Lemma upd_other (mid : string) (u : Updates) (m : OpenAIMessage) :
  id m <> mid -> upd mid u m = m.
Proof. intros H. unfold upd. by apply String.eqb_neq in H as ->. Qed.

Lemma upd_status_only (mid : string) (st : Status) (m : OpenAIMessage) :
  content (upd mid (status_only st) m) = content m.
Proof. unfold upd. by destruct (String.eqb (id m) mid). Qed.

Lemma map_upd_fresh (mid : string) (u : Updates) (l : list OpenAIMessage) :
  mid ∉ List.map id l -> List.map (upd mid u) l = l.
Proof.
  induction l as [|m l IH]; [done|]. cbn. intros H.
  apply not_elem_of_cons in H as [Hm Hl].
  rewrite upd_other by done. by rewrite IH.
Qed.

Lemma appended_snoc (fx : list Effect) (e : Effect) :
  (forall m, e <> Appended m) -> appended (fx ++ [e]) = appended fx.
Proof.
  intros H. unfold appended. rewrite omap_app. cbn.
  destruct e; [by destruct (H m)| | |]; by rewrite app_nil_r.
Qed.

Section SendText.
Variables (env : Env) (now : Z) (mid txt : string) (h : Hook).

Definition userMessage : OpenAIMessage :=
  {| id := mid; content := trim txt; sender := user; timestamp := now;
     status := sending |}.

(** What holds from the append on, all through [sendTextMessage]. *)
Definition sending_run (s : Hook) : Prop :=
  exists prefix last_message rest,
    messages s = prefix ++ [last_message]
    /\ List.length prefix = List.length (messages h)
    /\ (mid ∉ List.map id (messages h) -> prefix = messages h)
    /\ id last_message = mid
    /\ content last_message = trim txt
    /\ sender last_message = user
    /\ (status last_message = sending \/ status last_message = sent
        \/ status last_message = error)
    /\ trace s = trace h ++ Appended userMessage :: rest
    /\ appended rest = []
    /\ currentAIResponseRef s = currentAIResponseRef h.

Lemma sending_run_log (e : Effect) (s : Hook) :
  (forall m, e <> Appended m) -> sending_run s -> sending_run (log e s).
Proof.
  intros He (prefix & lm & rest & H1 & H2 & H3 & H4 & H5 & H6 & H7 & H8 & H9
             & H10).
  exists prefix, lm, (rest ++ [e]). cbn. repeat (split; [assumption|]).
  split; [|split; [|assumption]].
  - rewrite H8. by rewrite <- app_assoc.
  - by rewrite appended_snoc.
Qed.

Lemma sending_run_call (c : CallbackCall) :
  preserves sending_run (call env c).
Proof.
  unfold call. apply preserves_bind.
  - apply preserves_modify. intros s. by apply sending_run_log.
  - intros _. destruct (throws env c);
      [apply preserves_throw|apply preserves_ret].
Qed.

Lemma sending_run_update (st : Status) :
  st = sent \/ st = error ->
  preserves sending_run (updateMessage mid (status_only st)).
Proof.
  intros Hst. unfold updateMessage. apply preserves_bind.
  - apply preserves_modify.
    intros s (prefix & lm & rest & H1 & H2 & H3 & H4 & H5 & H6 & H7 & H8 & H9
              & H10).
    exists (List.map (upd mid (status_only st)) prefix),
      (upd mid (status_only st) lm), rest. cbn.
    split; [by rewrite H1, List.map_app|].
    split; [by rewrite List.length_map|].
    split; [intros Hf; rewrite (H3 Hf); by apply map_upd_fresh|].
    split; [by rewrite upd_id|].
    split; [by rewrite upd_status_only|].
    split; [by rewrite upd_sender|].
    split; [|done].
    unfold upd. rewrite H4, String.eqb_refl. cbn.
    destruct Hst as [-> | ->]; auto.
  - intros _. apply preserves_modify. intros s. by apply sending_run_log.
Qed.

Lemma sending_run_send (f : WebSocketMessage) (k : bool -> M Hook unit) :
  (forall b, preserves sending_run (k b)) ->
  preserves sending_run (bind (sendWebSocketMessage env f) k).
Proof.
  intros Hk. apply preserves_bind; [|exact Hk].
  unfold sendWebSocketMessage. apply preserves_bind.
  - apply preserves_modify. intros s. by apply sending_run_log.
  - intros _. destruct (send env f);
      [apply preserves_ret|apply preserves_ret|apply preserves_throw].
Qed.

Lemma sending_run_responding (b : bool) :
  preserves sending_run (updateAIRespondingState env b).
Proof.
  unfold updateAIRespondingState. apply preserves_bind.
  - apply preserves_modify.
    intros s (prefix & lm & rest & H). by exists prefix, lm, rest.
  - intros _. apply sending_run_call.
Qed.

Lemma sendTextMessage_run :
  trim txt <> "" -> (String.length txt <= 1000)%nat ->
  sending_run (fst (sendTextMessage env now mid txt h)).
Proof.
  intros Hne Hlen. unfold sendTextMessage.
  apply String.eqb_neq in Hne as ->.
  destruct (Nat.ltb_spec 1000 (String.length txt)); [lia|].
  unfold addMessage.
  change (sending_run
            (fst ((call env (OnMessage userMessage) ;;
                   try_catch
                     (conversationSent <-
                        sendWebSocketMessage env (conversationEvent now txt) ;;
                      if conversationSent : bool then
                        updateMessage mid (status_only sent) ;;
                        responseSent <-
                          sendWebSocketMessage env (responseEvent now) ;;
                        if responseSent : bool
                        then updateAIRespondingState env true
                        else
                          updateMessage mid (status_only error) ;;
                          call env (OnError "Failed to request AI response")
                      else
                        updateMessage mid (status_only error) ;;
                        call env (OnError "Failed to send message to server"))
                     (fun e =>
                        updateMessage mid (status_only error) ;;
                        call env (OnError ("Failed to send message: " +:+ e))))%js
                    (log (Appended userMessage)
                       (with_messages (fun prev => prev ++ [userMessage]) h))))).
  apply preserves_bind.
  - apply sending_run_call.
  - intros _. apply preserves_try_catch.
    + apply sending_run_send. intros [|].
      * apply preserves_bind; [apply sending_run_update; auto|].
        intros _. apply sending_run_send. intros [|].
        -- apply sending_run_responding.
        -- apply preserves_bind; [apply sending_run_update; auto|].
           intros _. apply sending_run_call.
      * apply preserves_bind; [apply sending_run_update; auto|].
        intros _. apply sending_run_call.
    + intros e. apply preserves_bind; [apply sending_run_update; auto|].
      intros _. apply sending_run_call.
  - exists (messages h), userMessage, []. cbn. repeat split; auto.
Qed.

End SendText.

(** C9.  [sendTextMessage] on a text that trims to nothing or is longer than
    1000 code units only calls the error callback: the message array is as
    before, nothing is appended and no frame is sent.  On any other text the
    first thing it does is append the user message with status [sending] and
    the trimmed text as content, before any frame goes out; it appends
    nothing else, and the array ends up one message longer, ending in a
    message of that identifier, sender and content. *)
Theorem sendTextMessage_validation (env : Env) (now : Z) (mid txt : string)
    (h : Hook) :
  let h' := fst (sendTextMessage env now mid txt h) in
  (trim txt = "" \/ (1000 < String.length txt)%nat ->
     messages h' = messages h
     /\ exists e, trace h' = trace h ++ [Called (OnError e)])
  /\ (trim txt <> "" -> (String.length txt <= 1000)%nat ->
      exists prefix last_message rest,
        trace h' = trace h
                   ++ Appended {| id := mid; content := trim txt;
                                  sender := user; timestamp := now;
                                  status := sending |} :: rest
        /\ appended rest = []
        /\ messages h' = prefix ++ [last_message]
        /\ List.length prefix = List.length (messages h)
        /\ id last_message = mid
        /\ content last_message = trim txt
        /\ sender last_message = user).
Proof.
  intros h'. split.
  - intros Hbad. subst h'. unfold sendTextMessage.
    destruct (String.eqb_spec (trim txt) "") as [E|E].
    + unfold call, bind, modify. cbn.
      destruct (throws env _); cbn; eauto.
    + destruct Hbad as [Hbad|Hbad]; [done|].
      destruct (Nat.ltb_spec 1000 (String.length txt)); [|lia].
      unfold call, bind, modify. cbn.
      destruct (throws env _); cbn; eauto.
  - intros Hne Hlen.
    destruct (sendTextMessage_run env now mid txt h Hne Hlen)
      as (prefix & lm & rest & H1 & H2 & H3 & H4 & H5 & H6 & H7 & H8 & H9 & _).
    exists prefix, lm, rest. auto 10.
Qed.

Definition accepting : Env :=
  {| throws := fun _ => false; send := fun _ => Accepted |}.

Lemma sendTextMessage_validation_witness :
  messages (fst (sendTextMessage accepting 5 "user_1" "   " initial)) = []
  /\ exists prefix last_message rest,
       trace (fst (sendTextMessage accepting 5 "user_1" "  hi " initial))
         = [] ++ Appended {| id := "user_1"; content := "hi"; sender := user;
                             timestamp := 5; status := sending |} :: rest
       /\ appended rest = []
       /\ messages (fst (sendTextMessage accepting 5 "user_1" "  hi " initial))
          = prefix ++ [last_message]
       /\ List.length prefix = 0%nat
       /\ id last_message = "user_1"
       /\ content last_message = "hi"
       /\ sender last_message = user.
Proof.
  split.
  - apply (proj1 (sendTextMessage_validation accepting 5 "user_1" "   "
                    initial)).
    left. reflexivity.
  - apply (proj2 (sendTextMessage_validation accepting 5 "user_1" "  hi "
                    initial)).
    + discriminate.
    + cbn. lia.
Defined.

(** *** The life of a message *)

Definition ids (s : Hook) : list string := List.map id (messages s).

(** [x] is the identifier of the response being built. *)
Definition is_current (s : Hook) (x : string) : Prop :=
  exists r, currentAIResponseRef s = Some r /\ cur_id r = x.

Definition in_progress (st : Status) : Prop :=
  st = receiving \/ st = completed.

(** The statuses at which a message of either sender rests between two
    handler runs. *)
Definition rests (m : OpenAIMessage) : Prop :=
  match sender m with
  | user => status m = sending \/ status m = sent \/ status m = error
  | ai => in_progress (status m) \/ status m = error
  end.

(** What holds of the hook between handler runs: the response being built
    has its message in the array, the messages of its identifier are being
    received or completed, and every message rests at a status of its
    sender. *)
Definition consistent (s : Hook) : Prop :=
  (forall r, currentAIResponseRef s = Some r ->
     cur_id r ∈ ids s
     /\ forall m, m ∈ messages s -> id m = cur_id r -> in_progress (status m))
  /\ (forall m, m ∈ messages s -> rests m).

(** What handler runs may do to a message that is in the array: it keeps
    its place, identifier and sender, and its status either stays or, if the
    message belongs to the response being built and is being received or
    completed, becomes receiving, completed or error. *)
Definition moved (s : Hook) (m m' : OpenAIMessage) : Prop :=
  id m' = id m /\ sender m' = sender m
  /\ (status m' = status m
      \/ (is_current s (id m) /\ in_progress (status m)
          /\ (in_progress (status m') \/ status m' = error))).

Definition evolves (s s' : Hook) : Prop :=
  (forall i m, messages s !! i = Some m ->
     exists m', messages s' !! i = Some m' /\ moved s m m')
  /\ (forall r', currentAIResponseRef s' = Some r' ->
        is_current s (cur_id r') \/ cur_id r' ∉ ids s).

Lemma lookup_map {A B} (f : A -> B) (l : list A) (i : nat) :
  List.map f l !! i = f <$> (l !! i).
Proof. exact (list_lookup_fmap f l i). Qed.

Lemma elem_of_map {A B} (f : A -> B) (l : list A) (y : B) :
  y ∈ List.map f l <-> exists x, y = f x /\ x ∈ l.
Proof. exact (list_elem_of_fmap f l y). Qed.

Lemma lookup_ids (s : Hook) (i : nat) (m : OpenAIMessage) :
  messages s !! i = Some m -> id m ∈ ids s.
Proof.
  intros H. apply elem_of_map. exists m. split; [done|].
  by eapply list_elem_of_lookup_2.
Qed.

Lemma evolves_refl (s : Hook) : evolves s s.
Proof.
  split.
  - intros i m H. exists m. split; [done|]. repeat split. by left.
  - intros r H. left. by exists r.
Qed.

Lemma evolves_ids (s s' : Hook) (x : string) :
  evolves s s' -> x ∈ ids s -> x ∈ ids s'.
Proof.
  intros [HA _] Hx. apply elem_of_map in Hx as (m & -> & Hm).
  apply list_elem_of_lookup in Hm as [i Hi].
  destruct (HA i m Hi) as (m' & Hi' & Hid & _). rewrite <- Hid.
  by eapply lookup_ids.
Qed.

Lemma evolves_trans (s s' s'' : Hook) :
  evolves s s' -> evolves s' s'' -> evolves s s''.
Proof.
  intros H1 H2. pose proof (evolves_ids s s' ) as Hids.
  destruct H1 as [A1 B1], H2 as [A2 B2]. split.
  - intros i m Hi.
    destruct (A1 i m Hi) as (m' & Hi' & Hid' & Hs' & Hst').
    destruct (A2 i m' Hi') as (m'' & Hi'' & Hid'' & Hs'' & Hst'').
    exists m''. split; [done|]. split; [congruence|]. split; [congruence|].
    destruct Hst' as [E'|(Hc & Hp & Hx)], Hst'' as [E''|(Hc' & Hp' & Hx')].
    + left. congruence.
    + right. split; [|split; [congruence|done]].
      destruct Hc' as (r' & Hr' & Hcur).
      destruct (B1 r' Hr') as [Hc|Hn].
      * rewrite Hcur, Hid' in Hc. exact Hc.
      * exfalso. apply Hn. rewrite Hcur, Hid'. by eapply lookup_ids.
    + right. split; [done|]. split; [done|]. by rewrite E''.
    + right. done.
  - intros r'' Hr''. destruct (B2 r'' Hr'') as [(r' & Hr' & Hcur)|Hn].
    + rewrite <- Hcur. apply B1, Hr'.
    + right. intros Hin. apply Hn. apply Hids; [by split|done].
Qed.

Lemma ids_map_upd (x : string) (u : Updates) (l : list OpenAIMessage) :
  List.map id (List.map (upd x u) l) = List.map id l.
Proof.
  induction l as [|m l IH]; [done|]. cbn. by rewrite upd_id, IH.
Qed.

Lemma upd_status (x : string) (u : Updates) (st : Status) (m : OpenAIMessage) :
  new_status u = Some st -> id m = x -> status (upd x u m) = st.
Proof.
  intros Hu <-. unfold upd. rewrite String.eqb_refl. cbn. by rewrite Hu.
Qed.

Lemma in_progress_ai (m : OpenAIMessage) :
  rests m -> in_progress (status m) -> sender m = ai.
Proof.
  unfold rests, in_progress. destruct (sender m); [|done].
  intros [E|[E|E]] [F|F]; congruence.
Qed.

Section EventRun.
Variables (mid : string) (s0 : Hook).
Hypothesis Hconsistent : consistent s0.
Hypothesis Hfresh : mid ∉ ids s0.

(** What holds all through a run of [handleOpenAIEvent] from [s0]. *)
Definition event_run (s : Hook) : Prop := evolves s0 s /\ consistent s.

Lemma event_run_same (s s' : Hook) :
  messages s' = messages s ->
  currentAIResponseRef s' = currentAIResponseRef s ->
  event_run s -> event_run s'.
Proof.
  intros Hm Hc [[A B] [C1 C2]].
  unfold event_run, evolves, consistent, ids. rewrite Hm, Hc. done.
Qed.

Lemma event_run_start : event_run s0.
Proof. split; [apply evolves_refl|exact Hconsistent]. Qed.

(** The messages of [s0] after an update of the messages of the response
    being built. *)
Lemma evolves_update (s : Hook) (r : CurrentResponse) (u : Updates)
    (st : Status) (c : option CurrentResponse) :
  event_run s ->
  currentAIResponseRef s = Some r ->
  new_status u = Some st ->
  in_progress st \/ st = error ->
  c = None \/ (exists r', c = Some r' /\ cur_id r' = cur_id r) ->
  evolves s0 (set_current c (with_messages (List.map (upd (cur_id r) u)) s)).
Proof.
  intros [[A B] [C1 C2]] Hr Hu Hst Hc. split.
  - intros i m Hi. destruct (A i m Hi) as (m1 & Hi1 & Hid & Hsd & Hmv).
    exists (upd (cur_id r) u m1). cbn. rewrite lookup_map, Hi1. cbn.
    split; [done|]. split; [by rewrite upd_id|]. split; [by rewrite upd_sender|].
    destruct (String.eqb_spec (id m1) (cur_id r)) as [E|E].
    + rewrite (upd_status _ _ st) by done.
      assert (Hcur : is_current s0 (id m)).
      { destruct (B r Hr) as [Hc0|Hn].
        - by rewrite <- Hid, E.
        - exfalso. apply Hn. rewrite <- E, Hid. by eapply lookup_ids. }
      right. split; [done|]. split; [|done].
      destruct Hcur as (r0 & Hr0 & Hcur).
      destruct Hconsistent as [D1 _]. destruct (D1 r0 Hr0) as [_ D].
      apply D; [by eapply list_elem_of_lookup_2|done].
    + by rewrite upd_other.
  - intros r' Hr'. cbn in Hr'.
    destruct Hc as [->|(r'' & -> & E)]; [done|].
    injection Hr' as ->. rewrite E. by apply B.
Qed.

Lemma rests_update (s : Hook) (r : CurrentResponse) (u : Updates)
    (st : Status) (m : OpenAIMessage) :
  consistent s ->
  currentAIResponseRef s = Some r ->
  new_status u = Some st ->
  in_progress st \/ st = error ->
  m ∈ List.map (upd (cur_id r) u) (messages s) -> rests m.
Proof.
  intros [C1 C2] Hr Hu Hst Hm.
  apply elem_of_map in Hm as (m1 & -> & Hm1).
  destruct (String.eqb_spec (id m1) (cur_id r)) as [E|E].
  - unfold rests. rewrite upd_sender, (upd_status _ _ st) by done.
    destruct (C1 r Hr) as [_ D].
    by rewrite (in_progress_ai m1 (C2 m1 Hm1) (D m1 Hm1 E)).
  - rewrite upd_other by done. by apply C2.
Qed.

Lemma event_run_update (s : Hook) (r r' : CurrentResponse) (u : Updates)
    (st : Status) :
  event_run s ->
  currentAIResponseRef s = Some r ->
  new_status u = Some st ->
  in_progress st ->
  cur_id r' = cur_id r ->
  event_run (set_current (Some r')
               (with_messages (List.map (upd (cur_id r) u)) s)).
Proof.
  intros H Hr Hu Hst Hid. split.
  - eapply evolves_update; eauto.
  - destruct H as [_ [C1 C2]]. split.
    + intros r1 Hr1. cbn in Hr1. injection Hr1 as <-. rewrite Hid.
      unfold ids. cbn. rewrite ids_map_upd. split; [by apply C1|].
      intros m Hm Hidm. apply elem_of_map in Hm as (m1 & -> & Hm1).
      rewrite upd_id in Hidm. by rewrite (upd_status _ _ st).
    + intros m Hm. cbn in Hm.
      apply (rests_update s r u st m); [by split|done|done|by left|done].
Qed.

Lemma event_run_clear (s : Hook) (r : CurrentResponse) (u : Updates)
    (st : Status) :
  event_run s ->
  currentAIResponseRef s = Some r ->
  new_status u = Some st ->
  in_progress st \/ st = error ->
  event_run (set_current None
               (with_messages (List.map (upd (cur_id r) u)) s)).
Proof.
  intros H Hr Hu Hst. split.
  - eapply evolves_update; eauto.
  - destruct H as [_ C]. split; [done|].
    intros m Hm. cbn in Hm. by apply (rests_update s r u st m).
Qed.

Lemma event_run_log (e : Effect) : preserves event_run (modify (log e)).
Proof. apply preserves_modify. intros s. by apply event_run_same. Qed.

Lemma event_run_call (env : Env) (c : CallbackCall) :
  preserves event_run (call env c).
Proof.
  unfold call. apply preserves_bind; [apply event_run_log|].
  intros _. destruct (throws env c);
    [apply preserves_throw|apply preserves_ret].
Qed.

Lemma event_run_responding (env : Env) (b : bool) :
  preserves event_run (updateAIRespondingState env b).
Proof.
  unfold updateAIRespondingState. apply preserves_bind.
  - apply preserves_modify. intros s. by apply event_run_same.
  - intros _. apply event_run_call.
Qed.

(** An update of the messages of the response being built that leaves them
    in progress. *)
Lemma event_run_updateMessage (s : Hook) (r : CurrentResponse) (u : Updates)
    (st : Status) :
  event_run s ->
  currentAIResponseRef s = Some r ->
  new_status u = Some st ->
  in_progress st ->
  event_run (fst (updateMessage (cur_id r) u s)).
Proof.
  intros H Hr Hu Hst.
  apply (event_run_same
           (set_current (Some r)
              (with_messages (List.map (upd (cur_id r) u)) s)));
    [reflexivity|exact Hr|].
  by apply (event_run_update s r r u st).
Qed.

Lemma event_run_onDelta (ev : OpenAIEvent) : preserves event_run (onDelta ev).
Proof.
  unfold onDelta. apply preserves_gets. intros s H.
  destruct (currentAIResponseRef s) as [r|] eqn:Hr; [|exact H].
  destruct (present (delta ev)) as [d|]; [|exact H].
  apply (event_run_same
           (set_current
              (Some {| cur_id := cur_id r; cur_content := cur_content r +:+ d;
                       responseId := responseId r; itemId := itemId r |})
              (with_messages
                 (List.map
                    (upd (cur_id r)
                       {| new_content := Some (cur_content r +:+ d);
                          new_status := Some receiving |})) s)));
    [reflexivity|reflexivity|].
  apply (event_run_update s r _ _ receiving); auto. by left.
Qed.

Lemma event_run_done (o : option string)
    (k : CurrentResponse -> string -> M Hook unit) :
  (forall r t, preserves event_run (k r t)) ->
  preserves event_run
    (cur <- gets currentAIResponseRef ;;
     match cur, present o with
     | Some r, Some t =>
         updateMessage (cur_id r)
           {| new_content := Some t; new_status := Some completed |} ;;
         k r t
     | _, _ => ret tt
     end)%js.
Proof.
  intros Hk. apply preserves_gets. intros s H.
  destruct (currentAIResponseRef s) as [r|] eqn:Hr; [|exact H].
  destruct (present o) as [t|]; [|exact H].
  unfold bind.
  pose proof (event_run_updateMessage s r
                {| new_content := Some t; new_status := Some completed |}
                completed H Hr eq_refl (or_intror eq_refl)) as H'.
  destruct (updateMessage (cur_id r) _ s) as [s' [[]|e]] eqn:E; cbn in H';
    [by apply Hk|exact H'].
Qed.

Lemma event_run_clearCurrent (u : CurrentResponse -> Updates) :
  (forall r, exists st, new_status (u r) = Some st
                        /\ (in_progress st \/ st = error)) ->
  preserves event_run (clearCurrent u).
Proof.
  intros Hu. unfold clearCurrent. apply preserves_gets. intros s H.
  destruct (currentAIResponseRef s) as [r|] eqn:Hr; [|exact H].
  destruct (Hu r) as (st & Hst & Hok).
  apply (event_run_same
           (set_current None
              (with_messages (List.map (upd (cur_id r) (u r))) s)));
    [reflexivity|reflexivity|].
  by apply (event_run_clear s r (u r) st).
Qed.

(** The announcement of a new assistant item. *)
Lemma event_run_added (env : Env) (now : Z) (r : CurrentResponse) :
  cur_id r = mid ->
  event_run
    (fst ((modify (set_current (Some r)) ;;
           addMessage env {| id := mid; content := ""; sender := ai;
                             timestamp := now; status := receiving |})%js s0)).
Proof.
  intros Hid. unfold addMessage.
  set (m := {| id := mid; content := ""; sender := ai; timestamp := now;
               status := receiving |}).
  change (event_run
            (fst (call env (OnMessage m)
                    (log (Appended m)
                       (with_messages (fun prev => prev ++ [m])
                          (set_current (Some r) s0)))))).
  apply event_run_call.
  apply (event_run_same
           (set_current (Some r)
              (with_messages (fun prev => prev ++ [m]) s0)));
    [reflexivity|reflexivity|].
  destruct Hconsistent as [C1 C2]. split; [split|split].
  - intros i x Hi. exists x. cbn. split; [by apply lookup_app_l_Some|].
    repeat split. by left.
  - intros r' Hr'. cbn in Hr'. injection Hr' as <-. right. by rewrite Hid.
  - intros r' Hr'. cbn in Hr'. injection Hr' as <-. rewrite Hid. split.
    + unfold ids. cbn. rewrite List.map_app. apply elem_of_app. right.
      cbn. by apply list_elem_of_singleton.
    + intros x Hx Hxid. cbn in Hx. apply elem_of_app in Hx as [Hx|Hx].
      * exfalso. apply Hfresh. rewrite <- Hxid. apply elem_of_map. eauto.
      * apply list_elem_of_singleton in Hx as ->. by left.
  - intros x Hx. cbn in Hx. apply elem_of_app in Hx as [Hx|Hx].
    + by apply C2.
    + apply list_elem_of_singleton in Hx as ->. unfold rests. cbn.
      left. by left.
Qed.

Lemma handleOpenAIEvent_run (env : Env) (now : Z) (ev : OpenAIEvent) :
  event_run (fst (handleOpenAIEvent env now mid ev s0)).
Proof.
  unfold handleOpenAIEvent. apply try_catch_post.
  - destruct (String.eqb (etype ev) "response.created").
    { apply preserves_bind;
        [apply event_run_responding| |apply event_run_start].
      intros _. apply event_run_call. }
    destruct (String.eqb (etype ev) "response.output_item.added").
    { destruct (item ev) as [it|]; [|apply event_run_start].
      destruct (bool_decide (role it = Some "assistant"));
        [|apply event_run_start].
      by apply event_run_added. }
    destruct (String.eqb (etype ev) "response.text.delta").
    { apply event_run_onDelta, event_run_start. }
    destruct (String.eqb (etype ev) "response.text.done").
    { refine (preserves_gets _ _ _ _ s0 event_run_start). intros s H.
      destruct (currentAIResponseRef s) as [r|] eqn:Hr; [|exact H].
      destruct (present (text ev)) as [t|]; [|exact H].
      by apply (event_run_updateMessage s r _ completed);
        [| | |right]. }
    destruct (String.eqb (etype ev) "response.audio.delta").
    { destruct (present (delta ev));
        [apply event_run_call|]; apply event_run_start. }
    destruct (String.eqb (etype ev) "response.audio_transcript.delta").
    { apply event_run_onDelta, event_run_start. }
    destruct (String.eqb (etype ev) "response.audio_transcript.done").
    { apply (event_run_done (transcript ev)
               (fun r t => call env (OnAudioTranscript t (cur_id r))));
        [|apply event_run_start].
      intros r t. apply event_run_call. }
    destruct (String.eqb (etype ev) "response.done").
    { apply preserves_bind; [apply event_run_responding| |apply event_run_start].
      intros _. apply event_run_clearCurrent. intros r. exists completed.
      split; [reflexivity|]. left. by right. }
    destruct (String.eqb (etype ev) "error").
    { apply preserves_bind; [apply event_run_responding| |apply event_run_start].
      intros _. apply preserves_bind; [apply event_run_call|].
      intros _. apply event_run_clearCurrent. intros r. exists error.
      split; [reflexivity|]. by right. }
    apply event_run_start.
  - intros e. apply preserves_bind; [apply event_run_call|].
    intros _. apply preserves_bind; [|intros _; apply event_run_responding].
    apply event_run_clearCurrent. intros r. exists error.
    split; [reflexivity|]. by right.
Qed.

End EventRun.

Lemma same_cells (s s' : Hook) :
  messages s' = messages s ->
  currentAIResponseRef s' = currentAIResponseRef s ->
  consistent s -> event_run s s'.
Proof.
  intros Hm Hc H. apply (event_run_same s s s'); [done|done|].
  by apply event_run_start.
Qed.

Lemma call_cells (env : Env) (c : CallbackCall) (s : Hook) :
  messages (fst (call env c s)) = messages s
  /\ currentAIResponseRef (fst (call env c s)) = currentAIResponseRef s.
Proof. unfold call, bind, modify. cbn. by destruct (throws env c). Qed.

Lemma sendTextMessage_step (env : Env) (now : Z) (mid txt : string)
    (s : Hook) :
  consistent s -> mid ∉ ids s ->
  event_run s (fst (sendTextMessage env now mid txt s)).
Proof.
  intros Hc Hfresh.
  destruct (String.eqb_spec (trim txt) "") as [E|E].
  { unfold sendTextMessage. apply String.eqb_eq in E as ->.
    apply same_cells; [apply call_cells|apply call_cells|done]. }
  destruct (Nat.ltb_spec 1000 (String.length txt)) as [L|L].
  { unfold sendTextMessage. apply String.eqb_neq in E as ->.
    apply Nat.ltb_lt in L as ->.
    apply same_cells; [apply call_cells|apply call_cells|done]. }
  destruct (sendTextMessage_run env now mid txt s E L)
    as (prefix & lm & rest & H1 & _ & H3 & H4 & _ & H6 & H7 & _ & _ & H10).
  rewrite (H3 Hfresh) in H1. destruct Hc as [C1 C2].
  split; [split|split].
  - intros i m Hi. exists m. rewrite H1.
    split; [by apply lookup_app_l_Some|]. repeat split. by left.
  - intros r Hr. rewrite H10 in Hr. left. by exists r.
  - intros r Hr. rewrite H10 in Hr. destruct (C1 r Hr) as [D1 D2]. split.
    + unfold ids. rewrite H1, List.map_app. apply elem_of_app. by left.
    + intros m Hm Hid. rewrite H1 in Hm. apply elem_of_app in Hm as [Hm|Hm];
        [by apply D2|].
      apply list_elem_of_singleton in Hm as ->. exfalso. apply Hfresh.
      by rewrite <- H4, Hid.
  - intros m Hm. rewrite H1 in Hm. apply elem_of_app in Hm as [Hm|Hm];
      [by apply C2|].
    apply list_elem_of_singleton in Hm as ->. unfold rests. by rewrite H6.
Qed.

(** A handler run, with what it draws from its surroundings. *)
Inductive Action :=
| SendText (env : Env) (now : Z) (mid txt : string)
| Event (env : Env) (now : Z) (mid : string) (ev : OpenAIEvent).

(** The identifier that [generateMessageId] would give during the run. *)
Definition drawn (a : Action) : string :=
  match a with
  | SendText _ _ mid _ => mid
  | Event _ _ mid _ => mid
  end.

Definition run (a : Action) (s : Hook) : Hook :=
  match a with
  | SendText env now mid txt => fst (sendTextMessage env now mid txt s)
  | Event env now mid ev => fst (handleOpenAIEvent env now mid ev s)
  end.

Fixpoint runs (l : list Action) (s : Hook) : Hook :=
  match l with
  | [] => s
  | a :: l' => runs l' (run a s)
  end.

(** Every identifier drawn is new when it is drawn. *)
Fixpoint all_fresh (l : list Action) (s : Hook) : Prop :=
  match l with
  | [] => True
  | a :: l' => (drawn a ∉ ids s) /\ all_fresh l' (run a s)
  end.

(** The states of the hook that handler runs and [clearMessages] lead to. *)
Inductive reachable : Hook -> Prop :=
| reachable_initial : reachable initial
| reachable_run (a : Action) (s : Hook) :
    reachable s -> drawn a ∉ ids s -> reachable (run a s)
| reachable_clear (env : Env) (s : Hook) :
    reachable s -> reachable (fst (clearMessages env s)).

Lemma run_step (a : Action) (s : Hook) :
  consistent s -> drawn a ∉ ids s -> event_run s (run a s).
Proof.
  intros Hc Hf. destruct a as [env now mid txt|env now mid ev]; cbn in *.
  - by apply sendTextMessage_step.
  - by apply (handleOpenAIEvent_run mid).
Qed.

Lemma reachable_consistent (s : Hook) : reachable s -> consistent s.
Proof.
  induction 1 as [|a s _ IH Hf|env s _ IH].
  - split; [discriminate|]. intros m Hm. by apply elem_of_nil in Hm.
  - by apply run_step.
  - unfold clearMessages, updateAIRespondingState, call, bind, modify. cbn.
    destruct (throws env _); cbn; (split; [discriminate|]);
      intros m Hm; by apply elem_of_nil in Hm.
Qed.

Lemma runs_steps (l : list Action) (s : Hook) :
  consistent s -> all_fresh l s -> event_run s (runs l s).
Proof.
  revert s. induction l as [|a l IH]; intros s Hc Hf; cbn.
  - by apply event_run_start.
  - destruct Hf as [Hf Hl]. destruct (run_step a s Hc Hf) as [E1 C1].
    destruct (IH (run a s) C1 Hl) as [E2 C2].
    split; [by eapply evolves_trans|done].
Qed.

Definition itemAdded : Action :=
  Event accepting 1 "ai_1"
    {| etype := "response.output_item.added"; response_id := Some "resp_1";
       delta := None; text := None; transcript := None;
       item := Some {| item_id := Some "item_1"; role := Some "assistant" |};
       error_message := None |}.
Definition textDone : Action :=
  Event accepting 2 "ai_2"
    {| etype := "response.text.done"; response_id := Some "resp_1";
       delta := None; text := Some "Hello"; transcript := None;
       item := None; error_message := None |}.
Definition textDelta : Action :=
  Event accepting 3 "ai_3"
    {| etype := "response.text.delta"; response_id := Some "resp_1";
       delta := Some "!"; text := None; transcript := None;
       item := None; error_message := None |}.

(** C3 as the design document words it fails: a delta that arrives after
    the [done] event of the text, while the response is still being built,
    takes the message from completed back to receiving. *)
Lemma completed_message_regresses :
  status <$> messages (runs [itemAdded; textDone] initial) !! 0%nat
    = Some completed
  /\ status <$> messages (runs [itemAdded; textDone; textDelta] initial) !! 0%nat
     = Some receiving.
Proof. split; reflexivity. Qed.

(** C3, amended.  From any state that the handlers lead to, with fresh
    identifiers, and over any further handler runs: a message of the array
    keeps its place, identifier and sender; a user message rests at sending,
    sent or error and an assistant message at receiving, completed or
    error; and the status of a message only changes while the message
    belongs to the response being built, and then only from receiving or
    completed to receiving, completed or error.  So a message in error never
    changes again, nor does a completed one once its response is no longer
    the one being built; but while it is, a completed message can go back
    to receiving, or on to error. *)
Theorem status_lifecycle (s : Hook) (acts : list Action) (i : nat)
    (m : OpenAIMessage) :
  reachable s ->
  all_fresh acts s ->
  messages s !! i = Some m ->
  match sender m with
  | user => status m = sending \/ status m = sent \/ status m = error
  | ai => status m = receiving \/ status m = completed \/ status m = error
  end
  /\ exists m',
       messages (runs acts s) !! i = Some m'
       /\ id m' = id m /\ sender m' = sender m
       /\ (status m' = status m
           \/ ((exists r, currentAIResponseRef s = Some r /\ cur_id r = id m)
               /\ (status m = receiving \/ status m = completed)
               /\ (status m' = receiving \/ status m' = completed
                   \/ status m' = error))).
Proof.
  intros Hreach Hfresh Hi.
  pose proof (reachable_consistent s Hreach) as Hc.
  destruct (runs_steps acts s Hc Hfresh) as [[A _] _].
  split.
  - destruct Hc as [_ C2].
    specialize (C2 m (list_elem_of_lookup_2 _ _ _ Hi)).
    unfold rests, in_progress in C2. destruct (sender m); tauto.
  - destruct (A i m Hi) as (m' & Hi' & Hid & Hsd & Hst).
    exists m'. unfold is_current, in_progress in Hst. tauto.
Qed.

Lemma status_lifecycle_witness :
  exists m',
    messages (runs [textDelta] (runs [itemAdded; textDone] initial)) !! 0%nat
      = Some m'
    /\ id m' = "ai_1" /\ sender m' = ai.
Proof.
  destruct (status_lifecycle (runs [itemAdded; textDone] initial) [textDelta]
              0
              {| id := "ai_1"; content := "Hello"; sender := ai;
                 timestamp := 1; status := completed |})
    as [_ (m' & H1 & H2 & H3 & _)].
  - apply (reachable_run textDone).
    + apply (reachable_run itemAdded); [apply reachable_initial|].
      cbn. apply not_elem_of_nil.
    + cbn. intros H. apply list_elem_of_singleton in H. discriminate H.
  - cbn. split; [|exact I]. intros H.
    apply list_elem_of_singleton in H. discriminate H.
  - reflexivity.
  - exists m'. auto.
Defined.

End Conversation.

(** ** Audio chunks *)

Section Base64.
Import Js Audio.

Definition is_byte (b : Z) : Prop := 0 <= b < 256.
Definition is_sextet (i : Z) : Prop := 0 <= i < 64.

(** The sextets that the encoder prints, and the padding it adds. *)
Fixpoint encoded_sextets (bytes : list Z) : list Z :=
  match bytes with
  | a :: b :: c :: rest =>
      a / 4 :: a mod 4 * 16 + b / 16 :: b mod 16 * 4 + c / 64 :: c mod 64
      :: encoded_sextets rest
  | [a; b] => [a / 4; a mod 4 * 16 + b / 16; b mod 16 * 4]
  | [a] => [a / 4; a mod 4 * 16]
  | [] => []
  end.

Fixpoint padding (bytes : list Z) : list ascii :=
  match bytes with
  | _ :: _ :: _ :: rest => padding rest
  | [_; _] => [pad]
  | [_] => [pad; pad]
  | [] => []
  end.

(** Induction on a list, three elements at a time. *)
Lemma list_ind3 {A} (P : list A -> Prop) :
  P [] -> (forall a, P [a]) -> (forall a b, P [a; b]) ->
  (forall a b c l, P l -> P (a :: b :: c :: l)) ->
  forall l, P l.
Proof.
  intros H0 H1 H2 H3 l.
  assert (H : P l /\ (forall a, P (a :: l)) /\ (forall a b, P (a :: b :: l))).
  { induction l as [|x l (IH0 & IH1 & IH2)]; [by repeat split|].
    split; [apply IH1|]. split; [intros a; apply IH2|].
    intros a b. by apply H3. }
  apply H.
Qed.

Lemma encode_groups_split (bytes : list Z) :
  encode_groups bytes
  = List.map b64char (encoded_sextets bytes) ++ padding bytes.
Proof.
  induction bytes as [|a|a b|a b c l IH] using list_ind3; try reflexivity.
  cbn [encode_groups encoded_sextets padding List.map app].
  by rewrite IH.
Qed.

Lemma encoded_sextets_range (bytes : list Z) :
  Forall is_byte bytes -> Forall is_sextet (encoded_sextets bytes).
Proof.
  unfold is_byte, is_sextet.
  induction bytes as [|a|a b|a b c l IH] using list_ind3; intros H; cbn.
  - constructor.
  - apply Forall_cons_1 in H as [Ha _].
    repeat constructor; Z.div_mod_to_equations; lia.
  - apply Forall_cons_1 in H as [Ha H]. apply Forall_cons_1 in H as [Hb _].
    repeat constructor; Z.div_mod_to_equations; lia.
  - apply Forall_cons_1 in H as [Ha H]. apply Forall_cons_1 in H as [Hb H].
    apply Forall_cons_1 in H as [Hc H].
    repeat (constructor; [Z.div_mod_to_equations; lia|]). by apply IH.
Qed.

Lemma decode_encoded (bytes : list Z) :
  Forall is_byte bytes -> decode_groups (encoded_sextets bytes) = bytes.
Proof.
  unfold is_byte.
  induction bytes as [|a|a b|a b c l IH] using list_ind3; intros H.
  - reflexivity.
  - apply Forall_cons_1 in H as [Ha _]. cbn. f_equal.
    Z.div_mod_to_equations; lia.
  - apply Forall_cons_1 in H as [Ha H]. apply Forall_cons_1 in H as [Hb _].
    cbn. f_equal; [|f_equal]; Z.div_mod_to_equations; lia.
  - apply Forall_cons_1 in H as [Ha H]. apply Forall_cons_1 in H as [Hb H].
    apply Forall_cons_1 in H as [Hc H].
    cbn [encoded_sextets decode_groups]. rewrite (IH H).
    f_equal; [|f_equal; [|f_equal]]; Z.div_mod_to_equations; lia.
Qed.

Definition sextet_ok (n : nat) : bool :=
  let c := b64char (Z.of_nat n) in
  match b64index c with
  | Some i => i =? Z.of_nat n
  | None => false
  end
  && negb (is_ascii_whitespace c) && negb (Ascii.eqb c pad).

Lemma sextets_ok : forallb sextet_ok (seq 0 64) = true.
Proof. vm_compute. reflexivity. Qed.

Lemma sextet_char (i : Z) :
  is_sextet i ->
  b64index (b64char i) = Some i
  /\ is_ascii_whitespace (b64char i) = false
  /\ b64char i <> pad.
Proof.
  intros Hi. pose proof sextets_ok as H.
  rewrite forallb_forall in H. specialize (H (Z.to_nat i)).
  unfold is_sextet in Hi.
  rewrite in_seq in H. specialize (H ltac:(lia)).
  unfold sextet_ok in H. rewrite Z2Nat.id in H by lia.
  apply andb_prop in H as [H H3]. apply andb_prop in H as [H1 H2].
  destruct (b64index (b64char i)) as [j|]; [|discriminate].
  apply Z.eqb_eq in H1 as ->. apply negb_true_iff in H2, H3.
  repeat split; [done|]. intros E. rewrite E in H3.
  by rewrite Ascii.eqb_refl in H3.
Qed.

Lemma sextets_of_chars (sx : list Z) :
  Forall is_sextet sx -> sextets (List.map b64char sx) = Some sx.
Proof.
  induction 1 as [|i sx Hi _ IH]; [done|]. cbn [List.map sextets].
  destruct (sextet_char i Hi) as [-> _]. by rewrite IH.
Qed.

Lemma filter_all {A} (f : A -> bool) (l : list A) :
  (forall x, In x l -> f x = true) -> List.filter f l = l.
Proof.
  induction l as [|x l IH]; [done|]. cbn. intros H.
  rewrite (H x) by (by left). f_equal. apply IH. intros y Hy. apply H.
  by right.
Qed.

Lemma padding_cases (bytes : list Z) :
  padding bytes = [] \/ padding bytes = [pad] \/ padding bytes = [pad; pad].
Proof.
  induction bytes as [|a|a b|a b c l IH] using list_ind3; cbn; auto.
Qed.

Lemma encoded_length (bytes : list Z) :
  exists k, List.length (encode_groups bytes) = (4 * k)%nat.
Proof.
  induction bytes as [|a|a b|a b c l [k IH]] using list_ind3.
  - by exists 0%nat.
  - by exists 1%nat.
  - by exists 1%nat.
  - exists (S k). cbn [encode_groups List.length]. rewrite IH. lia.
Qed.

Lemma encoded_sextets_length (bytes : list Z) :
  exists k, List.length (encoded_sextets bytes) = (4 * k)%nat
            \/ List.length (encoded_sextets bytes) = (4 * k + 2)%nat
            \/ List.length (encoded_sextets bytes) = (4 * k + 3)%nat.
Proof.
  induction bytes as [|a|a b|a b c l [k IH]] using list_ind3.
  - exists 0%nat. by left.
  - exists 0%nat. right. by left.
  - exists 0%nat. right. by right.
  - exists (S k). cbn [encoded_sextets List.length]. lia.
Qed.

Lemma mod4_of_multiple (k : nat) : ((4 * k) mod 4 =? 0)%nat = true.
Proof.
  apply Nat.eqb_eq. rewrite Nat.mul_comm. apply Nat.Div0.mod_mul.
Qed.

(** What is left of the encoder's text once the padding is dropped. *)
Lemma strip_padding_encoded (chars pads : list ascii) :
  (forall c, In c chars -> c <> pad) ->
  pads = [] \/ pads = [pad] \/ pads = [pad; pad] ->
  (exists k, List.length (chars ++ pads) = (4 * k)%nat) ->
  strip_padding (chars ++ pads) = chars.
Proof.
  intros Hchars Hpads [k Hlen]. unfold strip_padding.
  rewrite Hlen, mod4_of_multiple, rev_app_distr.
  assert (Hhead : forall p r, rev chars = p :: r -> Ascii.eqb p pad = false).
  { intros p r E. apply Ascii.eqb_neq, Hchars, in_rev. rewrite E. by left. }
  destruct Hpads as [-> | [-> | ->]]; cbn.
  - rewrite app_nil_r. destruct (rev chars) as [|p1 [|p2 r]] eqn:E;
      [done|by rewrite (Hhead _ _ eq_refl)|by rewrite (Hhead _ _ eq_refl)].
  - destruct (rev chars) as [|p2 r] eqn:E.
    + apply (f_equal (@List.length _)) in E. rewrite length_rev in E.
      rewrite List.length_app in Hlen. cbn in *. lia.
    + rewrite (Hhead _ _ eq_refl).
      change (rev (p2 :: r) = chars). rewrite <- E. apply rev_involutive.
  - apply rev_involutive.
Qed.

(** [atob] undoes [btoa] on bytes. *)
Lemma atob_btoa (bytes : list Z) :
  Forall is_byte bytes ->
  btoa bytes = Return (string_of_list_ascii (encode_groups bytes))
  /\ atob (string_of_list_ascii (encode_groups bytes)) = Return bytes.
Proof.
  intros Hbytes. split.
  - unfold btoa. replace (forallb _ bytes) with true; [done|].
    symmetry. apply forallb_forall. intros b Hb.
    rewrite List.Forall_forall in Hbytes. specialize (Hbytes b Hb).
    unfold is_byte in Hbytes. apply andb_true_intro. split; lia.
  - pose proof (encoded_sextets_range bytes Hbytes) as Hsx.
    assert (Hchars : forall c, In c (List.map b64char (encoded_sextets bytes)) ->
                       c <> pad /\ is_ascii_whitespace c = false).
    { intros c Hc. apply in_map_iff in Hc as (i & <- & Hi).
      rewrite List.Forall_forall in Hsx.
      destruct (sextet_char i (Hsx i Hi)) as (_ & ? & ?). done. }
    unfold atob. rewrite list_ascii_of_string_of_list_ascii.
    rewrite filter_all.
    2:{ intros c Hc. rewrite encode_groups_split in Hc.
        apply in_app_or in Hc as [Hc|Hc].
        - by rewrite (proj2 (Hchars c Hc)).
        - destruct (padding_cases bytes) as [E | [E | E]]; rewrite E in Hc;
            cbn in Hc; intuition (subst; reflexivity). }
    pose proof (encoded_length bytes) as Hlen.
    rewrite encode_groups_split in *.
    rewrite strip_padding_encoded;
      [|intros c Hc; apply (Hchars c Hc)|apply padding_cases|exact Hlen].
    rewrite List.length_map.
    destruct (encoded_sextets_length bytes) as [k Hk].
    replace (_ mod 4 =? 1)%nat with false.
    2:{ symmetry. apply Nat.eqb_neq.
        destruct Hk as [-> | [-> | ->]]; rewrite Nat.add_comm || idtac;
          rewrite ?(Nat.mul_comm 4 k), ?Nat.Div0.mod_add, ?Nat.Div0.mod_mul;
          cbn; lia. }
    by rewrite sextets_of_chars, decode_encoded.
Qed.

End Base64.

Section Pcm16.
Import Js Audio.

Lemma clamp_range (x : Q) : (-1 <= clamp x <= 1)%Q.
Proof.
  unfold clamp. split.
  - apply Q.le_max_l.
  - apply Q.max_lub; [lra|apply Q.le_min_l].
Qed.


Lemma truncate_spec (v : Q) :
  ((0 <= v -> inject_Z (truncate v) <= v /\ v < inject_Z (truncate v) + 1
              /\ 0 <= inject_Z (truncate v))
   /\ (v < 0 -> v <= inject_Z (truncate v) /\ inject_Z (truncate v) < v + 1
                /\ inject_Z (truncate v) <= 0))%Q.
Proof.
  destruct v as [n d]. unfold truncate, Qle, Qlt, Qplus, inject_Z. cbn.
  split; intros H; Z.quot_rem_to_equations; nia.
Qed.

(** *** The sample that is played, one 16-bit integer at a time

    What [unscale] makes of each of the 65536 integers is checked by
    evaluation.  For a negative [t] the quotient [t / 32768] is a float
    and is kept as it is.  For the others the float [p] that is played
    lies below [(t + 1) / 32767], and either it is no less than
    [t / 32767], or no float lies in the gap from [p + 1 / 32767] to
    [(t + 1) / 32767]: the floats from [2 ^ -j] on are the multiples of
    [2 ^ -(j + 23)], and the largest of these below [(t + 1) / 32767] is
    still below [p + 1 / 32767]. *)

Definition Qlt_bool (a b : Q) : bool := negb (Qle_bool b a).

Definition cell_ok (t : Z) : bool :=
  let p := unscale t in
  if negb (Qle_bool (-1) p && Qle_bool p 1) then false
  else if t <? 0 then Qeq_bool p (t # 32768)
  else if negb (Qlt_bool p ((t + 1) # 32767)) then false
  else if Qle_bool (t # 32767) p then true
  else
    let c := (p + (1 # 32767))%Q in
    let j := - magnitude (Qnum c) (Zpos (Qden c)) in
    if negb ((0 <=? j) && Qle_bool (1 # Z.to_pos (2 ^ j)) c) then false
    else
      let U := 2 ^ (j + 23) in
      Qlt_bool ((((t + 1) * U - 1) / 32767) # Z.to_pos U) c.

Fixpoint all_in (k : nat) (f : Z -> bool) (lo : Z) : bool :=
  match k with
  | O => f lo
  | S k' => if all_in k' f lo then all_in k' f (lo + 2 ^ Z.of_nat k')
            else false
  end.

Lemma all_in_spec (k : nat) (f : Z -> bool) (lo t : Z) :
  all_in k f lo = true -> lo <= t < lo + 2 ^ Z.of_nat k -> f t = true.
Proof.
  revert lo. induction k as [|k IH]; intros lo H Ht.
  - cbn in *. replace t with lo by lia. exact H.
  - cbn [all_in] in H.
    destruct (all_in k f lo) eqn:H1; [|discriminate H].
    rewrite Nat2Z.inj_succ, Z.pow_succ_r in Ht by lia.
    destruct (Z.lt_ge_cases t (lo + 2 ^ Z.of_nat k)).
    + apply (IH lo); [exact H1|lia].
    + apply (IH (lo + 2 ^ Z.of_nat k)); [exact H|lia].
Qed.

Lemma int16_cells : all_in 16 cell_ok (-32768) = true.
Proof. vm_cast_no_check (eq_refl true). Qed.

Lemma cell_checked (t : Z) : -32768 <= t <= 32767 -> cell_ok t = true.
Proof.
  intros H. apply (all_in_spec 16 cell_ok (-32768)); [exact int16_cells|].
  change (2 ^ Z.of_nat 16) with 65536. lia.
Qed.





Lemma unscale_int16_range (t : Z) :
  -32768 <= t <= 32767 -> (-1 <= unscale t <= 1)%Q.
Proof.
  intros H. pose proof (cell_checked t H) as C. unfold cell_ok in C.
  destruct (Qle_bool (-1) (unscale t)) eqn:C1; [|discriminate C].
  destruct (Qle_bool (unscale t) 1) eqn:C2; [|discriminate C].
  apply Qle_bool_iff in C1, C2. split; assumption.
Qed.



Lemma quantised_range (s : Q) :
  (-1 <= s <= 1)%Q -> -32768 <= truncate (scale s) <= 32767.
Proof.
  intros [Hlo Hhi]. unfold scale.
  destruct (Qle_bool 0 s) eqn:E.
  - apply Qle_bool_iff in E.
    destruct (proj1 (truncate_spec (s * 32767)%Q)) as (H1 & H2 & H3); [lra|].
    set (t := truncate (s * 32767)%Q) in *.
    assert (Ht : 0 <= t) by (rewrite Zle_Qle; exact H3).
    split; [lia|].
    rewrite Zle_Qle. change (inject_Z 32767) with 32767%Q. lra.
  - assert (Hneg : (s < 0)%Q).
    { apply Qnot_le_lt. intros H. apply Qle_bool_iff in H. congruence. }
    destruct (proj2 (truncate_spec (s * 32768)%Q)) as (H1 & H2 & H3); [lra|].
    set (t := truncate (s * 32768)%Q) in *.
    split.
    + rewrite Zle_Qle. change (inject_Z (-32768)) with (-32768)%Q. lra.
    + rewrite Zle_Qle. change (inject_Z 32767) with 32767%Q. lra.
Qed.



Lemma int16_roundtrip (v : Q) :
  -32768 <= truncate v <= 32767 ->
  exists lo hi, setInt16_le v = [lo; hi] /\ 0 <= lo < 256 /\ 0 <= hi < 256
                /\ getInt16_le lo hi = truncate v.
Proof.
  intros H. unfold setInt16_le, toUint16, getInt16_le.
  set (t := truncate v) in *.
  exists (t mod 65536 mod 256), (t mod 65536 / 256).
  split; [done|]. split; [Z.div_mod_to_equations; lia|].
  split; [Z.div_mod_to_equations; lia|].
  destruct (Z.ltb_spec (t mod 65536 mod 256 + 256 * (t mod 65536 / 256)) 32768);
    Z.div_mod_to_equations; lia.
Qed.

Definition quantise (x : Q) : Z := truncate (scale (clamp x)).

Lemma quantise_range (x : Q) : -32768 <= quantise x <= 32767.
Proof. apply quantised_range, clamp_range. Qed.

Lemma pcm16_bytes_spec (audioData : list Q) :
  Forall is_byte (pcm16_bytes audioData)
  /\ List.length (pcm16_bytes audioData) = (2 * List.length audioData)%nat
  /\ samples_of_bytes (pcm16_bytes audioData)
     = List.map (fun x => unscale (quantise x)) audioData.
Proof.
  induction audioData as [|x l (IH1 & IH2 & IH3)]; [by repeat constructor|].
  destruct (int16_roundtrip (scale (clamp x)) (quantise_range x))
    as (lo & hi & E & Hlo & Hhi & Hget).
  unfold pcm16_bytes in *. cbn [flat_map]. rewrite E.
  cbn [app samples_of_bytes List.length List.map].
  split; [constructor; [exact Hlo|constructor; [exact Hhi|exact IH1]]|].
  split; [lia|]. rewrite Hget. by f_equal.
Qed.

Lemma chunk_positive : (0 < chunkSize)%nat.
Proof. unfold chunkSize. lia. Qed.

Lemma binary_of_chunks_all (fuel : nat) (bytes : list Z) :
  (List.length bytes <= fuel)%nat -> binary_of_chunks fuel bytes = bytes.
Proof.
  revert bytes. induction fuel as [|fuel IH]; intros bytes H.
  - destruct bytes; [done|cbn in H; lia].
  - cbn [binary_of_chunks]. destruct bytes as [|b bytes]; [done|].
    rewrite IH; [apply firstn_skipn|].
    rewrite length_skipn. pose proof chunk_positive. cbn [List.length] in *.
    lia.
Qed.







End Pcm16.

(* ===================================================================== *)
(** * Further code and its properties                                     *)
(* ===================================================================== *)

(** ** Session registry: the sweep, the counters, the registry over time *)

Module SessionSweep.
Import SessionService.

(** The ids that [cleanupExpiredSessions] collects in its first loop.  A
    JavaScript [Map] is visited in insertion order, a [gmap] in the order of
    its keys; the second loop ends one session per id, so the order does not
    show in the result. *)
Definition expiredSessions (now : Z) (reg : gmap string Session) : list string :=
  (List.filter (fun p => isSessionExpired now (snd p)) (map_to_list reg)).*1.

(** [cleanupExpiredSessions] *)
Definition cleanupExpiredSessions (now : Z) (reg : gmap string Session)
    : gmap string Session :=
  foldl (fun r sessionId => endSession sessionId r) reg (expiredSessions now reg).

(** [getActiveSessions] *)
Definition getActiveSessions (now : Z) (reg : gmap string Session)
    : list Session :=
  List.filter (fun s => match status s with
                        | active => negb (isSessionExpired now s)
                        | _ => false
                        end)
    (map_to_list reg).*2.

(** [getSessionCount] *)
Definition getSessionCount (reg : gmap string Session) : nat := size reg.

(** The calls that reach the registry, each with the clock reading it
    takes. *)
Inductive Call :=
| Create (now : Z) (rnd uid cid : string)
| Get (now : Z) (sessionId : string)
| Touch (now : Z) (sessionId : string)
| End_ (sessionId : string)
| Sweep (now : Z).

Definition perform (c : Call) (reg : gmap string Session) : gmap string Session :=
  match c with
  | Create now rnd uid cid => snd (createSession now rnd uid cid reg)
  | Get now sid => snd (getSession now sid reg)
  | Touch now sid => updateActivity now sid reg
  | End_ sid => endSession sid reg
  | Sweep now => cleanupExpiredSessions now reg
  end.

Definition performAll (cs : list Call) (reg : gmap string Session)
    : gmap string Session :=
  foldl (fun r c => perform c r) reg cs.

(** The clock reading of a call, if it takes one. *)
Definition reading (c : Call) : option Z :=
  match c with
  | Create now _ _ _ | Get now _ | Touch now _ | Sweep now => Some now
  | End_ _ => None
  end.

(** The readings of the calls never go back, starting from [t]. *)
Fixpoint clock_runs (t : Z) (cs : list Call) : Prop :=
  match cs with
  | [] => True
  | c :: cs' =>
      match reading c with
      | Some now => t <= now /\ clock_runs now cs'
      | None => clock_runs t cs'
      end
  end.

End SessionSweep.

Section SessionRegistryMore.
Import SessionService SessionSweep.

Lemma foldl_endSession (l : list string) (reg : gmap string Session)
    (k : string) :
  foldl (fun r sessionId => endSession sessionId r) reg l !! k
  = if bool_decide (k ∈ l) then None else reg !! k.
Proof.
  revert reg. induction l as [|x l IH]; intros reg; cbn.
  - rewrite bool_decide_eq_false_2; [done|apply not_elem_of_nil].
  - rewrite IH, endSession_delete.
    destruct (decide (k = x)) as [->|Hne].
    + rewrite lookup_delete_eq.
      rewrite (bool_decide_eq_true_2 (x ∈ x :: l))
        by (apply elem_of_cons; by left).
      by case_bool_decide.
    + rewrite lookup_delete_ne by done.
      case_bool_decide as H1; case_bool_decide as H2; try done.
      * exfalso. apply H2, elem_of_cons. by right.
      * exfalso. apply H1. apply elem_of_cons in H2 as [?|?]; done.
Qed.

Lemma elem_of_expiredSessions (now : Z) (reg : gmap string Session)
    (k : string) :
  k ∈ expiredSessions now reg
  <-> exists s, reg !! k = Some s /\ isSessionExpired now s = true.
Proof.
  unfold expiredSessions. rewrite list_elem_of_fmap. split.
  - intros ([k' s] & -> & H). apply list_elem_of_In, filter_In in H as [H1 H2].
    apply list_elem_of_In, elem_of_map_to_list in H1. eauto.
  - intros (s & Hs & He). exists (k, s). split; [done|].
    apply list_elem_of_In, filter_In. split; [|done].
    by apply list_elem_of_In, elem_of_map_to_list.
Qed.

Lemma cleanup_lookup (now : Z) (reg : gmap string Session) (k : string) :
  cleanupExpiredSessions now reg !! k
  = match reg !! k with
    | Some s => if isSessionExpired now s then None else Some s
    | None => None
    end.
Proof.
  unfold cleanupExpiredSessions. rewrite foldl_endSession.
  case_bool_decide as H.
  - apply elem_of_expiredSessions in H as (s & -> & ->). done.
  - destruct (reg !! k) as [s|] eqn:E; [|done].
    destruct (isSessionExpired now s) eqn:Ex; [|done].
    exfalso. apply H, elem_of_expiredSessions. eauto.
Qed.

Lemma getSession_live (now : Z) (sid : string) (reg : gmap string Session)
    (s : Session) :
  reg !! sid = Some s -> now - lastActivity s <= 30 * 60 * 1000 ->
  getSession now sid reg = (Some s, reg).
Proof.
  intros Hs Hlive. unfold getSession, isSessionExpired, sessionTimeout.
  rewrite Hs. by destruct (Z.ltb_spec (30 * 60 * 1000) (now - lastActivity s));
    [lia|].
Qed.

Lemma getSession_lookup (now : Z) (sid : string) (reg : gmap string Session) :
  (forall s, reg !! sid = Some s -> isSessionExpired now s = false) ->
  getSession now sid reg = (reg !! sid, reg).
Proof.
  intros H. unfold getSession. destruct (reg !! sid) as [s|]; [|done].
  by rewrite (H s eq_refl).
Qed.

(** X1.  A session just created is what [getSession] answers for its id, at
    any time up to thirty minutes after the creation, and answering leaves
    the registry as it is; the creation touches no other id. *)
Theorem createSession_then_getSession (now later : Z) (rnd uid cid : string)
    (reg : gmap string Session) :
  later - now <= 30 * 60 * 1000 ->
  let sessionId := fst (createSession now rnd uid cid reg) in
  let reg' := snd (createSession now rnd uid cid reg) in
  getSession later sessionId reg'
    = (Some {| id := sessionId; userId := uid; connectionId := cid;
               createdAt := now; lastActivity := now; status := active |},
       reg')
  /\ forall k, k <> sessionId -> reg' !! k = reg !! k.
Proof.
  intros Hlive sid reg'. subst sid reg'. unfold createSession. cbn. split.
  - apply getSession_live; [apply lookup_insert_eq|exact Hlive].
  - intros k Hk. by rewrite lookup_insert_ne.
Qed.

Lemma createSession_then_getSession_witness :
  fst (getSession 1800000 (fst (createSession 0 "r" "u" "c" ∅))
         (snd (createSession 0 "r" "u" "c" ∅)))
  = Some {| id := fst (createSession 0 "r" "u" "c" ∅); userId := "u";
            connectionId := "c"; createdAt := 0; lastActivity := 0;
            status := active |}.
Proof.
  rewrite (proj1 (createSession_then_getSession 0 1800000 "r" "u" "c" ∅
                    ltac:(lia))).
  reflexivity.
Defined.

(** X2.  [updateActivity] on a stored session, whether or not it had
    already timed out, makes [getSession] answer it, with the new activity
    time, for the next thirty minutes; on an id that is not stored it does
    nothing. *)
Theorem updateActivity_keeps_alive (now later : Z) (sid : string)
    (reg : gmap string Session) :
  (forall s, reg !! sid = Some s -> later - now <= 30 * 60 * 1000 ->
     getSession later sid (updateActivity now sid reg)
     = (Some (touch now s), updateActivity now sid reg))
  /\ (reg !! sid = None -> updateActivity now sid reg = reg)
  /\ forall k, k <> sid -> updateActivity now sid reg !! k = reg !! k.
Proof.
  unfold updateActivity. split; [|split].
  - intros s Hs Hlive. rewrite Hs. apply getSession_live;
      [apply lookup_insert_eq|exact Hlive].
  - by intros ->.
  - intros k Hk. destruct (reg !! sid); [by rewrite lookup_insert_ne|done].
Qed.

Lemma updateActivity_keeps_alive_witness :
  fst (getSession 9000000 "sess_1"
         (updateActivity 8000000 "sess_1" {["sess_1" := sampleSession]}))
  = Some (touch 8000000 sampleSession)
  /\ isSessionExpired 8000000 sampleSession = true.
Proof.
  split; [|reflexivity].
  rewrite (proj1 (updateActivity_keeps_alive 8000000 9000000 "sess_1"
                    {["sess_1" := sampleSession]}) sampleSession
             (lookup_singleton_eq _ _) ltac:(lia)).
  reflexivity.
Defined.

(** X3.  Ending a session twice is ending it once, ending an id that is not
    stored does nothing, two endings can be done in either order, and an
    ended session is gone for [getSession] while the others stay. *)
Theorem endSession_twice (sid other : string) (reg : gmap string Session) :
  endSession sid (endSession sid reg) = endSession sid reg
  /\ (reg !! sid = None -> endSession sid reg = reg)
  /\ endSession sid (endSession other reg) = endSession other (endSession sid reg)
  /\ (forall now, getSession now sid (endSession sid reg)
                  = (None, endSession sid reg))
  /\ (other <> sid -> endSession sid reg !! other = reg !! other).
Proof.
  rewrite !endSession_delete. split; [apply delete_delete_eq|].
  split; [intros H; by apply delete_id|].
  split; [apply delete_delete|].
  split.
  - intros now. unfold getSession. by rewrite lookup_delete_eq.
  - intros Hne. by rewrite lookup_delete_ne.
Qed.

Lemma endSession_twice_witness :
  endSession "sess_1" ∅ = ∅
  /\ endSession "sess_1" {["sess_1" := sampleSession]} !! "sess_2"
     = ({["sess_1" := sampleSession]} : gmap string Session) !! "sess_2".
Proof.
  split.
  - apply (proj1 (proj2 (endSession_twice "sess_1" "x" ∅))).
    apply lookup_empty.
  - apply (proj2 (proj2 (proj2 (proj2
             (endSession_twice "sess_1" "sess_2"
                {["sess_1" := sampleSession]}))))).
    discriminate.
Defined.

(** X4.  The sweep removes exactly the sessions that have timed out and
    keeps every other one as it is; sweeping again at the same time changes
    nothing; after it [getSession] never has to end a session at that
    time; and the number of sessions does not grow. *)
Theorem cleanupExpiredSessions_exact (now : Z) (reg : gmap string Session) :
  (forall k, cleanupExpiredSessions now reg !! k
             = match reg !! k with
               | Some s => if sessionTimeout <? now - lastActivity s
                           then None else Some s
               | None => None
               end)
  /\ cleanupExpiredSessions now (cleanupExpiredSessions now reg)
     = cleanupExpiredSessions now reg
  /\ (forall k, getSession now k (cleanupExpiredSessions now reg)
                = (cleanupExpiredSessions now reg !! k,
                   cleanupExpiredSessions now reg))
  /\ (getSessionCount (cleanupExpiredSessions now reg)
      <= getSessionCount reg)%nat.
Proof.
  assert (Hlive : forall k s, cleanupExpiredSessions now reg !! k = Some s ->
                    reg !! k = Some s /\ isSessionExpired now s = false).
  { intros k s. rewrite cleanup_lookup. destruct (reg !! k) as [s'|]; [|done].
    destruct (isSessionExpired now s') eqn:E; [done|]. by intros [= <-]. }
  split; [exact (cleanup_lookup now reg)|]. split; [|split].
  - apply map_eq. intros k. rewrite cleanup_lookup.
    destruct (cleanupExpiredSessions now reg !! k) as [s|] eqn:E; [|done].
    by rewrite (proj2 (Hlive k s E)).
  - intros k. apply getSession_lookup. intros s Hs. apply (Hlive k s Hs).
  - apply map_subseteq_size, map_subseteq_spec. intros k s Hs.
    apply (Hlive k s Hs).
Qed.

(** Every stored session sits under its own id, is active, and was last
    active between its creation and the clock reading [t]. *)
Definition well_kept (t : Z) (reg : gmap string Session) : Prop :=
  forall k s, reg !! k = Some s ->
    id s = k /\ status s = active
    /\ createdAt s <= lastActivity s /\ lastActivity s <= t.

Lemma well_kept_subset (t t' : Z) (reg reg' : gmap string Session) :
  t <= t' -> (forall k s, reg' !! k = Some s -> reg !! k = Some s) ->
  well_kept t reg -> well_kept t' reg'.
Proof.
  intros Ht Hsub H k s Hs. destruct (H k s (Hsub k s Hs)) as (?&?&?&?).
  repeat split; try done. lia.
Qed.

Lemma perform_well_kept (c : Call) (t : Z) (reg : gmap string Session) :
  well_kept t reg ->
  match reading c with
  | Some now => t <= now -> well_kept now (perform c reg)
  | None => well_kept t (perform c reg)
  end.
Proof.
  intros H. destruct c as [now rnd uid cid|now sid|now sid|sid|now]; cbn.
  - intros Ht k s. destruct (decide (k = generateSessionId now rnd)) as [->|Hk].
    + rewrite lookup_insert_eq. intros [= <-]. cbn. repeat split; lia.
    + rewrite lookup_insert_ne by done. intros Hs.
      destruct (H k s Hs) as (?&?&?&?). repeat split; try done. lia.
  - intros Ht. apply (well_kept_subset t now reg); [done| |done].
    intros k s. unfold getSession. destruct (reg !! sid) as [s'|] eqn:E; [|done].
    destruct (isSessionExpired now s'); [|done]. cbn.
    rewrite endSession_delete. intros Hs.
    by apply lookup_delete_Some in Hs as [_ Hs].
  - intros Ht k s. unfold updateActivity.
    destruct (reg !! sid) as [s'|] eqn:E.
    + destruct (decide (k = sid)) as [->|Hk].
      * rewrite lookup_insert_eq. intros [= <-]. cbn.
        destruct (H sid s' E) as (?&?&?&?). repeat split; try done; lia.
      * rewrite lookup_insert_ne by done. intros Hs.
        destruct (H k s Hs) as (?&?&?&?). repeat split; try done. lia.
    + intros Hs. destruct (H k s Hs) as (?&?&?&?). repeat split; try done. lia.
  - apply (well_kept_subset t t reg); [lia| |done].
    intros k s. rewrite endSession_delete. intros Hs.
    by apply lookup_delete_Some in Hs as [_ Hs].
  - intros Ht. apply (well_kept_subset t now reg); [done| |done].
    intros k s. rewrite cleanup_lookup. destruct (reg !! k) as [s'|]; [|done].
    by destruct (isSessionExpired now s').
Qed.

Lemma performAll_well_kept (cs : list Call) (t : Z)
    (reg : gmap string Session) :
  clock_runs t cs -> well_kept t reg ->
  exists t', well_kept t' (performAll cs reg).
Proof.
  revert t reg. induction cs as [|c cs IH]; intros t reg Hclock H; cbn.
  - by exists t.
  - pose proof (perform_well_kept c t reg H) as Hc. cbn in Hclock.
    destruct (reading c) as [now|].
    + destruct Hclock as [Ht Hrest]. by apply (IH now), Hc.
    + by apply (IH t).
Qed.

(** X5.  Whatever calls reach an empty registry, with clock readings that
    never go back: every stored session sits under its own id, has status
    active, and was last active no earlier than it was created. *)
Theorem registry_well_kept (cs : list Call) (t : Z) (k : string) (s : Session) :
  clock_runs t cs ->
  performAll cs ∅ !! k = Some s ->
  id s = k /\ status s = active /\ createdAt s <= lastActivity s.
Proof.
  intros Hclock Hs.
  destruct (performAll_well_kept cs t ∅ Hclock) as [t' H].
  - intros k' s' H'. by rewrite lookup_empty in H'.
  - destruct (H k s Hs) as (?&?&?&?). done.
Qed.

Lemma registry_well_kept_witness :
  createdAt (touch 9 {| id := "sess_5_r"; userId := "u"; connectionId := "c";
                        createdAt := 5; lastActivity := 5; status := active |})
  <= lastActivity
       (touch 9 {| id := "sess_5_r"; userId := "u"; connectionId := "c";
                   createdAt := 5; lastActivity := 5; status := active |}).
Proof.
  refine (proj2 (proj2 (registry_well_kept
            [Create 5 "r" "u" "c"; Touch 9 "sess_5_r"; Sweep 10] 0
            "sess_5_r" _ _ _))).
  - cbn. lia.
  - unfold performAll. cbn [foldl perform]. rewrite cleanup_lookup.
    unfold createSession, updateActivity. cbn [snd].
    change (generateSessionId 5 "r") with "sess_5_r".
    rewrite !lookup_insert_eq. reflexivity.
Defined.

End SessionRegistryMore.

(** ** The sessions that count as active *)

Section ActiveSessions.
Import SessionService SessionSweep.

Lemma filter_all_length {A} (f : A -> bool) (l : list A) :
  (forall x, x ∈ l -> f x = true) ->
  List.length (List.filter f l) = List.length l.
Proof.
  induction l as [|x l IH]; intros H; cbn; [done|].
  rewrite (H x) by (apply elem_of_cons; by left). cbn. f_equal.
  apply IH. intros y Hy. apply H, elem_of_cons. by right.
Qed.

Lemma elem_of_values (reg : gmap string Session) (s : Session) :
  s ∈ (map_to_list reg).*2 <-> exists k, reg !! k = Some s.
Proof.
  rewrite list_elem_of_fmap. split.
  - intros ([k s'] & -> & H). exists k. by apply elem_of_map_to_list.
  - intros [k Hk]. exists (k, s). split; [done|].
    by apply elem_of_map_to_list.
Qed.

(** X6.  On a registry that calls with a clock that never goes back have
    built from the empty one, [getActiveSessions] lists exactly the stored
    sessions that have not timed out: its test of the status never rejects
    one.  Right after a sweep it lists as many sessions as
    [getSessionCount] counts. *)
Theorem getActiveSessions_reachable (cs : list Call) (t now : Z) :
  clock_runs t cs ->
  let reg := performAll cs ∅ in
  (forall s, s ∈ getActiveSessions now reg
             <-> exists k, reg !! k = Some s
                           /\ isSessionExpired now s = false)
  /\ List.length (getActiveSessions now (cleanupExpiredSessions now reg))
     = getSessionCount (cleanupExpiredSessions now reg).
Proof.
  intros Hclock reg.
  destruct (performAll_well_kept cs t ∅ Hclock) as [t' Hkept].
  { intros k s H. by rewrite lookup_empty in H. }
  fold reg in Hkept. split.
  - intros s. unfold getActiveSessions.
    rewrite list_elem_of_In, filter_In, <- list_elem_of_In, elem_of_values.
    split.
    + intros [[k Hk] Hs]. exists k. split; [done|].
      destruct (Hkept k s Hk) as (_ & Hst & _). rewrite Hst in Hs.
      by apply negb_true_iff in Hs.
    + intros (k & Hk & Hlive). split; [by exists k|].
      destruct (Hkept k s Hk) as (_ & -> & _). by rewrite Hlive.
  - unfold getActiveSessions, getSessionCount.
    rewrite filter_all_length.
    + by rewrite length_fmap, length_map_to_list.
    + intros s Hs. apply elem_of_values in Hs as [k Hk].
      rewrite cleanup_lookup in Hk.
      destruct (reg !! k) as [s'|] eqn:E; [|done].
      destruct (isSessionExpired now s') eqn:Ex; [done|].
      injection Hk as <-.
      destruct (Hkept k s' E) as (_ & -> & _). by rewrite Ex.
Qed.

Lemma getActiveSessions_reachable_witness :
  List.length
    (getActiveSessions 1800010
       (cleanupExpiredSessions 1800010
          (performAll [Create 5 "r" "u" "c"; Create 20 "q" "v" "d"] ∅)))
  = getSessionCount
      (cleanupExpiredSessions 1800010
         (performAll [Create 5 "r" "u" "c"; Create 20 "q" "v" "d"] ∅)).
Proof.
  refine (proj2 (getActiveSessions_reachable
                   [Create 5 "r" "u" "c"; Create 20 "q" "v" "d"] 0 1800010 _)).
  cbn. lia.
Defined.

End ActiveSessions.

(** ** Tokens: [services/auth.ts]; connections end to end *)

Module AuthService.

(** [generateDemoToken(userId)], [now] being [Date.now()]. *)
Definition generateDemoToken (now : Z) (userId : string) : string :=
  "demo_" +:+ userId +:+ "_" +:+ pretty now.

End AuthService.

Section Authentication.
Import Js Gateway AuthService.

Lemma substring_all (s : string) :
  String.substring 0 (String.length s) s = s.
Proof. induction s as [|c s IH]; cbn; [done|by rewrite IH]. Qed.

Lemma string_length_app (a b : string) :
  String.length (a +:+ b) = (String.length a + String.length b)%nat.
Proof. induction a as [|c a IH]; simpl; [done|by f_equal]. Qed.

Lemma validateToken_long (token : string) :
  (10 <= String.length token)%nat ->
  validateToken token = Some (remove_first "demo_" token).
Proof.
  intros H. unfold validateToken.
  destruct token as [|c token]; [cbn in H; lia|].
  replace (String.length (String c token) <? 10)%nat with false
    by (symmetry; apply Nat.ltb_ge; exact H).
  reflexivity.
Qed.

Lemma validateToken_short (token : string) :
  (String.length token < 10)%nat -> validateToken token = None.
Proof.
  intros H. unfold validateToken.
  apply Nat.ltb_lt in H. rewrite H. by rewrite orb_true_r.
Qed.

Lemma remove_first_prefix (rest : string) :
  remove_first "demo_" ("demo_" +:+ rest) = rest.
Proof.
  simpl. change ("" +:+ rest) with rest.
  rewrite Nat.sub_0_r, substring_all. by destruct rest.
Qed.

(** X7.  A token made by [generateDemoToken] for a user id of four
    characters or more is accepted by [validateToken], and the user id it
    yields is the given one followed by [_] and the time of issue. *)
Theorem demo_token_round_trip (now : Z) (userId : string) :
  (4 <= String.length userId)%nat ->
  validateToken (generateDemoToken now userId)
  = Some (userId +:+ "_" +:+ pretty now).
Proof.
  intros H. unfold generateDemoToken.
  rewrite validateToken_long.
  - by rewrite remove_first_prefix.
  - rewrite !string_length_app. cbn. lia.
Qed.

Lemma demo_token_round_trip_witness :
  validateToken (generateDemoToken 17 "alice") = Some "alice_17".
Proof. apply (demo_token_round_trip 17 "alice"). cbn. lia. Defined.

End Authentication.

Section Connections.
Import Js Gateway AuthService.

(** The service object once [connect()] has resolved: the link is open and
    the [session.update] event, tagged with the identifier drawn for it, is
    the one event written. *)
Definition connectedService (eid : string) : OpenAIRealtimeService.Service :=
  {| OpenAIRealtimeService.ws :=
       Some {| OpenAIRealtimeService.readyState := OpenAIRealtimeService.OPEN;
               OpenAIRealtimeService.sent :=
                 [Obj [("type", Str "session.update");
                       ("event_id", Str eid)]] |};
     OpenAIRealtimeService.sessionId := None;
     OpenAIRealtimeService.isConnected := true |}.

Definition register (context : ConnectionContext) (service : nat)
    (sock : Socket) : Socket :=
  {| outbox := outbox sock; closed := closed sock;
     listeners := Some (context, service) |}.

Lemma setup_opened (now : Z) (eid : string) (r ws : nat)
    (context : ConnectionContext) (srv : Server) :
  fst (setupAuthenticatedConnection now eid r
         (Connect OpenAIRealtimeService.Opened) ws context srv)
  = with_sockets (alter (socket_send (welcomeFrame now context)) ws)
      (with_sockets (alter (register context r) ws)
         (with_heap (<[r := connectedService eid]>)
            (with_openaiServices (<[sessionId context := r]>)
               (with_heap (<[r := OpenAIRealtimeService.create]>)
                  (with_connectionContexts (<[ws := context]>) srv))))).
Proof.
  unfold setupAuthenticatedConnection, try_catch, bind, modify,
    relayTransportError, on_service, ret.
  cbn [fst snd with_openaiServices with_heap heap].
  rewrite lookup_insert_eq. reflexivity.
Qed.

Lemma setup_opened_socket (now : Z) (eid : string) (r ws : nat)
    (context : ConnectionContext) (srv : Server) (sock : Socket) :
  sockets srv !! ws = Some sock ->
  closed sock = None ->
  sockets (fst (setupAuthenticatedConnection now eid r
                  (Connect OpenAIRealtimeService.Opened) ws context srv)) !! ws
  = Some {| outbox := outbox sock ++ [welcomeFrame now context];
            closed := None; listeners := Some (context, r) |}.
Proof.
  intros Hsock Hopen. rewrite setup_opened. cbn.
  rewrite !lookup_alter_eq, Hsock. cbn. unfold socket_send, register. cbn.
  by rewrite Hopen.
Qed.

Lemma bearer_token (t : string) :
  String.prefix "Bearer " ("Bearer " +:+ t) = true
  /\ String.substring 7 (String.length ("Bearer " +:+ t) - 7) ("Bearer " +:+ t)
     = t.
Proof.
  split; simpl.
  - by destruct t.
  - change ("" +:+ t) with t. rewrite Nat.sub_0_r. apply substring_all.
Qed.

(** X8.  A connection that presents a non-empty token of fewer than ten
    characters is closed with code 1008 and nothing else: no frame is
    written to it, no listener is registered, and the sessions, the service
    objects, the service map and the connection contexts are as they
    were. *)
Theorem handleConnection_rejects (now : Z) (rnd eid : string) (r : nat)
    (answer : UpstreamAnswer) (ws : nat) (req : Request) (cid : string)
    (srv : Server) (token : string) :
  extractTokenFromRequest req = Some token ->
  token <> "" ->
  (String.length token < 10)%nat ->
  let srv' := handleConnection now rnd eid r answer ws req cid srv in
  sockets srv' !! ws
  = Some {| outbox := []; closed := Some (1008, "Authentication failed");
            listeners := None |}
  /\ sessions srv' = sessions srv
  /\ heap srv' = heap srv
  /\ openaiServices srv' = openaiServices srv
  /\ connectionContexts srv' = connectionContexts srv.
Proof.
  intros Htok Hne Hshort srv'. subst srv'.
  unfold handleConnection, authenticateConnection. rewrite Htok.
  cbn [nonempty]. apply String.eqb_neq in Hne. rewrite Hne.
  rewrite validateToken_short by done. cbn.
  rewrite lookup_alter_eq, lookup_insert_eq. done.
Qed.

Lemma handleConnection_rejects_witness :
  sockets (handleConnection 5 "r" "e" 0 (Connect OpenAIRealtimeService.Opened)
             7 {| tokenFromQuery := Some "secret"; authorization := None |}
             "c" Gateway.empty) !! 7%nat
  = Some {| outbox := []; closed := Some (1008, "Authentication failed");
            listeners := None |}.
Proof.
  refine (proj1 (handleConnection_rejects 5 "r" "e" 0
                   (Connect OpenAIRealtimeService.Opened) 7
                   {| tokenFromQuery := Some "secret"; authorization := None |}
                   "c" Gateway.empty "secret" eq_refl _ _)).
  - discriminate.
  - cbn. lia.
Defined.

(** X9.  A connection without a token, whose upstream link comes up, gets a
    demo identity: the one frame written to it is the welcome frame, which
    says [authenticated: false] and names the user [demo_user_<now>]; the
    listeners are registered; a session that is active since [now] is in the
    registry under the id of the frame; and the service object, reachable
    from the service map under that id, is connected and has sent the
    session configuration upstream. *)
Theorem handleConnection_demo_session (now : Z) (rnd eid : string) (r : nat)
    (ws : nat) (req : Request) (cid : string) (srv : Server) :
  nonempty (extractTokenFromRequest req) = None ->
  let srv' := handleConnection now rnd eid r
                (Connect OpenAIRealtimeService.Opened) ws req cid srv in
  let sid := SessionService.generateSessionId now rnd in
  let uid := "demo_user_" +:+ pretty now in
  let context := {| sessionId := sid; userId := uid; authenticated := false;
                    connectionTime := now |} in
  sockets srv' !! ws
  = Some {| outbox :=
              [{| ftype := "welcome";
                  payload :=
                    Obj [("message", Str "Connected to Smriti AI Guidance");
                         ("sessionId", Str sid);
                         ("userId", Str uid);
                         ("authenticated", Bool false);
                         ("features", Arr [Str "text_chat"; Str "voice_chat";
                                           Str "spiritual_guidance"])];
                  timestamp := now; fsession := sid |}];
            closed := None; listeners := Some (context, r) |}
  /\ get_opt (payload (welcomeFrame now context)) "authenticated" = Bool false
  /\ sessions srv' !! sid
     = Some {| SessionService.id := sid; SessionService.userId := uid;
               SessionService.connectionId := cid;
               SessionService.createdAt := now;
               SessionService.lastActivity := now;
               SessionService.status := SessionService.active |}
  /\ connectionContexts srv' !! ws = Some context
  /\ openaiServices srv' !! sid = Some r
  /\ heap srv' !! r = Some (connectedService eid).
Proof.
  intros Hnone srv' sid uid context. subst srv'.
  unfold handleConnection, authenticateConnection. rewrite Hnone.
  unfold SessionService.createSession. fold sid uid. fold context.
  split.
  { rewrite (setup_opened_socket now eid r ws context _ newSocket);
      [done| |done].
    cbn. apply lookup_insert_eq. }
  split; [reflexivity|].
  rewrite setup_opened. cbn.
  rewrite !lookup_insert_eq. done.
Qed.

Lemma handleConnection_demo_session_witness :
  heap (handleConnection 5 "r" "e" 0 (Connect OpenAIRealtimeService.Opened) 7
          {| tokenFromQuery := None; authorization := Some "Basic abc" |}
          "c" Gateway.empty) !! 0%nat
  = Some (connectedService "e").
Proof.
  refine (proj2 (proj2 (proj2 (proj2 (proj2
            (handleConnection_demo_session 5 "r" "e" 0 7
               {| tokenFromQuery := None; authorization := Some "Basic abc" |}
               "c" Gateway.empty _)))))).
  reflexivity.
Defined.

(** X10.  A connection that carries, in its [Authorization] header and with
    no token in the query, [Bearer] and a demo token issued at [issued] for
    a user id of four characters or more is welcomed as authenticated; the
    user of its context and of its session is the id followed by [_] and
    the time of issue. *)
Theorem handleConnection_bearer_demo_token (now issued : Z)
    (rnd eid userId : string) (r : nat) (ws : nat) (req : Request)
    (cid : string) (srv : Server) :
  nonempty (tokenFromQuery req) = None ->
  authorization req = Some ("Bearer " +:+ generateDemoToken issued userId) ->
  (4 <= String.length userId)%nat ->
  let srv' := handleConnection now rnd eid r
                (Connect OpenAIRealtimeService.Opened) ws req cid srv in
  let sid := SessionService.generateSessionId now rnd in
  let uid := userId +:+ "_" +:+ pretty issued in
  let context := {| sessionId := sid; userId := uid; authenticated := true;
                    connectionTime := now |} in
  sockets srv' !! ws
  = Some {| outbox :=
              [{| ftype := "welcome";
                  payload :=
                    Obj [("message", Str "Connected to Smriti AI Guidance");
                         ("sessionId", Str sid);
                         ("userId", Str uid);
                         ("authenticated", Bool true);
                         ("features", Arr [Str "text_chat"; Str "voice_chat";
                                           Str "spiritual_guidance"])];
                  timestamp := now; fsession := sid |}];
            closed := None; listeners := Some (context, r) |}
  /\ sessions srv' !! sid
     = Some {| SessionService.id := sid; SessionService.userId := uid;
               SessionService.connectionId := cid;
               SessionService.createdAt := now;
               SessionService.lastActivity := now;
               SessionService.status := SessionService.active |}
  /\ connectionContexts srv' !! ws = Some context.
Proof.
  intros Hquery Hheader Hlen srv' sid uid context. subst srv'.
  assert (Htok : extractTokenFromRequest req
                 = Some (generateDemoToken issued userId)).
  { unfold extractTokenFromRequest. rewrite Hquery, Hheader.
    generalize (generateDemoToken issued userId). intros t.
    cbn [nonempty].
    replace ("Bearer " +:+ t =? "")%string with false by reflexivity.
    by rewrite (proj1 (bearer_token t)), (proj2 (bearer_token t)). }
  unfold handleConnection, authenticateConnection. rewrite Htok.
  cbn [nonempty].
  replace (generateDemoToken issued userId =? "")%string with false
    by reflexivity.
  assert (Hv : validateToken (generateDemoToken issued userId) = Some uid).
  { unfold generateDemoToken. rewrite validateToken_long.
    - by rewrite remove_first_prefix.
    - rewrite !string_length_app. cbn. lia. }
  rewrite Hv.
  unfold SessionService.createSession. fold sid. fold context.
  split.
  { rewrite (setup_opened_socket now eid r ws context _ newSocket);
      [done| |done].
    cbn. apply lookup_insert_eq. }
  rewrite setup_opened. cbn.
  rewrite !lookup_insert_eq. done.
Qed.

Lemma handleConnection_bearer_demo_token_witness :
  connectionContexts
    (handleConnection 20 "r" "e" 0 (Connect OpenAIRealtimeService.Opened) 7
       {| tokenFromQuery := None;
          authorization := Some "Bearer demo_alice_17" |}
       "c" Gateway.empty) !! 7%nat
  = Some {| sessionId := "sess_20_r"; userId := "alice_17";
            authenticated := true; connectionTime := 20 |}.
Proof.
  refine (proj2 (proj2
            (handleConnection_bearer_demo_token 20 17 "r" "e" "alice" 0 7
               {| tokenFromQuery := None;
                  authorization := Some "Bearer demo_alice_17" |}
               "c" Gateway.empty eq_refl eq_refl _))).
  cbn. lia.
Defined.

(** X11.  When the upstream link came up, the close of the inbound socket
    undoes what the connection set up: its session, its entry in the
    service map and its context are gone, every other session, entry and
    context is as before the connection, and the service object is
    disconnected. *)
Theorem close_releases_connection (now : Z) (eid : string) (r ws : nat)
    (context : ConnectionContext) (srv : Server) (sock : Socket) :
  sockets srv !! ws = Some sock ->
  closed sock = None ->
  let srv1 := fst (setupAuthenticatedConnection now eid r
                     (Connect OpenAIRealtimeService.Opened) ws context srv) in
  let srv2 := emitClose ws srv1 in
  sessions srv2 = delete (sessionId context) (sessions srv)
  /\ openaiServices srv2 = delete (sessionId context) (openaiServices srv)
  /\ connectionContexts srv2 = delete ws (connectionContexts srv)
  /\ heap srv2 !! r = Some OpenAIRealtimeService.create.
Proof.
  intros Hsock Hopen srv1 srv2. subst srv2. unfold emitClose.
  subst srv1.
  rewrite (setup_opened_socket now eid r ws context srv sock Hsock Hopen).
  cbn [listeners]. rewrite setup_opened.
  unfold handleDisconnection, bind, gets, modify, on_service.
  cbn [fst snd with_sockets with_heap with_openaiServices
       with_connectionContexts with_sessions openaiServices heap sessions
       connectionContexts sockets].
  rewrite lookup_insert_eq.
  cbn [fst snd with_sockets with_heap with_openaiServices
       with_connectionContexts with_sessions openaiServices heap sessions
       connectionContexts sockets].
  rewrite lookup_insert_eq.
  cbn.
  rewrite endSession_delete, delete_insert_eq, delete_insert_eq,
    lookup_insert_eq.
  done.
Qed.

Lemma close_releases_connection_witness :
  sessions (emitClose 7
              (fst (setupAuthenticatedConnection 5 "e" 0
                      (Connect OpenAIRealtimeService.Opened) 7 sampleContext
                      sampleServer)))
  = delete "sess_1" (sessions sampleServer).
Proof.
  exact (proj1 (close_releases_connection 5 "e" 0 7 sampleContext sampleServer
                  openSocket (lookup_singleton_eq _ _) eq_refl)).
Defined.

End Connections.

(** ** The router on a live link; the events that come back *)

Module UpstreamEvents.
Import Js Gateway.
Local Open Scope js_scope.

(** The handlers that [createOpenAIProxy(ws, context)] returns.  The first
    reads [event.type] for its log line before it writes. *)
Definition onOpenAIEvent (now : Z) (ws : nat) (context : ConnectionContext)
    (event : Value) : M Server unit :=
  _ <- lift (get event "type") ;;
  ws_send ws {| ftype := "openai_event"; payload := event; timestamp := now;
                fsession := sessionId context |}.

(** [payload: { error }]: a member that is [undefined] is the one
    [JSON.stringify] leaves out. *)
Definition onOpenAIError (now : Z) (ws : nat) (context : ConnectionContext)
    (error : Value) : M Server unit :=
  ws_send ws {| ftype := "openai_error"; payload := Obj [("error", error)];
                timestamp := now; fsession := sessionId context |}.

(** What [this.sessionId = event.session.id] leaves in the field, which is
    only ever printed: the id when it is a string. *)
Definition sessionIdOf (v : Value) : option string :=
  match v with
  | Str s => Some s
  | _ => None
  end.

(** [handleServerEvent(event)] of the service object at address [r], whose
    event handlers are those of the proxy for [ws] and [context]. *)
Definition handleServerEvent (now : Z) (r ws : nat)
    (context : ConnectionContext) (event : Value) : M Server unit :=
  ty <- lift (get event "type") ;;
  (if is_str ty "session.created" then
     session <- lift (get event "session") ;;
     sid <- lift (get session "id") ;;
     on_service r
       (modify (fun svc =>
          {| OpenAIRealtimeService.ws := OpenAIRealtimeService.ws svc;
             OpenAIRealtimeService.sessionId := sessionIdOf sid;
             OpenAIRealtimeService.isConnected :=
               OpenAIRealtimeService.isConnected svc |}))
   else ret tt) ;;
  if is_str ty "error" then
    error <- lift (get event "error") ;;
    onOpenAIError now ws context error
  else onOpenAIEvent now ws context event.

(** The [message] listener that the service puts on its socket. *)
Definition onTransportMessage (now : Z) (r ws : nat)
    (context : ConnectionContext) (data : Router.Inbound) : M Server unit :=
  try_catch
    (event <- lift (Router.JSON_parse data) ;;
     handleServerEvent now r ws context event)
    (fun _ => ret tt).

(** The upstream socket closes: its state is [CLOSED] when the [close]
    listener of the service runs. *)
Definition onTransportClose (r : nat) : M Server unit :=
  on_service r
    (modify (fun svc =>
       {| OpenAIRealtimeService.ws :=
            option_map (fun t =>
              {| OpenAIRealtimeService.readyState :=
                   OpenAIRealtimeService.CLOSED;
                 OpenAIRealtimeService.sent := OpenAIRealtimeService.sent t |})
              (OpenAIRealtimeService.ws svc);
          OpenAIRealtimeService.sessionId := None;
          OpenAIRealtimeService.isConnected := false |})).

End UpstreamEvents.

Section LiveLink.
Import Js Gateway Router UpstreamEvents.

(** The upstream link of a service object is up, with transport [t]. *)
Definition link_up (svc : OpenAIRealtimeService.Service)
    (t : OpenAIRealtimeService.Transport) : Prop :=
  OpenAIRealtimeService.isConnected svc = true
  /\ OpenAIRealtimeService.ws svc = Some t
  /\ OpenAIRealtimeService.readyState t = OpenAIRealtimeService.OPEN.

(** The service object after [events] more were written to its link. *)
Definition wrote (svc : OpenAIRealtimeService.Service)
    (t : OpenAIRealtimeService.Transport) (events : list Value)
    : OpenAIRealtimeService.Service :=
  OpenAIRealtimeService.set_ws
    (Some {| OpenAIRealtimeService.readyState := OpenAIRealtimeService.OPEN;
             OpenAIRealtimeService.sent :=
               OpenAIRealtimeService.sent t ++ events |}) svc.

(** The event as it leaves: with the identifier drawn for it unless it
    brings a truthy one. *)
Definition stamped (eid : string) (fields : list (string * Value)) : Value :=
  Obj (if truthy (get_opt (Obj fields) "event_id") then fields
       else assoc_set "event_id" (Str eid) fields).

Lemma sendEvent_open (eid : string) (fields : list (string * Value))
    (svc : OpenAIRealtimeService.Service)
    (t : OpenAIRealtimeService.Transport) :
  link_up svc t ->
  OpenAIRealtimeService.sendEvent eid (Obj fields) svc
  = (wrote svc t [stamped eid fields], Return tt).
Proof.
  intros (Hc & Hw & Hr).
  unfold OpenAIRealtimeService.sendEvent, bind, gets. rewrite Hc, Hw.
  unfold try_catch, bind, lift, get, modify, stamped, get_opt.
  destruct (truthy (default Undefined (assoc "event_id" fields)));
    cbn -[assoc_set]; unfold OpenAIRealtimeService.transport_send;
    rewrite Hr; reflexivity.
Qed.

Lemma wrote_link_up (svc : OpenAIRealtimeService.Service)
    (t : OpenAIRealtimeService.Transport) (events : list Value) :
  link_up svc t ->
  link_up (wrote svc t events)
    {| OpenAIRealtimeService.readyState := OpenAIRealtimeService.OPEN;
       OpenAIRealtimeService.sent := OpenAIRealtimeService.sent t ++ events |}.
Proof. intros (Hc & Hw & Hr). repeat split. exact Hc. Qed.

Lemma wrote_wrote (svc : OpenAIRealtimeService.Service)
    (t : OpenAIRealtimeService.Transport) (es1 es2 : list Value) :
  wrote (wrote svc t es1)
    {| OpenAIRealtimeService.readyState := OpenAIRealtimeService.OPEN;
       OpenAIRealtimeService.sent := OpenAIRealtimeService.sent t ++ es1 |}
    es2
  = wrote svc t (es1 ++ es2).
Proof.
  unfold wrote, OpenAIRealtimeService.set_ws. cbn. by rewrite <- app_assoc.
Qed.

(** X12.  A [ping] is answered with one [pong] frame and nothing goes
    upstream; the session of the connection counts as active at that moment,
    so that it is still found up to thirty minutes later. *)
Theorem ping_keeps_session_alive (now later : Z) (eids : nat -> string)
    (ws : nat) (context : ConnectionContext) (service : nat) (srv : Server)
    (sock : Socket) (s : SessionService.Session)
    (fields : list (string * Value)) :
  sockets srv !! ws = Some sock ->
  closed sock = None ->
  sessions srv !! sessionId context = Some s ->
  assoc "type" fields = Some (Str "ping") ->
  later - now <= 30 * 60 * 1000 ->
  let r := handleMessage now eids ws (WellFormed (Obj fields)) context
             service srv in
  snd r = Return tt
  /\ sockets (fst r) !! ws
     = Some {| outbox := outbox sock
                 ++ [{| ftype := "pong"; payload := Undefined;
                        timestamp := now;
                        fsession := sessionId context |}];
               closed := None; listeners := listeners sock |}
  /\ heap (fst r) = heap srv
  /\ fst (SessionService.getSession later (sessionId context)
            (sessions (fst r)))
     = Some (SessionService.touch now s).
Proof.
  intros Hsock Hopen Hsess Hty Hlater r. subst r.
  unfold handleMessage, try_catch, bind, lift, JSON_parse, get.
  rewrite Hty. cbn.
  rewrite lookup_alter_eq, Hsock. cbn. rewrite socket_send_open by done.
  split; [done|]. split; [done|]. split; [done|].
  unfold SessionService.updateActivity. rewrite Hsess.
  rewrite (getSession_live later _ _ (SessionService.touch now s));
    [done|apply lookup_insert_eq|exact Hlater].
Qed.

Lemma ping_keeps_session_alive_witness :
  fst (SessionService.getSession 1800005 "sess_1"
         (sessions (fst (handleMessage 5 (fun _ => "e") 7
                           (WellFormed (Obj [("type", Str "ping")]))
                           sampleContext 0 sampleServer))))
  = Some (SessionService.touch 5 sampleSession).
Proof.
  refine (proj2 (proj2 (proj2
            (ping_keeps_session_alive 5 1800005 (fun _ => "e") 7 sampleContext
               0 sampleServer openSocket sampleSession [("type", Str "ping")]
               (lookup_singleton_eq _ _) eq_refl (lookup_singleton_eq _ _)
               eq_refl _)))).
  lia.
Defined.

Lemma handleMessage_forward (now : Z) (eids : nat -> string) (ws : nat)
    (context : ConnectionContext) (service : nat) (srv : Server)
    (fields : list (string * Value)) (body : Value) :
  assoc "type" fields = Some (Str "openai_event") ->
  assoc "payload" fields = Some body ->
  truthy body = true ->
  handleMessage now eids ws (WellFormed (Obj fields)) context service srv
  = try_catch
      (on_service service
         (OpenAIRealtimeService.sendEvent (eids 0%nat) body))
      (fun _ => ws_send ws (errorFrame now context "Invalid message format"))
      (with_sessions
         (SessionService.updateActivity now (sessionId context)) srv).
Proof.
  intros Hty Hbody Htruthy.
  unfold handleMessage, try_catch, bind, lift, JSON_parse, get.
  rewrite Hty, Hbody. cbn -[OpenAIRealtimeService.sendEvent on_service].
  rewrite Htruthy. reflexivity.
Qed.

(** X13.  While the upstream link is up, an [openai_event] frame whose
    payload is an object goes upstream as it came: the payload itself is the
    one event written, with an [event_id] added only when it brings none.
    Nothing is written back to the client. *)
Theorem openai_event_forwarded (now : Z) (eids : nat -> string) (ws : nat)
    (context : ConnectionContext) (service : nat) (srv : Server)
    (svc : OpenAIRealtimeService.Service)
    (t : OpenAIRealtimeService.Transport)
    (fields body : list (string * Value)) :
  heap srv !! service = Some svc ->
  link_up svc t ->
  assoc "type" fields = Some (Str "openai_event") ->
  assoc "payload" fields = Some (Obj body) ->
  let r := handleMessage now eids ws (WellFormed (Obj fields)) context
             service srv in
  snd r = Return tt
  /\ heap (fst r) !! service
     = Some (wrote svc t
               [Obj (if truthy (get_opt (Obj body) "event_id") then body
                     else assoc_set "event_id" (Str (eids 0%nat)) body)])
  /\ sockets (fst r) = sockets srv.
Proof.
  intros Hheap Hup Hty Hbody r. subst r.
  rewrite (handleMessage_forward now eids ws context service srv fields
             (Obj body) Hty Hbody eq_refl).
  unfold try_catch, on_service. cbn [heap with_sessions]. rewrite Hheap.
  rewrite (sendEvent_open _ _ _ t Hup). cbn.
  rewrite lookup_insert_eq. done.
Qed.

Definition liveService : OpenAIRealtimeService.Service :=
  {| OpenAIRealtimeService.ws :=
       Some {| OpenAIRealtimeService.readyState := OpenAIRealtimeService.OPEN;
               OpenAIRealtimeService.sent := [] |};
     OpenAIRealtimeService.sessionId := None;
     OpenAIRealtimeService.isConnected := true |}.

Definition liveServer : Server :=
  {| sessions := {["sess_1" := sampleSession]};
     heap := {[0%nat := liveService]};
     openaiServices := {["sess_1" := 0%nat]};
     connectionContexts := {[7%nat := sampleContext]};
     sockets := {[7%nat := openSocket]} |}.

Lemma liveService_up :
  link_up liveService
    {| OpenAIRealtimeService.readyState := OpenAIRealtimeService.OPEN;
       OpenAIRealtimeService.sent := [] |}.
Proof. by repeat split. Qed.

Lemma openai_event_forwarded_witness :
  heap (fst (handleMessage 5 (fun _ => "e") 7
               (WellFormed (Obj [("type", Str "openai_event");
                                 ("payload",
                                  Obj [("type", Str "response.cancel")])]))
               sampleContext 0 liveServer)) !! 0%nat
  = Some (wrote liveService
            {| OpenAIRealtimeService.readyState := OpenAIRealtimeService.OPEN;
               OpenAIRealtimeService.sent := [] |}
            [Obj [("type", Str "response.cancel"); ("event_id", Str "e")]]).
Proof.
  exact (proj1 (proj2 (openai_event_forwarded 5 (fun _ => "e") 7 sampleContext
           0 liveServer liveService _
           [("type", Str "openai_event");
            ("payload", Obj [("type", Str "response.cancel")])]
           [("type", Str "response.cancel")]
           (lookup_singleton_eq _ _) liveService_up eq_refl eq_refl))).
Defined.

Lemma handleMessage_legacy (now : Z) (eids : nat -> string) (ws : nat)
    (context : ConnectionContext) (service : nat) (srv : Server)
    (fields : list (string * Value)) (ty : string) :
  assoc "type" fields = Some (Str ty) ->
  String.eqb ty "ping" = false ->
  String.eqb ty "openai_event" = false ->
  handleMessage now eids ws (WellFormed (Obj fields)) context service srv
  = try_catch
      (handleLegacyMessage now eids ws (Str ty)
         (default Undefined (assoc "payload" fields)) context service)
      (fun _ => ws_send ws (errorFrame now context "Invalid message format"))
      (with_sessions
         (SessionService.updateActivity now (sessionId context)) srv).
Proof.
  intros Hty E1 E2.
  unfold handleMessage, try_catch, bind, lift, JSON_parse, get.
  rewrite Hty. cbn -[handleLegacyMessage String.eqb]. rewrite E1.
  cbn -[handleLegacyMessage String.eqb]. rewrite E2. reflexivity.
Qed.

(** The two events of [sendTextMessage(text)], as they leave. *)
Definition itemCreate (eid : string) (text : Value) : Value :=
  Obj [("type", Str "conversation.item.create");
       ("item", Obj [("type", Str "message");
                     ("role", Str "user");
                     ("content",
                      Arr [Obj [("type", Str "input_text");
                                ("text", text)]])]);
       ("event_id", Str eid)].

Definition responseCreate (eid : string) : Value :=
  Obj [("type", Str "response.create"); ("event_id", Str eid)].

Lemma sendTextMessage_open (eids : nat -> string) (text : Value)
    (svc : OpenAIRealtimeService.Service)
    (t : OpenAIRealtimeService.Transport) :
  link_up svc t ->
  OpenAIRealtimeService.sendTextMessage eids text svc
  = (wrote svc t [itemCreate (eids 0%nat) text; responseCreate (eids 1%nat)],
     Return tt).
Proof.
  intros Hup. unfold OpenAIRealtimeService.sendTextMessage,
    OpenAIRealtimeService.createResponse, bind.
  rewrite (sendEvent_open _ _ _ t Hup).
  rewrite (sendEvent_open _ _ _ _ (wrote_link_up svc t _ Hup)).
  rewrite wrote_wrote. reflexivity.
Qed.

(** X14.  While the upstream link is up, a legacy [text_message] frame with
    a non-empty text becomes two upstream events, in this order: the
    creation of a user message item that carries the text, and the request
    for a response.  Nothing is written back to the client. *)
Theorem legacy_text_message_forwarded (now : Z) (eids : nat -> string)
    (ws : nat) (context : ConnectionContext) (service : nat) (srv : Server)
    (svc : OpenAIRealtimeService.Service)
    (t : OpenAIRealtimeService.Transport)
    (fields : list (string * Value)) (body : Value) (text : string) :
  heap srv !! service = Some svc ->
  link_up svc t ->
  assoc "type" fields = Some (Str "text_message") ->
  assoc "payload" fields = Some body ->
  get_opt body "text" = Str text ->
  text <> "" ->
  let r := handleMessage now eids ws (WellFormed (Obj fields)) context
             service srv in
  snd r = Return tt
  /\ heap (fst r) !! service
     = Some (wrote svc t [itemCreate (eids 0%nat) (Str text);
                          responseCreate (eids 1%nat)])
  /\ sockets (fst r) = sockets srv.
Proof.
  intros Hheap Hup Hty Hbody Htext Hne r. subst r.
  rewrite (handleMessage_legacy now eids ws context service srv fields
             "text_message" Hty eq_refl eq_refl).
  rewrite Hbody. change (default Undefined (Some body)) with body.
  unfold handleLegacyMessage, try_catch, on_service.
  cbn [is_str]. replace ("text_message" =? "text_message")%string with true
    by reflexivity.
  rewrite Htext. cbn [truthy]. apply String.eqb_neq in Hne. rewrite Hne.
  cbn [negb when heap with_sessions]. rewrite Hheap.
  rewrite (sendTextMessage_open _ _ _ t Hup). cbn.
  rewrite lookup_insert_eq. done.
Qed.

Lemma legacy_text_message_forwarded_witness :
  heap (fst (handleMessage 5 (fun n => pretty n) 7
               (WellFormed (Obj [("type", Str "text_message");
                                 ("payload", Obj [("text", Str "hi")])]))
               sampleContext 0 liveServer)) !! 0%nat
  = Some (wrote liveService
            {| OpenAIRealtimeService.readyState := OpenAIRealtimeService.OPEN;
               OpenAIRealtimeService.sent := [] |}
            [itemCreate "0" (Str "hi"); responseCreate "1"]).
Proof.
  refine (proj1 (proj2 (legacy_text_message_forwarded 5 (fun n => pretty n) 7
           sampleContext 0 liveServer liveService _
           [("type", Str "text_message");
            ("payload", Obj [("text", Str "hi")])]
           (Obj [("text", Str "hi")]) "hi"
           (lookup_singleton_eq _ _) liveService_up eq_refl eq_refl eq_refl
           _))).
  discriminate.
Defined.

(** The legacy types that carry a field, and the field. *)
Definition legacyField (ty : string) : option string :=
  if String.eqb ty "text_message" then Some "text"
  else if String.eqb ty "audio_data" then Some "audio"
  else None.

(** X15.  A legacy [text_message] frame without a text, or with an empty
    one, and a legacy [audio_data] frame without audio, or with an empty
    string, are dropped: nothing goes upstream and nothing is written to the
    client, not even an error frame. *)
Theorem legacy_frame_without_field_dropped (now : Z) (eids : nat -> string)
    (ws : nat) (context : ConnectionContext) (service : nat) (srv : Server)
    (fields : list (string * Value)) (ty field : string) :
  assoc "type" fields = Some (Str ty) ->
  legacyField ty = Some field ->
  truthy (get_opt (default Undefined (assoc "payload" fields)) field) = false ->
  let r := handleMessage now eids ws (WellFormed (Obj fields)) context
             service srv in
  snd r = Return tt
  /\ heap (fst r) = heap srv
  /\ sockets (fst r) = sockets srv.
Proof.
  intros Hty Hfield Hfalsy r. subst r. unfold legacyField in Hfield.
  destruct (String.eqb ty "text_message") eqn:E1.
  - apply String.eqb_eq in E1. subst ty. injection Hfield as <-.
    rewrite (handleMessage_legacy now eids ws context service srv fields
               "text_message" Hty eq_refl eq_refl).
    unfold handleLegacyMessage, try_catch.
    cbn [is_str]. replace ("text_message" =? "text_message")%string with true
      by reflexivity.
    rewrite Hfalsy. done.
  - destruct (String.eqb ty "audio_data") eqn:E2; [|discriminate].
    apply String.eqb_eq in E2. subst ty. injection Hfield as <-.
    rewrite (handleMessage_legacy now eids ws context service srv fields
               "audio_data" Hty eq_refl eq_refl).
    unfold handleLegacyMessage, try_catch.
    cbn [is_str]. replace ("audio_data" =? "text_message")%string with false
      by reflexivity.
    replace ("audio_data" =? "audio_data")%string with true by reflexivity.
    rewrite Hfalsy. done.
Qed.

Lemma legacy_frame_without_field_dropped_witness :
  sockets (fst (handleMessage 5 (fun _ => "e") 7
                  (WellFormed (Obj [("type", Str "text_message");
                                    ("payload", Obj [("text", Str "")])]))
                  sampleContext 0 liveServer))
  = sockets liveServer.
Proof.
  exact (proj2 (proj2 (legacy_frame_without_field_dropped 5 (fun _ => "e") 7
           sampleContext 0 liveServer
           [("type", Str "text_message");
            ("payload", Obj [("text", Str "")])]
           "text_message" "text" eq_refl eq_refl eq_refl))).
Defined.

(** The legacy message types. *)
Definition legacy : list string :=
  ["text_message"; "audio_data"; "audio_commit"; "audio_clear"].

Lemma sendAudioData_not_connected (eid : string) (audio : Value)
    (svc : OpenAIRealtimeService.Service) :
  OpenAIRealtimeService.isConnected svc = false ->
  exists e, OpenAIRealtimeService.sendAudioData eid audio svc = (svc, Throw e).
Proof.
  intros H. unfold OpenAIRealtimeService.sendAudioData, bind, lift.
  destruct (OpenAIRealtimeService.base64Audio audio) as [b64|e]; [|eauto].
  destruct (String.eqb b64 ""); [by eexists|].
  rewrite sendEvent_not_connected by done. eauto.
Qed.

Lemma legacy_call_not_connected (eids : nat -> string) (text : Value)
    (svc : OpenAIRealtimeService.Service) :
  OpenAIRealtimeService.isConnected svc = false ->
  (exists e, OpenAIRealtimeService.sendTextMessage eids text svc
             = (svc, Throw e))
  /\ (exists e, OpenAIRealtimeService.commitAudioBuffer eids svc
                = (svc, Throw e))
  /\ (exists e, OpenAIRealtimeService.clearAudioBuffer (eids 0%nat) svc
                = (svc, Throw e)).
Proof.
  intros H.
  unfold OpenAIRealtimeService.sendTextMessage,
    OpenAIRealtimeService.commitAudioBuffer,
    OpenAIRealtimeService.clearAudioBuffer, bind.
  rewrite !sendEvent_not_connected by done.
  repeat split; eexists; reflexivity.
Qed.

Lemma on_service_throws {A} (service : nat)
    (m : M OpenAIRealtimeService.Service A) (srv : Server)
    (svc : OpenAIRealtimeService.Service) :
  heap srv !! service = Some svc ->
  (exists e, m svc = (svc, Throw e)) ->
  exists e, on_service service m srv
            = (with_heap (<[service := svc]>) srv, Throw e).
Proof.
  intros Hheap [e He]. exists e. unfold on_service. by rewrite Hheap, He.
Qed.

(** X16.  While the upstream link is down, a legacy frame that asks for
    something to be sent is answered with the error frame
    "Failed to process <type>"; the handler returns, the inbound socket
    stays open and the service object is as it was. *)
Theorem legacy_failure_reply (now : Z) (eids : nat -> string) (ws : nat)
    (context : ConnectionContext) (service : nat) (srv : Server)
    (sock : Socket) (svc : OpenAIRealtimeService.Service)
    (fields : list (string * Value)) (ty : string) :
  sockets srv !! ws = Some sock ->
  closed sock = None ->
  heap srv !! service = Some svc ->
  OpenAIRealtimeService.isConnected svc = false ->
  assoc "type" fields = Some (Str ty) ->
  ty ∈ legacy ->
  (forall field,
     legacyField ty = Some field ->
     truthy (get_opt (default Undefined (assoc "payload" fields)) field)
     = true) ->
  let r := handleMessage now eids ws (WellFormed (Obj fields)) context
             service srv in
  snd r = Return tt
  /\ sockets (fst r) !! ws
     = Some {| outbox := outbox sock
                 ++ [{| ftype := "error";
                        payload :=
                          Obj [("message", Str ("Failed to process " +:+ ty))];
                        timestamp := now;
                        fsession := sessionId context |}];
               closed := None; listeners := listeners sock |}
  /\ heap (fst r) !! service = Some svc.
Proof.
  intros Hsock Hopen Hheap Hdown Hty Hin Hfield r. subst r.
  set (srv0 := with_sessions
                 (SessionService.updateActivity now (sessionId context)) srv).
  assert (Hheap0 : heap srv0 !! service = Some svc) by exact Hheap.
  assert (Hdone :
            let srv' := fst (ws_send ws
                               (errorFrame now context
                                  ("Failed to process " +:+ ty))
                               (with_heap (<[service := svc]>) srv0)) in
            handleLegacyMessage now eids ws (Str ty)
              (default Undefined (assoc "payload" fields)) context service
              srv0
            = (srv', Return tt) ->
            forall h,
            snd (try_catch
                   (handleLegacyMessage now eids ws (Str ty)
                      (default Undefined (assoc "payload" fields)) context
                      service) h srv0) = Return tt
            /\ sockets (fst (try_catch
                   (handleLegacyMessage now eids ws (Str ty)
                      (default Undefined (assoc "payload" fields)) context
                      service) h srv0)) !! ws
               = Some {| outbox := outbox sock
                           ++ [errorFrame now context
                                 ("Failed to process " +:+ ty)];
                         closed := None; listeners := listeners sock |}
            /\ heap (fst (try_catch
                   (handleLegacyMessage now eids ws (Str ty)
                      (default Undefined (assoc "payload" fields)) context
                      service) h srv0)) !! service = Some svc).
  { intros srv' E h. unfold try_catch at 1 2 3. rewrite E. cbn.
    rewrite lookup_alter_eq, Hsock. cbn. rewrite socket_send_open by done.
    rewrite lookup_insert_eq. done. }
  destruct (legacy_call_not_connected eids
              (get_opt (default Undefined (assoc "payload" fields)) "text")
              svc Hdown) as (Htext & Hcommit & Hclear).
  pose proof (sendAudioData_not_connected (eids 0%nat)
                (get_opt (default Undefined (assoc "payload" fields)) "audio")
                svc Hdown) as Haudio.
  unfold legacy in Hin.
  repeat (apply elem_of_cons in Hin; destruct Hin as [->|Hin]);
    [| | | |by apply elem_of_nil in Hin].
  - rewrite (handleMessage_legacy now eids ws context service srv fields
               "text_message" Hty eq_refl eq_refl).
    apply Hdone.
    unfold handleLegacyMessage, try_catch. cbn [is_str].
    replace ("text_message" =? "text_message")%string with true
      by reflexivity.
    rewrite (Hfield "text" eq_refl). cbn [when].
    destruct (on_service_throws service _ srv0 svc Hheap0 Htext) as [e ->].
    reflexivity.
  - rewrite (handleMessage_legacy now eids ws context service srv fields
               "audio_data" Hty eq_refl eq_refl).
    apply Hdone.
    unfold handleLegacyMessage, try_catch. cbn [is_str].
    replace ("audio_data" =? "text_message")%string with false
      by reflexivity.
    replace ("audio_data" =? "audio_data")%string with true by reflexivity.
    rewrite (Hfield "audio" eq_refl). cbn [when].
    destruct (on_service_throws service _ srv0 svc Hheap0 Haudio) as [e ->].
    reflexivity.
  - rewrite (handleMessage_legacy now eids ws context service srv fields
               "audio_commit" Hty eq_refl eq_refl).
    apply Hdone.
    unfold handleLegacyMessage, try_catch. cbn [is_str].
    replace ("audio_commit" =? "text_message")%string with false
      by reflexivity.
    replace ("audio_commit" =? "audio_data")%string with false
      by reflexivity.
    replace ("audio_commit" =? "audio_commit")%string with true
      by reflexivity.
    destruct (on_service_throws service _ srv0 svc Hheap0 Hcommit) as [e ->].
    reflexivity.
  - rewrite (handleMessage_legacy now eids ws context service srv fields
               "audio_clear" Hty eq_refl eq_refl).
    apply Hdone.
    unfold handleLegacyMessage, try_catch. cbn [is_str].
    replace ("audio_clear" =? "text_message")%string with false
      by reflexivity.
    replace ("audio_clear" =? "audio_data")%string with false
      by reflexivity.
    replace ("audio_clear" =? "audio_commit")%string with false
      by reflexivity.
    replace ("audio_clear" =? "audio_clear")%string with true
      by reflexivity.
    destruct (on_service_throws service _ srv0 svc Hheap0 Hclear) as [e ->].
    reflexivity.
Qed.

Lemma legacy_failure_reply_witness :
  sockets (fst (handleMessage 5 (fun _ => "e") 7
                  (WellFormed (Obj [("type", Str "audio_commit")]))
                  sampleContext 0 sampleServer)) !! 7%nat
  = Some {| outbox := [{| ftype := "error";
                          payload :=
                            Obj [("message",
                                  Str "Failed to process audio_commit")];
                          timestamp := 5; fsession := "sess_1" |}];
            closed := None; listeners := None |}.
Proof.
  refine (proj1 (proj2 (legacy_failure_reply 5 (fun _ => "e") 7 sampleContext
           0 sampleServer openSocket OpenAIRealtimeService.create
           [("type", Str "audio_commit")] "audio_commit"
           (lookup_singleton_eq _ _) eq_refl (lookup_singleton_eq _ _)
           eq_refl eq_refl _ _))).
  - unfold legacy. set_solver.
  - intros field H. discriminate H.
Defined.

(** The frame in which an upstream event reaches the client. *)
Definition relayed (now : Z) (context : ConnectionContext)
    (fields : list (string * Value)) : Frame :=
  if is_str (get_opt (Obj fields) "type") "error"
  then {| ftype := "openai_error";
          payload := Obj [("error", get_opt (Obj fields) "error")];
          timestamp := now; fsession := sessionId context |}
  else {| ftype := "openai_event"; payload := Obj fields; timestamp := now;
          fsession := sessionId context |}.

(** X17.  An upstream event other than [session.created] reaches the
    client as one frame: an event of type [error] as an [openai_error] frame
    that carries its [error] member, any other event as an [openai_event]
    frame whose payload is the event, unchanged.  Sessions and service
    objects are not touched. *)
Theorem upstream_event_relayed (now : Z) (r ws : nat)
    (context : ConnectionContext) (srv : Server) (sock : Socket)
    (fields : list (string * Value)) :
  sockets srv !! ws = Some sock ->
  closed sock = None ->
  is_str (get_opt (Obj fields) "type") "session.created" = false ->
  let srv' := fst (onTransportMessage now r ws context
                     (WellFormed (Obj fields)) srv) in
  sockets srv' !! ws
  = Some {| outbox := outbox sock ++ [relayed now context fields];
            closed := None; listeners := listeners sock |}
  /\ heap srv' = heap srv
  /\ sessions srv' = sessions srv.
Proof.
  intros Hsock Hopen Hty srv'. subst srv'.
  unfold onTransportMessage, handleServerEvent, try_catch, bind, lift,
    JSON_parse, get, relayed.
  cbn [get_opt] in Hty |- *. rewrite Hty. cbn [ret].
  destruct (is_str (default Undefined (assoc "type" fields)) "error");
    cbn; rewrite lookup_alter_eq, Hsock; cbn;
    rewrite socket_send_open by done; done.
Qed.

Lemma upstream_event_relayed_witness :
  sockets (fst (onTransportMessage 5 0 7 sampleContext
                  (WellFormed (Obj [("type", Str "response.text.delta");
                                    ("delta", Str "Om")]))
                  sampleServer)) !! 7%nat
  = Some {| outbox := [{| ftype := "openai_event";
                          payload := Obj [("type", Str "response.text.delta");
                                          ("delta", Str "Om")];
                          timestamp := 5; fsession := "sess_1" |}];
            closed := None; listeners := None |}.
Proof.
  exact (proj1 (upstream_event_relayed 5 0 7 sampleContext sampleServer
                  openSocket
                  [("type", Str "response.text.delta"); ("delta", Str "Om")]
                  (lookup_singleton_eq _ _) eq_refl eq_refl)).
Defined.

(** X18.  What comes from upstream and is not JSON is dropped, and so is a
    [session.created] event whose [session] member is missing or [null]:
    the client gets no frame and the server state is as before. *)
Theorem upstream_event_dropped (now : Z) (r ws : nat)
    (context : ConnectionContext) (srv : Server) :
  (forall text,
     fst (onTransportMessage now r ws context (Malformed text) srv) = srv)
  /\ (forall fields,
        assoc "type" fields = Some (Str "session.created") ->
        assoc "session" fields = None \/ assoc "session" fields = Some Null ->
        fst (onTransportMessage now r ws context (WellFormed (Obj fields)) srv)
        = srv).
Proof.
  split; [reflexivity|].
  intros fields Hty Hsession.
  unfold onTransportMessage, handleServerEvent, try_catch, bind, lift,
    JSON_parse, get.
  rewrite Hty. cbn [default is_str].
  replace ("session.created" =? "session.created")%string with true
    by reflexivity.
  by destruct Hsession as [-> | ->].
Qed.

Lemma upstream_event_dropped_witness :
  fst (onTransportMessage 5 0 7 sampleContext
         (WellFormed (Obj [("type", Str "session.created")])) sampleServer)
  = sampleServer.
Proof.
  refine (proj2 (upstream_event_dropped 5 0 7 sampleContext sampleServer)
            [("type", Str "session.created")] eq_refl _).
  by left.
Defined.

(** X19.  The close of the upstream link is kept from the client: no frame
    is written to the inbound socket, which stays open, and the session,
    the entry of the service map and the context stay.  An [openai_event]
    frame that arrives afterwards is answered with the error frame
    "Invalid message format", and the link is still down after it. *)
Theorem upstream_close_unnoticed (now : Z) (eids : nat -> string) (r ws : nat)
    (context : ConnectionContext) (srv : Server) (sock : Socket)
    (svc : OpenAIRealtimeService.Service)
    (fields : list (string * Value)) (body : Value) :
  sockets srv !! ws = Some sock ->
  closed sock = None ->
  heap srv !! r = Some svc ->
  assoc "type" fields = Some (Str "openai_event") ->
  assoc "payload" fields = Some body ->
  truthy body = true ->
  let srv1 := fst (onTransportClose r srv) in
  let res := handleMessage now eids ws (WellFormed (Obj fields)) context r
               srv1 in
  sockets srv1 = sockets srv
  /\ sessions srv1 = sessions srv
  /\ openaiServices srv1 = openaiServices srv
  /\ connectionContexts srv1 = connectionContexts srv
  /\ snd res = Return tt
  /\ sockets (fst res) !! ws
     = Some {| outbox := outbox sock
                 ++ [{| ftype := "error";
                        payload :=
                          Obj [("message", Str "Invalid message format")];
                        timestamp := now;
                        fsession := sessionId context |}];
               closed := None; listeners := listeners sock |}
  /\ (exists svc', heap (fst res) !! r = Some svc'
                   /\ OpenAIRealtimeService.isConnected svc' = false).
Proof.
  intros Hsock Hopen Hheap Hty Hbody Htruthy srv1 res.
  assert (H1 : exists svc1,
            srv1 = with_heap (<[r := svc1]>) srv
            /\ OpenAIRealtimeService.isConnected svc1 = false).
  { subst srv1. unfold onTransportClose, on_service. rewrite Hheap.
    eexists. split; reflexivity. }
  destruct H1 as (svc1 & E1 & Hdown).
  subst res. rewrite E1.
  rewrite (handleMessage_forward now eids ws context r _ fields body Hty Hbody
             Htruthy).
  unfold try_catch, on_service. cbn [heap with_sessions with_heap].
  rewrite lookup_insert_eq.
  rewrite sendEvent_not_connected by done. cbn.
  rewrite lookup_alter_eq, Hsock. cbn. rewrite socket_send_open by done.
  rewrite lookup_insert_eq. eauto 10.
Qed.

Lemma upstream_close_unnoticed_witness :
  sockets (fst (handleMessage 6 (fun _ => "e") 7
                  (WellFormed (Obj [("type", Str "openai_event");
                                    ("payload",
                                     Obj [("type", Str "response.create")])]))
                  sampleContext 0 (fst (onTransportClose 0 liveServer))))
    !! 7%nat
  = Some {| outbox := [{| ftype := "error";
                          payload :=
                            Obj [("message", Str "Invalid message format")];
                          timestamp := 6; fsession := "sess_1" |}];
            closed := None; listeners := None |}.
Proof.
  exact (proj1 (proj2 (proj2 (proj2 (proj2 (proj2
           (upstream_close_unnoticed 6 (fun _ => "e") 0 7 sampleContext
              liveServer openSocket liveService
              [("type", Str "openai_event");
               ("payload", Obj [("type", Str "response.create")])]
              (Obj [("type", Str "response.create")])
              (lookup_singleton_eq _ _) eq_refl (lookup_singleton_eq _ _)
              eq_refl eq_refl eq_refl))))))).
Defined.

End LiveLink.

(** ** The connection hook over time *)

Module HookEvents.
Import UseWebSocket.

(** What happens to the hook: its socket opens or closes, [connect()] is
    called (by the caller or by the reconnect timer), [disconnect()] is
    called. *)
Inductive Event :=
| Opens
| Closes (code : Z)
| Connects (failure : option string)
| Disconnects.

Definition handle (ev : Event) (h : Hook) : Hook * list Effect :=
  match ev with
  | Opens => onopen h
  | Closes code => onclose h code
  | Connects failure => connect failure h
  | Disconnects => disconnect h
  end.

Fixpoint handleAll (evs : list Event) (h : Hook) : Hook * list Effect :=
  match evs with
  | [] => (h, [])
  | ev :: rest =>
      let '(h1, fx1) := handle ev h in
      let '(h2, fx2) := handleAll rest h1 in
      (h2, fx1 ++ fx2)
  end.

(** The reconnect timers that a stretch of effects arms. *)
Definition timers (fx : list Effect) : nat :=
  List.length (List.filter (fun e => match e with
                                     | SetTimeout _ => true
                                     | _ => false
                                     end) fx).

End HookEvents.

(** The timers of the page that the hook arms.  [setTimeout] gives out
    handles in order; [pending] are the timers that have neither gone off
    nor been cleared; [held] is the handle in [reconnectTimeoutRef], which
    the model of the hook keeps only as present or absent. *)
Module HookTimers.
Import UseWebSocket HookEvents.

Record World := mkWorld {
  hook : Hook;
  armed : nat;
  pending : list nat;
  held : option nat;
}.

Definition start : World :=
  {| hook := initial; armed := 0; pending := []; held := None |}.

(** What an effect of a handler does to the timers.
    [reconnectTimeoutRef.current = setTimeout(...)] overwrites the handle
    held; [clearTimeout(reconnectTimeoutRef.current)] clears the timer of
    the handle held, and does nothing if that timer has gone off. *)
Definition effect (w : World) (e : Effect) : World :=
  match e with
  | SetTimeout _ =>
      {| hook := hook w; armed := S (armed w);
         pending := pending w ++ [armed w]; held := Some (armed w) |}
  | ClearTimeout =>
      {| hook := hook w; armed := armed w;
         pending := List.filter
                      (fun k => negb (bool_decide (held w = Some k)))
                      (pending w);
         held := None |}
  | _ => w
  end.

Definition perform (ev : Event) (w : World) : World :=
  let '(h, fx) := handle ev (hook w) in
  foldl effect
    {| hook := h; armed := armed w; pending := pending w; held := held w |}
    fx.

(** What happens to the page: an event of the hook, or the timer [k] goes
    off and its callback calls [connect()]. *)
Inductive Occurrence :=
| Handles (ev : Event)
| Fires (k : nat) (failure : option string).

Definition occur (o : Occurrence) (w : World) : World :=
  match o with
  | Handles ev => perform ev w
  | Fires k failure =>
      if bool_decide (k ∈ pending w)
      then perform (Connects failure)
             {| hook := hook w; armed := armed w;
                pending := List.filter (fun j => negb (j =? k)%nat)
                             (pending w);
                held := held w |}
      else w
  end.

Definition occurAll (os : list Occurrence) (w : World) : World :=
  foldl (fun w o => occur o w) w os.

End HookTimers.

Section ReconnectMore.
Import UseWebSocket HookEvents HookTimers.

Lemma timers_app (fx1 fx2 : list Effect) :
  timers (fx1 ++ fx2) = (timers fx1 + timers fx2)%nat.
Proof. unfold timers. by rewrite List.filter_app, List.length_app. Qed.

Lemma clearReconnectTimeout_spec (h : Hook) :
  reconnectAttemptsRef (fst (clearReconnectTimeout h)) = reconnectAttemptsRef h
  /\ isManualDisconnectRef (fst (clearReconnectTimeout h))
     = isManualDisconnectRef h
  /\ reconnectTimeoutRef (fst (clearReconnectTimeout h)) = None
  /\ timers (snd (clearReconnectTimeout h)) = 0%nat.
Proof.
  unfold clearReconnectTimeout.
  by destruct (reconnectTimeoutRef h) eqn:E.
Qed.

Lemma handle_attempts (ev : Event) (h : Hook) :
  (reconnectAttemptsRef h <= RECONNECT_ATTEMPTS)%nat ->
  (reconnectAttemptsRef (fst (handle ev h)) <= RECONNECT_ATTEMPTS)%nat.
Proof.
  intros H. destruct ev as [|code|failure|]; cbn [handle].
  - unfold onopen.
    destruct (clearReconnectTimeout _) as [h2 fx] eqn:E.
    pose proof (clearReconnectTimeout_spec
                  {| connectionStatus := connected; error_ := None;
                     wsRef := wsRef h;
                     reconnectTimeoutRef := reconnectTimeoutRef h;
                     reconnectAttemptsRef := 0;
                     isManualDisconnectRef := isManualDisconnectRef h |})
      as (Ha & _).
    rewrite E in Ha. cbn in *. rewrite Ha. unfold RECONNECT_ATTEMPTS. lia.
  - unfold onclose.
    destruct (shouldReconnect h code) eqn:E.
    + unfold shouldReconnect in E.
      apply andb_prop in E as [E _]. apply andb_prop in E as [_ E].
      apply Nat.ltb_lt in E. cbn. lia.
    + destruct (RECONNECT_ATTEMPTS <=? reconnectAttemptsRef h)%nat; exact H.
  - unfold connect. destruct (wsRef h) as [[]|]; destruct failure; exact H.
  - unfold disconnect.
    destruct (clearReconnectTimeout _) as [h1 fx] eqn:E.
    pose proof (clearReconnectTimeout_spec
                  {| connectionStatus := connectionStatus h;
                     error_ := error_ h; wsRef := wsRef h;
                     reconnectTimeoutRef := reconnectTimeoutRef h;
                     reconnectAttemptsRef := reconnectAttemptsRef h;
                     isManualDisconnectRef := true |}) as (Ha & _).
    rewrite E in Ha. cbn in *. by rewrite Ha.
Qed.

Lemma handle_budget (ev : Event) (h : Hook) :
  ev <> Opens ->
  (timers (snd (handle ev h)) + reconnectAttemptsRef h)%nat
  = reconnectAttemptsRef (fst (handle ev h)).
Proof.
  intros Hev. destruct ev as [|code|failure|]; [done| | |]; cbn [handle].
  - unfold onclose. destruct (shouldReconnect h code); [reflexivity|].
    by destruct (RECONNECT_ATTEMPTS <=? reconnectAttemptsRef h)%nat.
  - unfold connect.
    destruct (wsRef h) as [[]|]; destruct failure; reflexivity.
  - unfold disconnect.
    destruct (clearReconnectTimeout _) as [h1 fx] eqn:E.
    pose proof (clearReconnectTimeout_spec
                  {| connectionStatus := connectionStatus h;
                     error_ := error_ h; wsRef := wsRef h;
                     reconnectTimeoutRef := reconnectTimeoutRef h;
                     reconnectAttemptsRef := reconnectAttemptsRef h;
                     isManualDisconnectRef := true |}) as (Ha & _ & _ & Ht).
    rewrite E in Ha, Ht. cbn [fst snd reconnectAttemptsRef] in *.
    rewrite timers_app, Ht, Ha. by destruct (wsRef h).
Qed.

Lemma handleAll_attempts (evs : list Event) (h : Hook) :
  (reconnectAttemptsRef h <= RECONNECT_ATTEMPTS)%nat ->
  (reconnectAttemptsRef (fst (handleAll evs h)) <= RECONNECT_ATTEMPTS)%nat.
Proof.
  revert h. induction evs as [|ev evs IH]; intros h H; cbn; [done|].
  pose proof (handle_attempts ev h H) as H1.
  destruct (handle ev h) as [h1 fx1]. specialize (IH h1 H1).
  by destruct (handleAll evs h1).
Qed.

Lemma handleAll_budget (evs : list Event) (h : Hook) :
  Opens ∉ evs ->
  (timers (snd (handleAll evs h)) + reconnectAttemptsRef h)%nat
  = reconnectAttemptsRef (fst (handleAll evs h)).
Proof.
  revert h. induction evs as [|ev evs IH]; intros h H; cbn; [done|].
  apply not_elem_of_cons in H as [Hev Hevs].
  pose proof (handle_budget ev h (not_eq_sym Hev)) as H1.
  destruct (handle ev h) as [h1 fx1]. specialize (IH h1 Hevs).
  destruct (handleAll evs h1) as [h2 fx2]. cbn [fst snd] in *.
  rewrite timers_app. lia.
Qed.

(** X20.  At any point of the life of the hook, a stretch of events in
    which the socket never opens arms at most [RECONNECT_ATTEMPTS] reconnect
    timers in all, whatever closes, [connect()] and [disconnect()] calls it
    is made of; the counter of attempts never exceeds that number. *)
Theorem reconnect_budget (before stretch : list Event) :
  Opens ∉ stretch ->
  let h := fst (handleAll before initial) in
  (timers (snd (handleAll stretch h)) <= RECONNECT_ATTEMPTS)%nat
  /\ (reconnectAttemptsRef (fst (handleAll stretch h))
      <= RECONNECT_ATTEMPTS)%nat.
Proof.
  intros Hno h.
  assert (H0 : (reconnectAttemptsRef h <= RECONNECT_ATTEMPTS)%nat).
  { apply handleAll_attempts. cbn. unfold RECONNECT_ATTEMPTS. lia. }
  pose proof (handleAll_attempts stretch h H0) as H1.
  pose proof (handleAll_budget stretch h Hno) as H2.
  split; [lia|done].
Qed.

Lemma reconnect_budget_witness :
  (timers (snd (handleAll
                  [Closes 1006; Connects None; Closes 1006; Connects None;
                   Closes 1006; Connects None; Closes 1006; Connects None;
                   Closes 1006; Connects None; Closes 1006; Connects None;
                   Closes 1006]
                  (fst (handleAll [Connects None; Opens] initial))))
   <= RECONNECT_ATTEMPTS)%nat.
Proof.
  refine (proj1 (reconnect_budget [Connects None; Opens]
            [Closes 1006; Connects None; Closes 1006; Connects None;
             Closes 1006; Connects None; Closes 1006; Connects None;
             Closes 1006; Connects None; Closes 1006; Connects None;
             Closes 1006] _)).
  intros H.
  repeat (apply elem_of_cons in H; destruct H as [H|H]; [discriminate H|]).
  by apply elem_of_nil in H.
Defined.

(** The hook after a manual disconnect, as long as nobody calls
    [connect()]. *)
Definition parted (h : Hook) : Prop :=
  isManualDisconnectRef h = true /\ reconnectTimeoutRef h = None
  /\ wsRef h = None /\ connectionStatus h = disconnected.

Lemma disconnect_parted (h : Hook) : parted (fst (disconnect h)).
Proof.
  unfold disconnect.
  destruct (clearReconnectTimeout _) as [h1 fx] eqn:E.
  pose proof (clearReconnectTimeout_spec
                {| connectionStatus := connectionStatus h;
                   error_ := error_ h; wsRef := wsRef h;
                   reconnectTimeoutRef := reconnectTimeoutRef h;
                   reconnectAttemptsRef := reconnectAttemptsRef h;
                   isManualDisconnectRef := true |}) as (_ & _ & Hn & _).
  rewrite E in Hn. by repeat split.
Qed.

Lemma onclose_parted (h : Hook) (code : Z) :
  parted h ->
  parted (fst (onclose h code)) /\ timers (snd (onclose h code)) = 0%nat.
Proof.
  intros (Hm & Ht & Hw & Hs). unfold onclose, shouldReconnect.
  rewrite Hm. cbn [negb andb].
  by destruct (RECONNECT_ATTEMPTS <=? reconnectAttemptsRef h)%nat.
Qed.

(** The handle of the world is there when the hook holds one. *)
Definition coherent (w : World) : Prop :=
  match held w, reconnectTimeoutRef (hook w) with
  | Some _, Some _ | None, None => True
  | _, _ => False
  end.

(** Effects that neither arm nor clear a timer. *)
Definition timer_free (e : Effect) : Prop :=
  match e with
  | SetTimeout _ | ClearTimeout => False
  | _ => True
  end.

(** The effect of [clearReconnectTimeout()] on a hook whose ref is [ref]. *)
Definition clearing (ref : option Z) : list Effect :=
  match ref with
  | Some _ => [ClearTimeout]
  | None => []
  end.

Lemma foldl_effect_free (fx : list Effect) (w : World) :
  Forall timer_free fx -> foldl effect w fx = w.
Proof.
  intros H. revert w. induction H as [|e fx He _ IH]; intros w; [done|].
  cbn. rewrite <- (IH w) at 2. f_equal. by destruct e.
Qed.

Lemma elem_of_filter_held (held : option nat) (l : list nat) (k : nat) :
  k ∈ List.filter (fun k => negb (bool_decide (held = Some k))) l
  <-> k ∈ l /\ held <> Some k.
Proof.
  rewrite list_elem_of_In, filter_In, <- list_elem_of_In.
  rewrite negb_true_iff, bool_decide_eq_false. done.
Qed.

Lemma cleared (w : World) (h : Hook) (rest : list Effect) :
  coherent w ->
  Forall timer_free rest ->
  let w' := foldl effect
              {| hook := h; armed := armed w; pending := pending w;
                 held := held w |}
              (clearing (reconnectTimeoutRef (hook w)) ++ rest) in
  hook w' = h /\ armed w' = armed w /\ held w' = None
  /\ forall k, k ∈ pending w' <-> k ∈ pending w /\ held w <> Some k.
Proof.
  intros Hco Hrest w'. subst w'. rewrite foldl_app, foldl_effect_free by done.
  unfold coherent in Hco.
  destruct (reconnectTimeoutRef (hook w)) as [d|], (held w) as [j|] eqn:Hheld;
    try done; cbn.
  - split; [done|]. split; [done|]. split; [done|].
    intros k. apply elem_of_filter_held.
  - split; [done|]. split; [done|]. split; [done|].
    intros k. split; [intros H; by split|by intros [? _]].
Qed.

Lemma disconnect_run (h : Hook) :
  snd (disconnect h)
  = clearing (reconnectTimeoutRef h)
    ++ match wsRef h with
       | Some _ => [SocketClose (Some 1000)]
       | None => []
       end.
Proof. unfold disconnect, clearReconnectTimeout. cbn. by destruct (reconnectTimeoutRef h). Qed.

Lemma onopen_run (h : Hook) :
  snd (onopen h) = clearing (reconnectTimeoutRef h) ++ [CallOnOpen].
Proof. unfold onopen, clearReconnectTimeout. cbn. by destruct (reconnectTimeoutRef h). Qed.

Lemma perform_run (ev : Event) (w : World) :
  perform ev w
  = foldl effect
      {| hook := fst (handle ev (hook w)); armed := armed w;
         pending := pending w; held := held w |}
      (snd (handle ev (hook w))).
Proof. unfold perform. by destruct (handle ev (hook w)). Qed.

Lemma onclose_parted_run (h : Hook) (code : Z) :
  parted h -> snd (onclose h code) = [CallOnClose].
Proof.
  intros (Hm & _). unfold onclose, shouldReconnect.
  rewrite Hm. cbn [negb andb].
  by destruct (RECONNECT_ATTEMPTS <=? reconnectAttemptsRef h)%nat.
Qed.

Lemma closes_parted (codes : list Z) (w : World) :
  parted (hook w) ->
  let w' := occurAll (List.map (fun code => Handles (Closes code)) codes) w in
  parted (hook w') /\ armed w' = armed w /\ pending w' = pending w
  /\ held w' = held w.
Proof.
  revert w. induction codes as [|code codes IH]; intros w H w'; [done|].
  assert (E : perform (Closes code) w
              = {| hook := fst (onclose (hook w) code); armed := armed w;
                   pending := pending w; held := held w |}).
  { rewrite perform_run. cbn [handle].
    by rewrite (onclose_parted_run _ code H). }
  assert (H' : parted (hook (perform (Closes code) w))).
  { rewrite E. apply (onclose_parted _ code H). }
  specialize (IH (perform (Closes code) w) H'). cbv zeta in IH.
  change (occurAll (List.map (fun code => Handles (Closes code)) codes)
            (perform (Closes code) w)) with w' in IH.
  destruct IH as (H1 & H2 & H3 & H4).
  rewrite H2, H3, H4, E. done.
Qed.

(** X21.  [disconnect()] cancels the timer whose handle the hook holds and
    no other, and the close events that arrive afterwards, of whatever
    codes, arm none: the hook then shows [disconnected], holds no socket
    and no handle, and the timers pending are those that were pending
    before, apart from the one whose handle was held.  So nothing is pending
    if no timer was pending but that one; while a timer whose handle an
    earlier close overwrote stays pending, and when it goes off the hook
    connects again and no longer counts as disconnected by hand. *)
Theorem disconnect_cancels_held_timer_only (w : World) (codes : list Z) :
  coherent w ->
  let w' := occurAll (Handles Disconnects
                        :: List.map (fun code => Handles (Closes code)) codes)
              w in
  armed w' = armed w
  /\ held w' = None
  /\ reconnectTimeoutRef (hook w') = None
  /\ wsRef (hook w') = None
  /\ connectionStatus (hook w') = disconnected
  /\ (forall k, k ∈ pending w' <-> k ∈ pending w /\ held w <> Some k)
  /\ ((forall k, k ∈ pending w -> held w = Some k) -> pending w' = [])
  /\ (forall k failure,
        k ∈ pending w' ->
        isManualDisconnectRef (hook (occur (Fires k failure) w')) = false).
Proof.
  intros Hco w'.
  set (w1 := perform Disconnects w).
  assert (H1 : hook w1 = fst (disconnect (hook w)) /\ armed w1 = armed w
               /\ held w1 = None
               /\ forall k, k ∈ pending w1
                            <-> k ∈ pending w /\ held w <> Some k).
  { subst w1. rewrite perform_run. cbn [handle]. rewrite disconnect_run.
    apply cleared; [done|]. destruct (wsRef (hook w)); by repeat constructor. }
  destruct H1 as (Hh & Ha & Hheld & Hp).
  assert (Hparted : parted (hook w1))
    by (rewrite Hh; apply disconnect_parted).
  destruct (closes_parted codes w1 Hparted) as (Hq & Ha' & Hp' & Hheld').
  change (occurAll (List.map (fun code => Handles (Closes code)) codes) w1)
    with w' in Hq, Ha', Hp', Hheld'.
  destruct Hq as (Hm & Ht & Hw & Hs).
  split; [congruence|]. split; [congruence|]. split; [done|].
  split; [done|]. split; [done|].
  split; [intros k; rewrite Hp'; apply Hp|].
  split.
  - intros Honly. rewrite Hp'. destruct (pending w1) as [|k l]; [done|].
    destruct (proj1 (Hp k)) as [Hk Hne]; [apply elem_of_cons; by left|].
    by destruct (Hne (Honly k Hk)).
  - intros k failure Hk. cbn [occur]. rewrite bool_decide_eq_true_2 by done.
    rewrite perform_run. cbn [handle hook].
    assert (Hc : isManualDisconnectRef (fst (connect failure (hook w')))
                 = false).
    { unfold connect. rewrite Hw. by destruct failure. }
    revert Hc. generalize (snd (connect failure (hook w'))).
    generalize (fst (connect failure (hook w'))). intros h fx Hc.
    assert (G : forall fx w0, hook (foldl effect w0 fx) = hook w0).
    { clear. induction fx as [|e fx IH]; intros w0; [done|].
      cbn. rewrite IH. by destruct e. }
    by rewrite G.
Qed.

Lemma disconnect_cancels_held_timer_only_witness :
  pending (occurAll [Handles (Connects None); Handles (Connects None);
                     Handles (Closes 1006); Handles (Closes 1006);
                     Handles Disconnects] start) = [0%nat]
  /\ isManualDisconnectRef
       (hook (occurAll [Handles (Connects None); Handles (Connects None);
                        Handles (Closes 1006); Handles (Closes 1006);
                        Handles Disconnects; Fires 0 None] start))
     = false.
Proof.
  split; [reflexivity|].
  refine (proj2 (proj2 (proj2 (proj2 (proj2 (proj2 (proj2
            (disconnect_cancels_held_timer_only
               (occurAll [Handles (Connects None); Handles (Connects None);
                          Handles (Closes 1006); Handles (Closes 1006)] start)
               [] _))))))) 0%nat None _).
  - exact I.
  - vm_compute. apply elem_of_cons. by left.
Defined.

(** X22.  A successful open resets the back-off.  It clears the handle the
    hook holds and cancels the timer of that handle, and no other: a timer
    whose handle an earlier close overwrote stays pending.  The next close
    that calls for a reconnect, on a hook that was not disconnected by
    hand, arms the timer for the first delay, [RECONNECT_INTERVAL], and
    counts as the first attempt. *)
Theorem open_resets_backoff (w : World) (code : Z) :
  coherent w ->
  isManualDisconnectRef (hook w) = false ->
  includes permanentErrorCodes code = false ->
  let w1 := occur (Handles Opens) w in
  let h1 := hook w1 in
  h1 = fst (onopen (hook w))
  /\ held w1 = None
  /\ reconnectTimeoutRef h1 = None
  /\ (forall k, k ∈ pending w1 <-> k ∈ pending w /\ held w <> Some k)
  /\ snd (onclose h1 code) = [CallOnClose; SetTimeout RECONNECT_INTERVAL]
  /\ reconnectAttemptsRef (fst (onclose h1 code)) = 1%nat.
Proof.
  intros Hco Hm Hcode w1 h1.
  assert (H1 : hook w1 = fst (onopen (hook w)) /\ armed w1 = armed w
               /\ held w1 = None
               /\ forall k, k ∈ pending w1
                            <-> k ∈ pending w /\ held w <> Some k).
  { subst w1. cbn [occur]. rewrite perform_run. cbn [handle].
    rewrite onopen_run. apply cleared; [done|]. by repeat constructor. }
  destruct H1 as (Hh & _ & Hheld & Hp). subst h1. rewrite Hh.
  split; [done|]. split; [done|].
  unfold onopen.
  destruct (clearReconnectTimeout _) as [h2 fx] eqn:E.
  pose proof (clearReconnectTimeout_spec
                {| connectionStatus := connected; error_ := None;
                   wsRef := wsRef (hook w);
                   reconnectTimeoutRef := reconnectTimeoutRef (hook w);
                   reconnectAttemptsRef := 0;
                   isManualDisconnectRef := isManualDisconnectRef (hook w) |})
    as (Ha & Hman & Hn & _).
  rewrite E in Ha, Hman, Hn. cbn in Ha, Hman, Hn. cbn [fst].
  split; [done|]. split; [done|].
  unfold onclose, shouldReconnect. rewrite Ha, Hman, Hm, Hcode. cbn.
  done.
Qed.

Lemma open_resets_backoff_witness :
  snd (onclose
         (hook (occurAll [Handles (Closes 1006); Handles (Closes 1006);
                          Handles Opens] start)) 1006)
  = [CallOnClose; SetTimeout 2000]
  /\ pending (occurAll [Handles (Closes 1006); Handles (Closes 1006);
                        Handles Opens] start) = [0%nat].
Proof.
  split; [|reflexivity].
  refine (proj1 (proj2 (proj2 (proj2 (proj2
            (open_resets_backoff
               (occurAll [Handles (Closes 1006); Handles (Closes 1006)] start)
               1006 _ _ _)))))).
  - exact I.
  - reflexivity.
  - reflexivity.
Defined.

End ReconnectMore.

(** ** The conversation hook: delivery of a text, a streamed response *)

Section ConversationMore.
Import Js UseOpenAIMessages.

(** The frames that a stretch of the log handed to
    [sendWebSocketMessage]. *)
Definition framesSent (fx : list Effect) : list WebSocketMessage :=
  omap (fun e => match e with FrameSent f => Some f | _ => None end) fx.

Definition accepted (a : SendAnswer) : bool :=
  match a with
  | Accepted => true
  | _ => false
  end.

Lemma framesSent_app (fx1 fx2 : list Effect) :
  framesSent (fx1 ++ fx2) = framesSent fx1 ++ framesSent fx2.
Proof. apply omap_app. Qed.

Lemma call_quiet (env : Env) (c : CallbackCall) :
  (forall c, throws env c = false) ->
  call env c = (fun s => (log (Called c) s, Return tt)).
Proof. intros H. unfold call, bind, modify. by rewrite H. Qed.

Lemma map_upd_last (mid : string) (u : Updates) (base : list OpenAIMessage)
    (m : OpenAIMessage) :
  mid ∉ List.map id base -> id m = mid ->
  List.map (fun m => if String.eqb (id m) mid then apply_updates u m else m)
    (base ++ [m])
  = base ++ [apply_updates u m].
Proof.
  intros Hfresh Hid.
  change (List.map (upd mid u) (base ++ [m]) = base ++ [apply_updates u m]).
  rewrite List.map_app, (map_upd_fresh mid u base Hfresh). cbn [List.map].
  unfold upd. by rewrite Hid, String.eqb_refl.
Qed.

(** X23.  The outcome of [sendTextMessage] on an acceptable text, when no
    callback throws: the user message is appended and ends up [sent] if the
    server took both frames, [error] otherwise; the request for a response
    is handed over only after the conversation item was taken; and the hook
    shows the assistant as responding only if both frames were taken. *)
Theorem sendTextMessage_delivery (env : Env) (now : Z) (mid txt : string)
    (h : Hook) :
  (forall c, throws env c = false) ->
  mid ∉ List.map id (messages h) ->
  trim txt <> "" ->
  (String.length txt <= 1000)%nat ->
  let h' := fst (sendTextMessage env now mid txt h) in
  let first := accepted (send env (conversationEvent now txt)) in
  let both := (first && accepted (send env (responseEvent now)))%bool in
  messages h'
  = messages h ++ [{| id := mid; content := trim txt; sender := user;
                      timestamp := now;
                      status := if both then sent else error |}]
  /\ framesSent (trace h')
     = framesSent (trace h)
       ++ conversationEvent now txt
          :: (if first then [responseEvent now] else [])
  /\ isAIResponding h' = (if both then true else isAIResponding h).
Proof.
  intros Hquiet Hfresh Hne Hlen h' first both. subst h' first both.
  unfold sendTextMessage.
  apply String.eqb_neq in Hne. rewrite Hne.
  destruct (Nat.ltb_spec 1000 (String.length txt)) as [|_]; [lia|].
  unfold addMessage, sendWebSocketMessage, updateMessage,
    updateAIRespondingState.
  rewrite !call_quiet by done.
  destruct (send env (conversationEvent now txt)) as [| |e1];
    [destruct (send env (responseEvent now)) as [| |e2]| |];
    unfold try_catch, bind, modify, ret, throw;
    rewrite ?call_quiet by done;
    cbn [fst snd messages trace isAIResponding log with_messages
         set_responding accepted andb status_only new_status].
  all: rewrite ?map_upd_last by done.
  all: cbn [apply_updates id content sender timestamp status default
            new_content new_status status_only].
  all: rewrite ?map_upd_last by done.
  all: cbn [apply_updates id content sender timestamp status default
            new_content new_status status_only].
  all: rewrite !framesSent_app; cbn; rewrite ?app_nil_r, <- ?app_assoc.
  all: done.
Qed.

Lemma sendTextMessage_delivery_witness :
  messages (fst (sendTextMessage accepting 5 "user_1" "  hi " initial))
  = [{| id := "user_1"; content := "hi"; sender := user; timestamp := 5;
        status := sent |}].
Proof.
  refine (proj1 (sendTextMessage_delivery accepting 5 "user_1" "  hi " initial
                   _ _ _ _)).
  - reflexivity.
  - apply not_elem_of_nil.
  - discriminate.
  - cbn. lia.
Defined.

(** A delta of the text or of the transcript of the audio. *)
Definition is_delta (ev : OpenAIEvent) : Prop :=
  etype ev = "response.text.delta"
  \/ etype ev = "response.audio_transcript.delta".

(** The events handled one after the other. *)
Definition feed (env : Env) (now : Z) (mid : string) (evs : list OpenAIEvent)
    (s : Hook) : Hook :=
  foldl (fun s ev => fst (handleOpenAIEvent env now mid ev s)) s evs.

(** The text that the deltas add up to. *)
Definition streamed (evs : list OpenAIEvent) : string :=
  foldl (fun c ev => c +:+ default "" (delta ev)) "" evs.

(** The hook while the assistant message [mid] is being built on top of
    the messages [base], with [c] received so far. *)
Definition building (base : list OpenAIMessage) (now : Z) (mid c : string)
    (s : Hook) : Prop :=
  messages s = base ++ [{| id := mid; content := c; sender := ai;
                           timestamp := now; status := receiving |}]
  /\ exists r, currentAIResponseRef s = Some r
               /\ cur_id r = mid /\ cur_content r = c.

Lemma append_empty_r (s : string) : s +:+ "" = s.
Proof.
  induction s as [|c s IH]; [reflexivity|].
  change (String c (s +:+ "") = String c s). by rewrite IH.
Qed.

Lemma added_building (env : Env) (now : Z) (mid : string) (ev : OpenAIEvent)
    (it : Item) (s : Hook) :
  (forall c, throws env c = false) ->
  etype ev = "response.output_item.added" ->
  item ev = Some it ->
  role it = Some "assistant" ->
  building (messages s) now mid "" (fst (handleOpenAIEvent env now mid ev s))
  /\ isAIResponding (fst (handleOpenAIEvent env now mid ev s))
     = isAIResponding s.
Proof.
  intros Hquiet Hty Hitem Hrole. unfold handleOpenAIEvent.
  rewrite Hty, Hitem. cbn [String.eqb Ascii.eqb Bool.eqb].
  rewrite (bool_decide_eq_true_2 _ Hrole).
  unfold addMessage. rewrite call_quiet by done.
  unfold try_catch, bind, modify. cbn. split; [split|]; eauto.
Qed.

Lemma delta_building (env : Env) (now later : Z) (mid other c : string)
    (base : list OpenAIMessage) (ev : OpenAIEvent) (s : Hook) :
  mid ∉ List.map id base ->
  is_delta ev ->
  building base now mid c s ->
  building base now mid (c +:+ default "" (delta ev))
    (fst (handleOpenAIEvent env later other ev s))
  /\ isAIResponding (fst (handleOpenAIEvent env later other ev s))
     = isAIResponding s.
Proof.
  intros Hfresh Hty (Hm & r & Hr & Hid & Hc).
  assert (E : handleOpenAIEvent env later other ev s
              = try_catch (onDelta ev)
                  (fun e =>
                     bind (call env (OnError ("Event processing error: " +:+ e)))
                       (fun _ =>
                          bind (clearCurrent (fun _ => status_only error))
                            (fun _ => updateAIRespondingState env false)))
                  s).
  { unfold handleOpenAIEvent. by destruct Hty as [-> | ->]. }
  rewrite E. unfold try_catch, onDelta, bind, gets. rewrite Hr.
  destruct (delta ev) as [d|]; cbn [present default];
    [destruct (String.eqb_spec d "") as [->|Hd]|].
  - rewrite append_empty_r. cbn. split; [split|]; eauto.
  - unfold building, updateMessage, bind, modify.
    cbn [fst snd messages log with_messages set_current cur_id cur_content
         currentAIResponseRef isAIResponding].
    rewrite Hm, Hid, Hc, map_upd_last by done.
    split; [split|]; [done|eauto|done].
  - rewrite append_empty_r. cbn. split; [split|]; eauto.
Qed.

Lemma feed_building (env : Env) (now later : Z) (mid other : string)
    (base : list OpenAIMessage) (evs : list OpenAIEvent) (c : string)
    (s : Hook) :
  mid ∉ List.map id base ->
  Forall is_delta evs ->
  building base now mid c s ->
  building base now mid
    (foldl (fun c ev => c +:+ default "" (delta ev)) c evs)
    (feed env later other evs s)
  /\ isAIResponding (feed env later other evs s) = isAIResponding s.
Proof.
  intros Hfresh Hevs. revert c s.
  induction Hevs as [|ev evs Hev _ IH]; intros c s H; [done|].
  destruct (delta_building env now later mid other c base ev s Hfresh Hev H)
    as [H1 R1].
  destruct (IH _ _ H1) as [H2 R2].
  split; [exact H2|]. etransitivity; [exact R2|exact R1].
Qed.

(** X24.  A streamed response, when no callback throws.  After the
    announcement of an assistant item and any number of text or transcript
    deltas, the conversation ends in one new assistant message, [receiving],
    whose content is the deltas put together in the order of arrival; the
    messages before it are untouched.  [response.done] then leaves that
    content in place, marks the message [completed], and the hook no longer
    shows the assistant as responding nor holds a response under
    construction. *)
Theorem streamed_response (env : Env) (now later : Z) (mid other : string)
    (added finish : OpenAIEvent) (it : Item) (deltas : list OpenAIEvent)
    (s : Hook) :
  (forall c, throws env c = false) ->
  mid ∉ List.map id (messages s) ->
  etype added = "response.output_item.added" ->
  item added = Some it ->
  role it = Some "assistant" ->
  Forall is_delta deltas ->
  etype finish = "response.done" ->
  let s1 := fst (handleOpenAIEvent env now mid added s) in
  let s2 := feed env later other deltas s1 in
  let s3 := fst (handleOpenAIEvent env later other finish s2) in
  messages s2
  = messages s ++ [{| id := mid; content := streamed deltas; sender := ai;
                      timestamp := now; status := receiving |}]
  /\ messages s3
     = messages s ++ [{| id := mid; content := streamed deltas; sender := ai;
                         timestamp := now; status := completed |}]
  /\ currentAIResponseRef s3 = None
  /\ isAIResponding s3 = false.
Proof.
  intros Hquiet Hfresh Hty Hitem Hrole Hdeltas Hfin s1 s2 s3.
  destruct (added_building env now mid added it s Hquiet Hty Hitem Hrole)
    as [H1 _]. fold s1 in H1.
  destruct (feed_building env now later mid other (messages s) deltas "" s1
              Hfresh Hdeltas H1) as [(Hm & r & Hr & Hid & Hc) _].
  fold s2 in Hm, Hr. fold (streamed deltas) in Hm, Hc.
  split; [exact Hm|].
  subst s3. unfold handleOpenAIEvent. rewrite Hfin.
  cbn [String.eqb Ascii.eqb Bool.eqb].
  unfold updateAIRespondingState. rewrite call_quiet by done.
  unfold try_catch, clearCurrent, updateMessage, bind, gets, modify.
  cbn [fst snd messages log with_messages set_current set_responding
       currentAIResponseRef isAIResponding].
  rewrite Hr.
  cbn [fst snd messages log with_messages set_current set_responding
       currentAIResponseRef isAIResponding].
  rewrite Hm, Hid, map_upd_last by done. done.
Qed.

Definition announcement : OpenAIEvent :=
  {| etype := "response.output_item.added"; response_id := Some "resp_1";
     delta := None; text := None; transcript := None;
     item := Some {| item_id := Some "item_1"; role := Some "assistant" |};
     error_message := None |}.

Definition textDeltaOf (d : string) : OpenAIEvent :=
  {| etype := "response.text.delta"; response_id := Some "resp_1";
     delta := Some d; text := None; transcript := None; item := None;
     error_message := None |}.

Definition ending (ty : string) : OpenAIEvent :=
  {| etype := ty; response_id := Some "resp_1"; delta := None; text := None;
     transcript := None; item := None; error_message := None |}.

Lemma streamed_response_witness :
  messages (fst (handleOpenAIEvent accepting 9 "x" (ending "response.done")
                   (feed accepting 9 "x" [textDeltaOf "Om "; textDeltaOf "shanti"]
                      (fst (handleOpenAIEvent accepting 1 "ai_1" announcement
                              initial)))))
  = [{| id := "ai_1"; content := "Om shanti"; sender := ai; timestamp := 1;
        status := completed |}].
Proof.
  refine (proj1 (proj2 (streamed_response accepting 1 9 "ai_1" "x" announcement
           (ending "response.done")
           {| item_id := Some "item_1"; role := Some "assistant" |}
           [textDeltaOf "Om "; textDeltaOf "shanti"] initial
           _ _ eq_refl eq_refl eq_refl _ eq_refl))).
  - reflexivity.
  - apply not_elem_of_nil.
  - repeat constructor.
Defined.

(** X25.  A response cut short by an [error] event, when no callback
    throws: the assistant message under construction is marked [error] and
    keeps the text streamed so far, or reads "Error generating response" if
    nothing had arrived; the hook no longer shows the assistant as
    responding nor holds a response under construction. *)
Theorem failed_response (env : Env) (now later : Z) (mid other : string)
    (added finish : OpenAIEvent) (it : Item) (deltas : list OpenAIEvent)
    (s : Hook) :
  (forall c, throws env c = false) ->
  mid ∉ List.map id (messages s) ->
  etype added = "response.output_item.added" ->
  item added = Some it ->
  role it = Some "assistant" ->
  Forall is_delta deltas ->
  etype finish = "error" ->
  let s1 := fst (handleOpenAIEvent env now mid added s) in
  let s2 := feed env later other deltas s1 in
  let s3 := fst (handleOpenAIEvent env later other finish s2) in
  messages s3
  = messages s ++ [{| id := mid;
                      content := if String.eqb (streamed deltas) ""
                                 then "Error generating response"
                                 else streamed deltas;
                      sender := ai; timestamp := now; status := error |}]
  /\ currentAIResponseRef s3 = None
  /\ isAIResponding s3 = false.
Proof.
  intros Hquiet Hfresh Hty Hitem Hrole Hdeltas Hfin s1 s2 s3.
  destruct (added_building env now mid added it s Hquiet Hty Hitem Hrole)
    as [H1 _]. fold s1 in H1.
  destruct (feed_building env now later mid other (messages s) deltas "" s1
              Hfresh Hdeltas H1) as [(Hm & r & Hr & Hid & Hc) _].
  fold s2 in Hm, Hr. fold (streamed deltas) in Hm, Hc.
  subst s3. unfold handleOpenAIEvent. rewrite Hfin.
  cbn [String.eqb Ascii.eqb Bool.eqb].
  unfold updateAIRespondingState. rewrite !call_quiet by done.
  unfold try_catch, clearCurrent, updateMessage, bind, gets, modify.
  cbn [fst snd messages log with_messages set_current set_responding
       currentAIResponseRef isAIResponding].
  rewrite Hr.
  cbn [fst snd messages log with_messages set_current set_responding
       currentAIResponseRef isAIResponding].
  rewrite Hm, Hid, Hc, map_upd_last by done.
  cbn [present]. by destruct (String.eqb (streamed deltas) "").
Qed.

Lemma failed_response_witness :
  messages (fst (handleOpenAIEvent accepting 9 "x" (ending "error")
                   (feed accepting 9 "x" []
                      (fst (handleOpenAIEvent accepting 1 "ai_1" announcement
                              initial)))))
  = [{| id := "ai_1"; content := "Error generating response"; sender := ai;
        timestamp := 1; status := error |}].
Proof.
  refine (proj1 (failed_response accepting 1 9 "ai_1" "x" announcement
           (ending "error")
           {| item_id := Some "item_1"; role := Some "assistant" |}
           [] initial _ _ eq_refl eq_refl eq_refl _ eq_refl)).
  - reflexivity.
  - apply not_elem_of_nil.
  - constructor.
Defined.

End ConversationMore.

(** ** A text from the hook to the upstream link *)

Section EndToEnd.
Import Js Gateway Router.

(** A frame of the client as the server reads it:
    [JSON.parse(JSON.stringify(frame))]; [toISOString] is the method of
    [Date] that writes the time stamp. *)
Definition wire (toISOString : Z -> string)
    (f : UseOpenAIMessages.WebSocketMessage) : Value :=
  Obj [("type", Str (UseOpenAIMessages.wtype f));
       ("payload", UseOpenAIMessages.wpayload f);
       ("timestamp", Str (toISOString (UseOpenAIMessages.wtimestamp f)))].

Lemma forward_step (now : Z) (eids : nat -> string) (ws : nat)
    (context : ConnectionContext) (service : nat) (srv : Server)
    (svc : OpenAIRealtimeService.Service)
    (t : OpenAIRealtimeService.Transport)
    (fields body : list (string * Value)) :
  heap srv !! service = Some svc ->
  link_up svc t ->
  assoc "type" fields = Some (Str "openai_event") ->
  assoc "payload" fields = Some (Obj body) ->
  fst (handleMessage now eids ws (WellFormed (Obj fields)) context service srv)
  = with_heap (<[service := wrote svc t [stamped (eids 0%nat) body]]>)
      (with_sessions (SessionService.updateActivity now (sessionId context))
         srv).
Proof.
  intros Hheap Hup Hty Hbody.
  rewrite (handleMessage_forward now eids ws context service srv fields
             (Obj body) Hty Hbody eq_refl).
  unfold try_catch, on_service. cbn [heap with_sessions]. rewrite Hheap.
  by rewrite (sendEvent_open _ _ _ t Hup).
Qed.

(** X26.  The two frames that [sendTextMessage] of the conversation hook
    hands to the socket, read by the server one after the other while the
    upstream link is up, become two upstream events in the same order: the
    creation of a user message item whose text is the trimmed input, and a
    request for a text-only response, each with the identifier drawn for
    it.  Nothing is written back to the client. *)
Theorem text_reaches_upstream (toISOString : Z -> string) (now t1 t2 : Z)
    (txt : string)
    (eids1 eids2 : nat -> string) (ws : nat) (context : ConnectionContext)
    (service : nat) (srv : Server) (svc : OpenAIRealtimeService.Service)
    (t : OpenAIRealtimeService.Transport) :
  heap srv !! service = Some svc ->
  link_up svc t ->
  let srv1 := fst (handleMessage t1 eids1 ws
                     (WellFormed (wire toISOString
                                    (UseOpenAIMessages.conversationEvent
                                       now txt)))
                     context service srv) in
  let srv2 := fst (handleMessage t2 eids2 ws
                     (WellFormed (wire toISOString
                                    (UseOpenAIMessages.responseEvent now)))
                     context service srv1) in
  heap srv2 !! service
  = Some (wrote svc t
            [Obj [("type", Str "conversation.item.create");
                  ("item", Obj [("type", Str "message");
                                ("role", Str "user");
                                ("content",
                                 Arr [Obj [("type", Str "input_text");
                                           ("text",
                                            Str (UseOpenAIMessages.trim txt))]])]);
                  ("event_id", Str (eids1 0%nat))];
             Obj [("type", Str "response.create");
                  ("response", Obj [("modalities", Arr [Str "text"])]);
                  ("event_id", Str (eids2 0%nat))]])
  /\ sockets srv2 = sockets srv.
Proof.
  intros Hheap Hup srv1 srv2.
  assert (E1 : srv1
               = with_heap (<[service := wrote svc t
                    [stamped (eids1 0%nat)
                       [("type", Str "conversation.item.create");
                        ("item", Obj [("type", Str "message");
                                      ("role", Str "user");
                                      ("content",
                                       Arr [Obj [("type", Str "input_text");
                                                 ("text",
                                                  Str (UseOpenAIMessages.trim
                                                         txt))]])])]]]>)
                   (with_sessions
                      (SessionService.updateActivity t1 (sessionId context))
                      srv)).
  { subst srv1. by apply forward_step. }
  assert (E2 : srv2
               = with_heap (<[service := wrote
                    (wrote svc t
                       [stamped (eids1 0%nat)
                          [("type", Str "conversation.item.create");
                           ("item", Obj [("type", Str "message");
                                         ("role", Str "user");
                                         ("content",
                                          Arr [Obj [("type", Str "input_text");
                                                    ("text",
                                                     Str (UseOpenAIMessages.trim
                                                            txt))]])])]])
                    {| OpenAIRealtimeService.readyState :=
                         OpenAIRealtimeService.OPEN;
                       OpenAIRealtimeService.sent :=
                         OpenAIRealtimeService.sent t
                         ++ [stamped (eids1 0%nat)
                               [("type", Str "conversation.item.create");
                                ("item", Obj [("type", Str "message");
                                              ("role", Str "user");
                                              ("content",
                                               Arr [Obj [("type",
                                                          Str "input_text");
                                                         ("text",
                                                          Str (UseOpenAIMessages.trim
                                                                 txt))]])])]] |}
                    [stamped (eids2 0%nat)
                       [("type", Str "response.create");
                        ("response",
                         Obj [("modalities", Arr [Str "text"])])]]]>)
                   (with_sessions
                      (SessionService.updateActivity t2 (sessionId context))
                      srv1)).
  { subst srv2. apply forward_step; [|by apply wrote_link_up|done|done].
    rewrite E1. cbn. apply lookup_insert_eq. }
  rewrite E2, E1. cbn [heap sockets with_heap with_sessions].
  rewrite lookup_insert_eq, wrote_wrote. done.
Qed.

Lemma text_reaches_upstream_witness :
  sockets (fst (handleMessage 7 (fun _ => "e2") 7
                  (WellFormed (wire pretty (UseOpenAIMessages.responseEvent 5)))
                  sampleContext 0
                  (fst (handleMessage 6 (fun _ => "e1") 7
                          (WellFormed (wire pretty
                                        (UseOpenAIMessages.conversationEvent
                                           5 " hi ")))
                          sampleContext 0 liveServer))))
  = sockets liveServer.
Proof.
  exact (proj2 (text_reaches_upstream pretty 5 6 7 " hi " (fun _ => "e1")
                  (fun _ => "e2") 7 sampleContext 0 liveServer liveService _
                  (lookup_singleton_eq _ _) liveService_up)).
Defined.

End EndToEnd.

(** ** Audio chunks: sizes and ranges *)

Section Pcm16More.
Import Js Audio.

Lemma encode_groups_length (bytes : list Z) :
  List.length (encode_groups bytes)
  = (4 * ((List.length bytes + 2) / 3))%nat.
Proof.
  induction bytes as [|a|a b|a b c l IH] using list_ind3;
    [reflexivity..|].
  cbn [encode_groups List.length]. rewrite IH.
  replace (S (S (S (List.length l))) + 2)%nat
    with (1 * 3 + (List.length l + 2))%nat by lia.
  rewrite Nat.div_add_l by lia. lia.
Qed.

Lemma string_of_list_length (l : list ascii) :
  String.length (string_of_list_ascii l) = List.length l.
Proof. induction l as [|c l IH]; cbn; [done|by rewrite IH]. Qed.

(** X27.  [convertToPCM16] never throws, whatever the samples, and the
    chunk for [n] samples is [4 * ceil(2n / 3)] characters long; for no
    samples it is the empty text, which [decodeAudioData] rejects. *)
Theorem convertToPCM16_length (audioData : list Q) :
  (exists chunk,
     convertToPCM16 audioData = Return chunk
     /\ String.length chunk
        = (4 * ((2 * List.length audioData + 2) / 3))%nat)
  /\ convertToPCM16 [] = Return ""
  /\ decodeAudioData "" = Throw "Failed to decode audio data".
Proof.
  split; [|split; reflexivity].
  destruct (pcm16_bytes_spec audioData) as (Hbytes & Hlen & _).
  destruct (atob_btoa _ Hbytes) as [Hbtoa _].
  eexists. split.
  - unfold convertToPCM16. rewrite binary_of_chunks_all by done.
    exact Hbtoa.
  - by rewrite string_of_list_length, encode_groups_length, Hlen.
Qed.

Lemma index_of_range (c : ascii) (s : string) (i j : Z) :
  index_of c s i = Some j -> i <= j < i + Z.of_nat (String.length s).
Proof.
  revert i. induction s as [|c' s IH]; intros i; cbn [index_of]; [done|].
  destruct (Ascii.eqb c c').
  - intros [= <-]. cbn [String.length]. lia.
  - intros H. apply IH in H. cbn [String.length]. lia.
Qed.

Lemma sextets_range (l : list ascii) (s : list Z) :
  sextets l = Some s -> Forall is_sextet s.
Proof.
  revert s. induction l as [|c l IH]; intros s; cbn [sextets].
  - by intros [= <-].
  - destruct (b64index c) as [i|] eqn:E; [|done].
    destruct (sextets l) as [tl|]; [|done]. intros [= <-].
    constructor; [|by apply IH].
    apply index_of_range in E. unfold is_sextet.
    change (Z.of_nat (String.length alphabet)) with 64 in E. lia.
Qed.

Lemma decode_groups_bytes_le (n : nat) (s : list Z) :
  (List.length s <= n)%nat -> Forall is_sextet s ->
  Forall is_byte (decode_groups s).
Proof.
  unfold is_sextet, is_byte. revert s.
  induction n as [n IH] using lt_wf_ind. intros s Hn Hs.
  destruct s as [|a [|b [|c [|d rest]]]]; cbn [decode_groups];
    try by constructor.
  - apply Forall_cons_1 in Hs as [Ha Hs]. apply Forall_cons_1 in Hs as [Hb _].
    repeat constructor; Z.div_mod_to_equations; lia.
  - apply Forall_cons_1 in Hs as [Ha Hs]. apply Forall_cons_1 in Hs as [Hb Hs].
    apply Forall_cons_1 in Hs as [Hc _].
    repeat constructor; Z.div_mod_to_equations; lia.
  - apply Forall_cons_1 in Hs as [Ha Hs]. apply Forall_cons_1 in Hs as [Hb Hs].
    apply Forall_cons_1 in Hs as [Hc Hs]. apply Forall_cons_1 in Hs as [Hd Hs].
    cbn [List.length] in Hn.
    repeat (constructor; [Z.div_mod_to_equations; lia|]).
    apply (IH (List.length rest)); [lia|done|done].
Qed.

Lemma atob_bytes (text : string) (bytes : list Z) :
  atob text = Return bytes -> Forall is_byte bytes.
Proof.
  unfold atob.
  destruct (_ mod 4 =? 1)%nat; [done|].
  destruct (sextets _) as [s|] eqn:E; [|done]. intros [= <-].
  apply (decode_groups_bytes_le (List.length s)); [done|].
  by eapply sextets_range.
Qed.

Lemma unscale_range (lo hi : Z) :
  is_byte lo -> is_byte hi ->
  (-1 <= unscale (getInt16_le lo hi) <= 1)%Q.
Proof.
  unfold is_byte. intros Hlo Hhi. apply unscale_int16_range.
  unfold getInt16_le. destruct (Z.ltb_spec (lo + 256 * hi) 32768); lia.
Qed.

Lemma samples_of_bytes_spec (bytes : list Z) :
  Forall is_byte bytes ->
  List.length (samples_of_bytes bytes) = (List.length bytes / 2)%nat
  /\ Forall (fun y => (-1 <= y <= 1)%Q) (samples_of_bytes bytes).
Proof.
  intros H.
  assert (G : forall n bytes, (List.length bytes <= n)%nat ->
            Forall is_byte bytes ->
            List.length (samples_of_bytes bytes) = (List.length bytes / 2)%nat
            /\ Forall (fun y => (-1 <= y <= 1)%Q) (samples_of_bytes bytes)).
  { clear bytes H. induction n as [n IH] using lt_wf_ind. intros bytes Hn Hb.
    destruct bytes as [|lo [|hi rest]]; [by split; constructor..|].
    apply Forall_cons_1 in Hb as [Hlo Hb]. apply Forall_cons_1 in Hb as [Hhi Hb].
    cbn [List.length] in Hn.
    destruct (IH (List.length rest) ltac:(lia) rest (le_n _) Hb) as [L R].
    cbn [samples_of_bytes List.length]. split.
    - rewrite L.
      replace (S (S (List.length rest))) with (1 * 2 + List.length rest)%nat
        by lia.
      rewrite Nat.div_add_l by lia. lia.
    - constructor; [by apply unscale_range|done]. }
  by apply (G (List.length bytes)).
Qed.

(** X28.  Whatever text [decodeAudioData] accepts, it gives at least one
    sample, one for every two bytes of the decoded text and none for a last
    odd byte, and every sample lies in [-1, 1]. *)
Theorem decodeAudioData_samples (base64Audio : string) (played : list Q) :
  decodeAudioData base64Audio = Return played ->
  played <> []
  /\ (exists bytes, atob base64Audio = Return bytes
                    /\ List.length played = (List.length bytes / 2)%nat)
  /\ Forall (fun y => (-1 <= y <= 1)%Q) played.
Proof.
  unfold decodeAudioData.
  destruct (atob base64Audio) as [bytes|e] eqn:E; [|done].
  destruct (Nat.eqb_spec (List.length bytes / 2) 0) as [|Hn]; [done|].
  intros [= <-].
  destruct (samples_of_bytes_spec bytes (atob_bytes _ _ E)) as [L R].
  split; [|split; [by exists bytes|done]].
  intros H. rewrite H in L. cbn [List.length] in L. lia.
Qed.

Lemma decodeAudioData_samples_witness :
  Forall (fun y => (-1 <= y <= 1)%Q) [8388608 # 8388608; -8388608 # 8388608]%Q.
Proof.
  refine (proj2 (proj2 (decodeAudioData_samples "/38AgAA=" _ _))).
  vm_compute. reflexivity.
Defined.

End Pcm16More.
